(** * drive_price_scraper: classification, de-duplication, outlier filter,
      summary statistics and retrieval retry policy

    A shallow embedding of the pure core of [drive_price_scraper.py] and the
    properties its specification states about it.

    Conventions of the embedding:
    - a Python [int] is a [Z]; a Python [str] is a list of code points
      ([str]); labels that the program only ever writes as ASCII literals
      (categories, reasons, ASINs, brand names) are [string]s;
    - [None] is [None] of an [option];
    - a Python [dict] is an association list in insertion order
      (module [PyDict]), which is the order [dict.values()] iterates in;
    - code that can raise returns a [result]. *)

From Stdlib Require Import ZArith List Bool Lia String Ascii Permutation.
From Stdlib Require Floats.
Import ListNotations.
Open Scope Z_scope.

(* ================================================================== *)
(** * Part I. Definitions                                              *)
(* ================================================================== *)

(** ** Python strings *)

(** A code point. *)
Definition char := Z.

(** A Python [str]: a sequence of code points. *)
Definition str := list char.

(** String literals of the source are written as UTF-8 [string]s and decoded
    to code points by [lit]. *)
Fixpoint bytes_of (s : string) : list Z :=
  match s with
  | EmptyString => []
  | String a s' => Z.of_N (N_of_ascii a) :: bytes_of s'
  end.

Fixpoint utf8_decode (bs : list Z) : str :=
  match bs with
  | [] => []
  | b :: r =>
      if b <? 0x80 then b :: utf8_decode r
      else if b <? 0xE0 then
        match r with
        | b1 :: r1 => ((b - 0xC0) * 64 + (b1 - 0x80)) :: utf8_decode r1
        | _ => []
        end
      else if b <? 0xF0 then
        match r with
        | b1 :: b2 :: r2 =>
            ((b - 0xE0) * 4096 + (b1 - 0x80) * 64 + (b2 - 0x80)) :: utf8_decode r2
        | _ => []
        end
      else
        match r with
        | b1 :: b2 :: b3 :: r3 =>
            ((b - 0xF0) * 262144 + (b1 - 0x80) * 4096 + (b2 - 0x80) * 64
             + (b3 - 0x80)) :: utf8_decode r3
        | _ => []
        end
  end.

Definition lit (s : string) : str := utf8_decode (bytes_of s).

(** ** Exceptions *)

(** An HTTP response as far as the program looks at it. *)
Record response := mkResponse {
  status_code : Z;
  text        : str
}.

(** The exceptions the modelled code can raise.  [HTTPError] carries the
    response it was built with ([e.response]), [OtherException] stands for
    every other subclass of [Exception], named by its class. *)
Inductive exn :=
| OverflowError
| ValueError
| ZeroDivisionError
| TypeError
| HTTPError (resp : option response)
| OtherException (name : string).

(** The outcome of code that may raise. *)
Inductive result (A : Type) :=
| Ok (a : A)
| Raise (e : exn).
Arguments Ok {A} a.
Arguments Raise {A} e.

Definition bind {A B} (m : result A) (f : A -> result B) : result B :=
  match m with
  | Ok a => f a
  | Raise e => Raise e
  end.

Notation "x <- m ;; k" := (bind m (fun x => k))
  (at level 61, m at next level, right associativity).
Notation "' pat <- m ;; k" := (bind m (fun x => match x with pat => k end))
  (at level 61, pat pattern, m at next level, right associativity).

(** ** Python floats

    A Python [float] is an IEEE 754 binary64 number.  It is modelled by its
    exact value: a finite float is the dyadic number [m * 2^e]; the two
    zeros are not told apart (nothing here prints a float or divides by
    one).  Every operation computes the exact result and rounds it to the
    nearest binary64, ties to even. *)

Inductive float64 :=
| Fin (m e : Z)
| Inf (neg : bool)
| NaN.

(** The integer nearest to [n / d] ([0 < d]), ties to the even one. *)
Definition round_half_even (n d : Z) : Z :=
  let q := n / d in
  match 2 * (n mod d) ?= d with
  | Lt => q
  | Gt => q + 1
  | Eq => if Z.even q then q else q + 1
  end.

(** [a / d < 2^k], for positive [a] and [d]. *)
Definition below_pow2 (a d k : Z) : bool :=
  if k <? 0 then a * 2 ^ (- k) <? d else a <? d * 2 ^ k.

(** The binary64 nearest to the rational [n / d] ([0 < d]).  For positive
    [a] and [d], [binade a d] is the [k] with [2^k <= a / d < 2^(k+1)];
    the exponent is chosen so that the significand has 53 bits, or is the
    least exponent for a subnormal result; the significand is rounded half
    to even; a result of [2^1024] or more is an infinity. *)
Definition binade (a d : Z) : Z :=
  let k0 := Z.log2 a - Z.log2 d in
  if below_pow2 a d k0 then k0 - 1 else k0.

Definition rnd_exponent (a d : Z) : Z := Z.max (binade a d - 52) (-1074).

Definition rnd_significand (a d e : Z) : Z :=
  if e <? 0 then round_half_even (a * 2 ^ (- e)) d
  else round_half_even a (d * 2 ^ e).

Definition rnd (n d : Z) : float64 :=
  if n =? 0 then Fin 0 0 else
  let a := Z.abs n in
  let e := rnd_exponent a d in
  let m := rnd_significand a d e in
  let '(m, e) := if m =? 2 ^ 53 then (2 ^ 52, e + 1) else (m, e) in
  if m =? 0 then Fin 0 0
  else if 971 <? e then Inf (n <? 0)
  else Fin (Z.sgn n * m) e.

(** The binary64 nearest to the dyadic number [m * 2^e]. *)
Definition rnd_dyadic (m e : Z) : float64 :=
  if e <? 0 then rnd m (2 ^ (- e)) else rnd (m * 2 ^ e) 1.

(** Comparison of two floats; [None] when one of them is a NaN. *)
Definition fcompare (x y : float64) : option comparison :=
  match x, y with
  | NaN, _ | _, NaN => None
  | Inf s, Inf s' =>
      Some (match s, s' with
            | true, false => Lt
            | false, true => Gt
            | _, _ => Eq
            end)
  | Inf s, Fin _ _ => Some (if s then Lt else Gt)
  | Fin _ _, Inf s => Some (if s then Gt else Lt)
  | Fin m1 e1, Fin m2 e2 =>
      let e := Z.min e1 e2 in
      Some (m1 * 2 ^ (e1 - e) ?= m2 * 2 ^ (e2 - e))
  end.

(** [x < y], [x > y], [x == y] on floats: false on a NaN. *)
Definition flt (x y : float64) : bool :=
  match fcompare x y with Some Lt => true | _ => false end.
Definition fgt (x y : float64) : bool :=
  match fcompare x y with Some Gt => true | _ => false end.
Definition feqb (x y : float64) : bool :=
  match fcompare x y with Some Eq => true | _ => false end.

(** [x - y]. *)
Definition fsub (x y : float64) : float64 :=
  match x, y with
  | NaN, _ | _, NaN => NaN
  | Inf s, Inf s' => if Bool.eqb s s' then NaN else Inf s
  | Inf s, Fin _ _ => Inf s
  | Fin _ _, Inf s => Inf (negb s)
  | Fin m1 e1, Fin m2 e2 =>
      let e := Z.min e1 e2 in
      rnd_dyadic (m1 * 2 ^ (e1 - e) - m2 * 2 ^ (e2 - e)) e
  end.

(** [x * y]. *)
Definition fmul (x y : float64) : float64 :=
  match x, y with
  | NaN, _ | _, NaN => NaN
  | Inf s, Inf s' => Inf (xorb s s')
  | Inf s, Fin m _ | Fin m _, Inf s =>
      if m =? 0 then NaN else Inf (xorb s (m <? 0))
  | Fin m1 e1, Fin m2 e2 => rnd_dyadic (m1 * m2) (e1 + e2)
  end.

(** [x / y] on floats; Python raises on a zero divisor. *)
Definition fdiv (x y : float64) : result float64 :=
  match x, y with
  | _, Fin 0 _ => Raise ZeroDivisionError
  | NaN, _ | _, NaN => Ok NaN
  | Inf s, Inf s' => Ok NaN
  | Inf s, Fin m _ => Ok (Inf (xorb s (m <? 0)))
  | Fin _ _, Inf _ => Ok (Fin 0 0)
  | Fin m1 e1, Fin m2 e2 =>
      Ok (rnd (Z.sgn m2 * m1 * 2 ^ (Z.max (e1 - e2) 0))
              (Z.abs m2 * 2 ^ (Z.max (e2 - e1) 0)))
  end.

(** [abs(x)]. *)
Definition fabs (x : float64) : float64 :=
  match x with
  | Fin m e => Fin (Z.abs m) e
  | Inf _ => Inf false
  | NaN => NaN
  end.

(** [float(n)] for an [int] [n], also the implicit conversion of an [int]
    operand in mixed arithmetic. *)
Definition float_of_int (n : Z) : result float64 :=
  match rnd n 1 with
  | Inf _ => Raise OverflowError
  | f => Ok f
  end.

(** [a / b] on [int]s: the correctly rounded quotient. *)
Definition int_truediv (a b : Z) : result float64 :=
  if b =? 0 then Raise ZeroDivisionError else
  match rnd (Z.sgn b * a) (Z.abs b) with
  | Inf _ => Raise OverflowError
  | f => Ok f
  end.

(** [n * x] for an [int] [n] and a [float] [x]. *)
Definition int_mul_float (n : Z) (x : float64) : result float64 :=
  f <- float_of_int n ;; Ok (fmul f x).

(** [n < x] and [n > x] for an [int] [n] and a [float] [x]: Python compares
    the exact values. *)
Definition int_lt_float (n : Z) (x : float64) : bool := flt (Fin n 0) x.
Definition int_gt_float (n : Z) (x : float64) : bool := fgt (Fin n 0) x.

(** [round(x)]: to the nearest [int], ties to even. *)
Definition py_round (x : float64) : result Z :=
  match x with
  | Fin m e =>
      Ok (if e <? 0 then round_half_even m (2 ^ (- e)) else m * 2 ^ e)
  | Inf _ => Raise OverflowError
  | NaN => Raise ValueError
  end.

(** [round(x, ndigits)] for [0 <= ndigits]: the float nearest to the exact
    value of [x] rounded half-even to [ndigits] decimals. *)
Definition py_round_ndigits (x : float64) (ndigits : Z) : float64 :=
  match x with
  | Fin m e =>
      let p := 10 ^ ndigits in
      let n := if e <? 0 then round_half_even (m * p) (2 ^ (- e))
               else m * p * 2 ^ e in
      rnd n p
  | _ => x
  end.

(** [int(x)]: truncation towards zero. *)
Definition py_int (x : float64) : result Z :=
  match x with
  | Fin m e => Ok (if e <? 0 then Z.quot m (2 ^ (- e)) else m * 2 ^ e)
  | Inf _ => Raise OverflowError
  | NaN => Raise ValueError
  end.

(** The float denoted by the decimal numeral [n / 10^k], as [float("...")]
    and the compiler read it. *)
Definition float_of_decimal (n : Z) (k : Z) : float64 := rnd n (10 ^ k).

(** The value of one of the kernel's hardware floats, used below to compare
    the operations of this model with the machine's on sample operands. *)
Definition of_prim (x : PrimFloat.float) : float64 :=
  match FloatOps.Prim2SF x with
  | SpecFloat.S754_zero _ => Fin 0 0
  | SpecFloat.S754_infinity s => Inf s
  | SpecFloat.S754_nan => NaN
  | SpecFloat.S754_finite s m e => Fin (if s then Z.neg m else Z.pos m) e
  end.

Definition prim_of_Z (n : Z) : PrimFloat.float :=
  PrimFloat.of_uint63 (Uint63.of_Z n).

(** ** Unicode character classes

    The classes the [re] module consults for [\d], [\s] and [\b], as ranges
    of code points: the decimal digits (category Nd), the white space
    ([str.isspace]) and the word characters, which are the alphanumeric
    characters ([str.isalnum]: the letters and the decimal, digit and
    numeric characters of every script) and the underscore.  The tables are
    those of version 14.0 of the Unicode database; an interpreter with a
    later version of the database may have further characters among the
    digits and the word characters. *)

Definition in_ranges (c : char) (rs : list (Z * Z)) : bool :=
  existsb (fun r => (fst r <=? c) && (c <=? snd r)) rs.

Definition decimal_ranges : list (Z * Z) :=
  [(0x30, 0x39); (0x660, 0x669); (0x6F0, 0x6F9); (0x7C0, 0x7C9);
   (0x966, 0x96F); (0x9E6, 0x9EF); (0xA66, 0xA6F); (0xAE6, 0xAEF);
   (0xB66, 0xB6F); (0xBE6, 0xBEF); (0xC66, 0xC6F); (0xCE6, 0xCEF);
   (0xD66, 0xD6F); (0xDE6, 0xDEF); (0xE50, 0xE59); (0xED0, 0xED9);
   (0xF20, 0xF29); (0x1040, 0x1049); (0x1090, 0x1099); (0x17E0, 0x17E9);
   (0x1810, 0x1819); (0x1946, 0x194F); (0x19D0, 0x19D9); (0x1A80, 0x1A89);
   (0x1A90, 0x1A99); (0x1B50, 0x1B59); (0x1BB0, 0x1BB9); (0x1C40, 0x1C49);
   (0x1C50, 0x1C59); (0xA620, 0xA629); (0xA8D0, 0xA8D9); (0xA900, 0xA909);
   (0xA9D0, 0xA9D9); (0xA9F0, 0xA9F9); (0xAA50, 0xAA59); (0xABF0, 0xABF9);
   (0xFF10, 0xFF19); (0x104A0, 0x104A9); (0x10D30, 0x10D39);
   (0x11066, 0x1106F); (0x110F0, 0x110F9); (0x11136, 0x1113F);
   (0x111D0, 0x111D9); (0x112F0, 0x112F9); (0x11450, 0x11459);
   (0x114D0, 0x114D9); (0x11650, 0x11659); (0x116C0, 0x116C9);
   (0x11730, 0x11739); (0x118E0, 0x118E9); (0x11950, 0x11959);
   (0x11C50, 0x11C59); (0x11D50, 0x11D59); (0x11DA0, 0x11DA9);
   (0x16A60, 0x16A69); (0x16AC0, 0x16AC9); (0x16B50, 0x16B59);
   (0x1D7CE, 0x1D7FF); (0x1E140, 0x1E149); (0x1E2F0, 0x1E2F9);
   (0x1E950, 0x1E959); (0x1FBF0, 0x1FBF9)].

Definition space_ranges : list (Z * Z) :=
  [(0x9, 0xD); (0x1C, 0x20); (0x85, 0x85); (0xA0, 0xA0);
   (0x1680, 0x1680); (0x2000, 0x200A); (0x2028, 0x2029); (0x202F, 0x202F);
   (0x205F, 0x205F); (0x3000, 0x3000)].

Definition word_ranges : list (Z * Z) :=
  [(0x30, 0x39); (0x41, 0x5A); (0x5F, 0x5F); (0x61, 0x7A); (0xAA, 0xAA);
   (0xB2, 0xB3); (0xB5, 0xB5); (0xB9, 0xBA); (0xBC, 0xBE); (0xC0, 0xD6);
   (0xD8, 0xF6); (0xF8, 0x2C1); (0x2C6, 0x2D1); (0x2E0, 0x2E4);
   (0x2EC, 0x2EC); (0x2EE, 0x2EE); (0x370, 0x374); (0x376, 0x377);
   (0x37A, 0x37D); (0x37F, 0x37F); (0x386, 0x386); (0x388, 0x38A);
   (0x38C, 0x38C); (0x38E, 0x3A1); (0x3A3, 0x3F5); (0x3F7, 0x481);
   (0x48A, 0x52F); (0x531, 0x556); (0x559, 0x559); (0x560, 0x588);
   (0x5D0, 0x5EA); (0x5EF, 0x5F2); (0x620, 0x64A); (0x660, 0x669);
   (0x66E, 0x66F); (0x671, 0x6D3); (0x6D5, 0x6D5); (0x6E5, 0x6E6);
   (0x6EE, 0x6FC); (0x6FF, 0x6FF); (0x710, 0x710); (0x712, 0x72F);
   (0x74D, 0x7A5); (0x7B1, 0x7B1); (0x7C0, 0x7EA); (0x7F4, 0x7F5);
   (0x7FA, 0x7FA); (0x800, 0x815); (0x81A, 0x81A); (0x824, 0x824);
   (0x828, 0x828); (0x840, 0x858); (0x860, 0x86A); (0x870, 0x887);
   (0x889, 0x88E); (0x8A0, 0x8C9); (0x904, 0x939); (0x93D, 0x93D);
   (0x950, 0x950); (0x958, 0x961); (0x966, 0x96F); (0x971, 0x980);
   (0x985, 0x98C); (0x98F, 0x990); (0x993, 0x9A8); (0x9AA, 0x9B0);
   (0x9B2, 0x9B2); (0x9B6, 0x9B9); (0x9BD, 0x9BD); (0x9CE, 0x9CE);
   (0x9DC, 0x9DD); (0x9DF, 0x9E1); (0x9E6, 0x9F1); (0x9F4, 0x9F9);
   (0x9FC, 0x9FC); (0xA05, 0xA0A); (0xA0F, 0xA10); (0xA13, 0xA28);
   (0xA2A, 0xA30); (0xA32, 0xA33); (0xA35, 0xA36); (0xA38, 0xA39);
   (0xA59, 0xA5C); (0xA5E, 0xA5E); (0xA66, 0xA6F); (0xA72, 0xA74);
   (0xA85, 0xA8D); (0xA8F, 0xA91); (0xA93, 0xAA8); (0xAAA, 0xAB0);
   (0xAB2, 0xAB3); (0xAB5, 0xAB9); (0xABD, 0xABD); (0xAD0, 0xAD0);
   (0xAE0, 0xAE1); (0xAE6, 0xAEF); (0xAF9, 0xAF9); (0xB05, 0xB0C);
   (0xB0F, 0xB10); (0xB13, 0xB28); (0xB2A, 0xB30); (0xB32, 0xB33);
   (0xB35, 0xB39); (0xB3D, 0xB3D); (0xB5C, 0xB5D); (0xB5F, 0xB61);
   (0xB66, 0xB6F); (0xB71, 0xB77); (0xB83, 0xB83); (0xB85, 0xB8A);
   (0xB8E, 0xB90); (0xB92, 0xB95); (0xB99, 0xB9A); (0xB9C, 0xB9C);
   (0xB9E, 0xB9F); (0xBA3, 0xBA4); (0xBA8, 0xBAA); (0xBAE, 0xBB9);
   (0xBD0, 0xBD0); (0xBE6, 0xBF2); (0xC05, 0xC0C); (0xC0E, 0xC10);
   (0xC12, 0xC28); (0xC2A, 0xC39); (0xC3D, 0xC3D); (0xC58, 0xC5A);
   (0xC5D, 0xC5D); (0xC60, 0xC61); (0xC66, 0xC6F); (0xC78, 0xC7E);
   (0xC80, 0xC80); (0xC85, 0xC8C); (0xC8E, 0xC90); (0xC92, 0xCA8);
   (0xCAA, 0xCB3); (0xCB5, 0xCB9); (0xCBD, 0xCBD); (0xCDD, 0xCDE);
   (0xCE0, 0xCE1); (0xCE6, 0xCEF); (0xCF1, 0xCF2); (0xD04, 0xD0C);
   (0xD0E, 0xD10); (0xD12, 0xD3A); (0xD3D, 0xD3D); (0xD4E, 0xD4E);
   (0xD54, 0xD56); (0xD58, 0xD61); (0xD66, 0xD78); (0xD7A, 0xD7F);
   (0xD85, 0xD96); (0xD9A, 0xDB1); (0xDB3, 0xDBB); (0xDBD, 0xDBD);
   (0xDC0, 0xDC6); (0xDE6, 0xDEF); (0xE01, 0xE30); (0xE32, 0xE33);
   (0xE40, 0xE46); (0xE50, 0xE59); (0xE81, 0xE82); (0xE84, 0xE84);
   (0xE86, 0xE8A); (0xE8C, 0xEA3); (0xEA5, 0xEA5); (0xEA7, 0xEB0);
   (0xEB2, 0xEB3); (0xEBD, 0xEBD); (0xEC0, 0xEC4); (0xEC6, 0xEC6);
   (0xED0, 0xED9); (0xEDC, 0xEDF); (0xF00, 0xF00); (0xF20, 0xF33);
   (0xF40, 0xF47); (0xF49, 0xF6C); (0xF88, 0xF8C); (0x1000, 0x102A);
   (0x103F, 0x1049); (0x1050, 0x1055); (0x105A, 0x105D); (0x1061, 0x1061);
   (0x1065, 0x1066); (0x106E, 0x1070); (0x1075, 0x1081); (0x108E, 0x108E);
   (0x1090, 0x1099); (0x10A0, 0x10C5); (0x10C7, 0x10C7); (0x10CD, 0x10CD);
   (0x10D0, 0x10FA); (0x10FC, 0x1248); (0x124A, 0x124D); (0x1250, 0x1256);
   (0x1258, 0x1258); (0x125A, 0x125D); (0x1260, 0x1288); (0x128A, 0x128D);
   (0x1290, 0x12B0); (0x12B2, 0x12B5); (0x12B8, 0x12BE); (0x12C0, 0x12C0);
   (0x12C2, 0x12C5); (0x12C8, 0x12D6); (0x12D8, 0x1310); (0x1312, 0x1315);
   (0x1318, 0x135A); (0x1369, 0x137C); (0x1380, 0x138F); (0x13A0, 0x13F5);
   (0x13F8, 0x13FD); (0x1401, 0x166C); (0x166F, 0x167F); (0x1681, 0x169A);
   (0x16A0, 0x16EA); (0x16EE, 0x16F8); (0x1700, 0x1711); (0x171F, 0x1731);
   (0x1740, 0x1751); (0x1760, 0x176C); (0x176E, 0x1770); (0x1780, 0x17B3);
   (0x17D7, 0x17D7); (0x17DC, 0x17DC); (0x17E0, 0x17E9); (0x17F0, 0x17F9);
   (0x1810, 0x1819); (0x1820, 0x1878); (0x1880, 0x1884); (0x1887, 0x18A8);
   (0x18AA, 0x18AA); (0x18B0, 0x18F5); (0x1900, 0x191E); (0x1946, 0x196D);
   (0x1970, 0x1974); (0x1980, 0x19AB); (0x19B0, 0x19C9); (0x19D0, 0x19DA);
   (0x1A00, 0x1A16); (0x1A20, 0x1A54); (0x1A80, 0x1A89); (0x1A90, 0x1A99);
   (0x1AA7, 0x1AA7); (0x1B05, 0x1B33); (0x1B45, 0x1B4C); (0x1B50, 0x1B59);
   (0x1B83, 0x1BA0); (0x1BAE, 0x1BE5); (0x1C00, 0x1C23); (0x1C40, 0x1C49);
   (0x1C4D, 0x1C7D); (0x1C80, 0x1C88); (0x1C90, 0x1CBA); (0x1CBD, 0x1CBF);
   (0x1CE9, 0x1CEC); (0x1CEE, 0x1CF3); (0x1CF5, 0x1CF6); (0x1CFA, 0x1CFA);
   (0x1D00, 0x1DBF); (0x1E00, 0x1F15); (0x1F18, 0x1F1D); (0x1F20, 0x1F45);
   (0x1F48, 0x1F4D); (0x1F50, 0x1F57); (0x1F59, 0x1F59); (0x1F5B, 0x1F5B);
   (0x1F5D, 0x1F5D); (0x1F5F, 0x1F7D); (0x1F80, 0x1FB4); (0x1FB6, 0x1FBC);
   (0x1FBE, 0x1FBE); (0x1FC2, 0x1FC4); (0x1FC6, 0x1FCC); (0x1FD0, 0x1FD3);
   (0x1FD6, 0x1FDB); (0x1FE0, 0x1FEC); (0x1FF2, 0x1FF4); (0x1FF6, 0x1FFC);
   (0x2070, 0x2071); (0x2074, 0x2079); (0x207F, 0x2089); (0x2090, 0x209C);
   (0x2102, 0x2102); (0x2107, 0x2107); (0x210A, 0x2113); (0x2115, 0x2115);
   (0x2119, 0x211D); (0x2124, 0x2124); (0x2126, 0x2126); (0x2128, 0x2128);
   (0x212A, 0x212D); (0x212F, 0x2139); (0x213C, 0x213F); (0x2145, 0x2149);
   (0x214E, 0x214E); (0x2150, 0x2189); (0x2460, 0x249B); (0x24EA, 0x24FF);
   (0x2776, 0x2793); (0x2C00, 0x2CE4); (0x2CEB, 0x2CEE); (0x2CF2, 0x2CF3);
   (0x2CFD, 0x2CFD); (0x2D00, 0x2D25); (0x2D27, 0x2D27); (0x2D2D, 0x2D2D);
   (0x2D30, 0x2D67); (0x2D6F, 0x2D6F); (0x2D80, 0x2D96); (0x2DA0, 0x2DA6);
   (0x2DA8, 0x2DAE); (0x2DB0, 0x2DB6); (0x2DB8, 0x2DBE); (0x2DC0, 0x2DC6);
   (0x2DC8, 0x2DCE); (0x2DD0, 0x2DD6); (0x2DD8, 0x2DDE); (0x2E2F, 0x2E2F);
   (0x3005, 0x3007); (0x3021, 0x3029); (0x3031, 0x3035); (0x3038, 0x303C);
   (0x3041, 0x3096); (0x309D, 0x309F); (0x30A1, 0x30FA); (0x30FC, 0x30FF);
   (0x3105, 0x312F); (0x3131, 0x318E); (0x3192, 0x3195); (0x31A0, 0x31BF);
   (0x31F0, 0x31FF); (0x3220, 0x3229); (0x3248, 0x324F); (0x3251, 0x325F);
   (0x3280, 0x3289); (0x32B1, 0x32BF); (0x3400, 0x4DBF); (0x4E00, 0xA48C);
   (0xA4D0, 0xA4FD); (0xA500, 0xA60C); (0xA610, 0xA62B); (0xA640, 0xA66E);
   (0xA67F, 0xA69D); (0xA6A0, 0xA6EF); (0xA717, 0xA71F); (0xA722, 0xA788);
   (0xA78B, 0xA7CA); (0xA7D0, 0xA7D1); (0xA7D3, 0xA7D3); (0xA7D5, 0xA7D9);
   (0xA7F2, 0xA801); (0xA803, 0xA805); (0xA807, 0xA80A); (0xA80C, 0xA822);
   (0xA830, 0xA835); (0xA840, 0xA873); (0xA882, 0xA8B3); (0xA8D0, 0xA8D9);
   (0xA8F2, 0xA8F7); (0xA8FB, 0xA8FB); (0xA8FD, 0xA8FE); (0xA900, 0xA925);
   (0xA930, 0xA946); (0xA960, 0xA97C); (0xA984, 0xA9B2); (0xA9CF, 0xA9D9);
   (0xA9E0, 0xA9E4); (0xA9E6, 0xA9FE); (0xAA00, 0xAA28); (0xAA40, 0xAA42);
   (0xAA44, 0xAA4B); (0xAA50, 0xAA59); (0xAA60, 0xAA76); (0xAA7A, 0xAA7A);
   (0xAA7E, 0xAAAF); (0xAAB1, 0xAAB1); (0xAAB5, 0xAAB6); (0xAAB9, 0xAABD);
   (0xAAC0, 0xAAC0); (0xAAC2, 0xAAC2); (0xAADB, 0xAADD); (0xAAE0, 0xAAEA);
   (0xAAF2, 0xAAF4); (0xAB01, 0xAB06); (0xAB09, 0xAB0E); (0xAB11, 0xAB16);
   (0xAB20, 0xAB26); (0xAB28, 0xAB2E); (0xAB30, 0xAB5A); (0xAB5C, 0xAB69);
   (0xAB70, 0xABE2); (0xABF0, 0xABF9); (0xAC00, 0xD7A3); (0xD7B0, 0xD7C6);
   (0xD7CB, 0xD7FB); (0xF900, 0xFA6D); (0xFA70, 0xFAD9); (0xFB00, 0xFB06);
   (0xFB13, 0xFB17); (0xFB1D, 0xFB1D); (0xFB1F, 0xFB28); (0xFB2A, 0xFB36);
   (0xFB38, 0xFB3C); (0xFB3E, 0xFB3E); (0xFB40, 0xFB41); (0xFB43, 0xFB44);
   (0xFB46, 0xFBB1); (0xFBD3, 0xFD3D); (0xFD50, 0xFD8F); (0xFD92, 0xFDC7);
   (0xFDF0, 0xFDFB); (0xFE70, 0xFE74); (0xFE76, 0xFEFC); (0xFF10, 0xFF19);
   (0xFF21, 0xFF3A); (0xFF41, 0xFF5A); (0xFF66, 0xFFBE); (0xFFC2, 0xFFC7);
   (0xFFCA, 0xFFCF); (0xFFD2, 0xFFD7); (0xFFDA, 0xFFDC); (0x10000, 0x1000B);
   (0x1000D, 0x10026); (0x10028, 0x1003A); (0x1003C, 0x1003D);
   (0x1003F, 0x1004D); (0x10050, 0x1005D); (0x10080, 0x100FA);
   (0x10107, 0x10133); (0x10140, 0x10178); (0x1018A, 0x1018B);
   (0x10280, 0x1029C); (0x102A0, 0x102D0); (0x102E1, 0x102FB);
   (0x10300, 0x10323); (0x1032D, 0x1034A); (0x10350, 0x10375);
   (0x10380, 0x1039D); (0x103A0, 0x103C3); (0x103C8, 0x103CF);
   (0x103D1, 0x103D5); (0x10400, 0x1049D); (0x104A0, 0x104A9);
   (0x104B0, 0x104D3); (0x104D8, 0x104FB); (0x10500, 0x10527);
   (0x10530, 0x10563); (0x10570, 0x1057A); (0x1057C, 0x1058A);
   (0x1058C, 0x10592); (0x10594, 0x10595); (0x10597, 0x105A1);
   (0x105A3, 0x105B1); (0x105B3, 0x105B9); (0x105BB, 0x105BC);
   (0x10600, 0x10736); (0x10740, 0x10755); (0x10760, 0x10767);
   (0x10780, 0x10785); (0x10787, 0x107B0); (0x107B2, 0x107BA);
   (0x10800, 0x10805); (0x10808, 0x10808); (0x1080A, 0x10835);
   (0x10837, 0x10838); (0x1083C, 0x1083C); (0x1083F, 0x10855);
   (0x10858, 0x10876); (0x10879, 0x1089E); (0x108A7, 0x108AF);
   (0x108E0, 0x108F2); (0x108F4, 0x108F5); (0x108FB, 0x1091B);
   (0x10920, 0x10939); (0x10980, 0x109B7); (0x109BC, 0x109CF);
   (0x109D2, 0x10A00); (0x10A10, 0x10A13); (0x10A15, 0x10A17);
   (0x10A19, 0x10A35); (0x10A40, 0x10A48); (0x10A60, 0x10A7E);
   (0x10A80, 0x10A9F); (0x10AC0, 0x10AC7); (0x10AC9, 0x10AE4);
   (0x10AEB, 0x10AEF); (0x10B00, 0x10B35); (0x10B40, 0x10B55);
   (0x10B58, 0x10B72); (0x10B78, 0x10B91); (0x10BA9, 0x10BAF);
   (0x10C00, 0x10C48); (0x10C80, 0x10CB2); (0x10CC0, 0x10CF2);
   (0x10CFA, 0x10D23); (0x10D30, 0x10D39); (0x10E60, 0x10E7E);
   (0x10E80, 0x10EA9); (0x10EB0, 0x10EB1); (0x10F00, 0x10F27);
   (0x10F30, 0x10F45); (0x10F51, 0x10F54); (0x10F70, 0x10F81);
   (0x10FB0, 0x10FCB); (0x10FE0, 0x10FF6); (0x11003, 0x11037);
   (0x11052, 0x1106F); (0x11071, 0x11072); (0x11075, 0x11075);
   (0x11083, 0x110AF); (0x110D0, 0x110E8); (0x110F0, 0x110F9);
   (0x11103, 0x11126); (0x11136, 0x1113F); (0x11144, 0x11144);
   (0x11147, 0x11147); (0x11150, 0x11172); (0x11176, 0x11176);
   (0x11183, 0x111B2); (0x111C1, 0x111C4); (0x111D0, 0x111DA);
   (0x111DC, 0x111DC); (0x111E1, 0x111F4); (0x11200, 0x11211);
   (0x11213, 0x1122B); (0x11280, 0x11286); (0x11288, 0x11288);
   (0x1128A, 0x1128D); (0x1128F, 0x1129D); (0x1129F, 0x112A8);
   (0x112B0, 0x112DE); (0x112F0, 0x112F9); (0x11305, 0x1130C);
   (0x1130F, 0x11310); (0x11313, 0x11328); (0x1132A, 0x11330);
   (0x11332, 0x11333); (0x11335, 0x11339); (0x1133D, 0x1133D);
   (0x11350, 0x11350); (0x1135D, 0x11361); (0x11400, 0x11434);
   (0x11447, 0x1144A); (0x11450, 0x11459); (0x1145F, 0x11461);
   (0x11480, 0x114AF); (0x114C4, 0x114C5); (0x114C7, 0x114C7);
   (0x114D0, 0x114D9); (0x11580, 0x115AE); (0x115D8, 0x115DB);
   (0x11600, 0x1162F); (0x11644, 0x11644); (0x11650, 0x11659);
   (0x11680, 0x116AA); (0x116B8, 0x116B8); (0x116C0, 0x116C9);
   (0x11700, 0x1171A); (0x11730, 0x1173B); (0x11740, 0x11746);
   (0x11800, 0x1182B); (0x118A0, 0x118F2); (0x118FF, 0x11906);
   (0x11909, 0x11909); (0x1190C, 0x11913); (0x11915, 0x11916);
   (0x11918, 0x1192F); (0x1193F, 0x1193F); (0x11941, 0x11941);
   (0x11950, 0x11959); (0x119A0, 0x119A7); (0x119AA, 0x119D0);
   (0x119E1, 0x119E1); (0x119E3, 0x119E3); (0x11A00, 0x11A00);
   (0x11A0B, 0x11A32); (0x11A3A, 0x11A3A); (0x11A50, 0x11A50);
   (0x11A5C, 0x11A89); (0x11A9D, 0x11A9D); (0x11AB0, 0x11AF8);
   (0x11C00, 0x11C08); (0x11C0A, 0x11C2E); (0x11C40, 0x11C40);
   (0x11C50, 0x11C6C); (0x11C72, 0x11C8F); (0x11D00, 0x11D06);
   (0x11D08, 0x11D09); (0x11D0B, 0x11D30); (0x11D46, 0x11D46);
   (0x11D50, 0x11D59); (0x11D60, 0x11D65); (0x11D67, 0x11D68);
   (0x11D6A, 0x11D89); (0x11D98, 0x11D98); (0x11DA0, 0x11DA9);
   (0x11EE0, 0x11EF2); (0x11FB0, 0x11FB0); (0x11FC0, 0x11FD4);
   (0x12000, 0x12399); (0x12400, 0x1246E); (0x12480, 0x12543);
   (0x12F90, 0x12FF0); (0x13000, 0x1342E); (0x14400, 0x14646);
   (0x16800, 0x16A38); (0x16A40, 0x16A5E); (0x16A60, 0x16A69);
   (0x16A70, 0x16ABE); (0x16AC0, 0x16AC9); (0x16AD0, 0x16AED);
   (0x16B00, 0x16B2F); (0x16B40, 0x16B43); (0x16B50, 0x16B59);
   (0x16B5B, 0x16B61); (0x16B63, 0x16B77); (0x16B7D, 0x16B8F);
   (0x16E40, 0x16E96); (0x16F00, 0x16F4A); (0x16F50, 0x16F50);
   (0x16F93, 0x16F9F); (0x16FE0, 0x16FE1); (0x16FE3, 0x16FE3);
   (0x17000, 0x187F7); (0x18800, 0x18CD5); (0x18D00, 0x18D08);
   (0x1AFF0, 0x1AFF3); (0x1AFF5, 0x1AFFB); (0x1AFFD, 0x1AFFE);
   (0x1B000, 0x1B122); (0x1B150, 0x1B152); (0x1B164, 0x1B167);
   (0x1B170, 0x1B2FB); (0x1BC00, 0x1BC6A); (0x1BC70, 0x1BC7C);
   (0x1BC80, 0x1BC88); (0x1BC90, 0x1BC99); (0x1D2E0, 0x1D2F3);
   (0x1D360, 0x1D378); (0x1D400, 0x1D454); (0x1D456, 0x1D49C);
   (0x1D49E, 0x1D49F); (0x1D4A2, 0x1D4A2); (0x1D4A5, 0x1D4A6);
   (0x1D4A9, 0x1D4AC); (0x1D4AE, 0x1D4B9); (0x1D4BB, 0x1D4BB);
   (0x1D4BD, 0x1D4C3); (0x1D4C5, 0x1D505); (0x1D507, 0x1D50A);
   (0x1D50D, 0x1D514); (0x1D516, 0x1D51C); (0x1D51E, 0x1D539);
   (0x1D53B, 0x1D53E); (0x1D540, 0x1D544); (0x1D546, 0x1D546);
   (0x1D54A, 0x1D550); (0x1D552, 0x1D6A5); (0x1D6A8, 0x1D6C0);
   (0x1D6C2, 0x1D6DA); (0x1D6DC, 0x1D6FA); (0x1D6FC, 0x1D714);
   (0x1D716, 0x1D734); (0x1D736, 0x1D74E); (0x1D750, 0x1D76E);
   (0x1D770, 0x1D788); (0x1D78A, 0x1D7A8); (0x1D7AA, 0x1D7C2);
   (0x1D7C4, 0x1D7CB); (0x1D7CE, 0x1D7FF); (0x1DF00, 0x1DF1E);
   (0x1E100, 0x1E12C); (0x1E137, 0x1E13D); (0x1E140, 0x1E149);
   (0x1E14E, 0x1E14E); (0x1E290, 0x1E2AD); (0x1E2C0, 0x1E2EB);
   (0x1E2F0, 0x1E2F9); (0x1E7E0, 0x1E7E6); (0x1E7E8, 0x1E7EB);
   (0x1E7ED, 0x1E7EE); (0x1E7F0, 0x1E7FE); (0x1E800, 0x1E8C4);
   (0x1E8C7, 0x1E8CF); (0x1E900, 0x1E943); (0x1E94B, 0x1E94B);
   (0x1E950, 0x1E959); (0x1EC71, 0x1ECAB); (0x1ECAD, 0x1ECAF);
   (0x1ECB1, 0x1ECB4); (0x1ED01, 0x1ED2D); (0x1ED2F, 0x1ED3D);
   (0x1EE00, 0x1EE03); (0x1EE05, 0x1EE1F); (0x1EE21, 0x1EE22);
   (0x1EE24, 0x1EE24); (0x1EE27, 0x1EE27); (0x1EE29, 0x1EE32);
   (0x1EE34, 0x1EE37); (0x1EE39, 0x1EE39); (0x1EE3B, 0x1EE3B);
   (0x1EE42, 0x1EE42); (0x1EE47, 0x1EE47); (0x1EE49, 0x1EE49);
   (0x1EE4B, 0x1EE4B); (0x1EE4D, 0x1EE4F); (0x1EE51, 0x1EE52);
   (0x1EE54, 0x1EE54); (0x1EE57, 0x1EE57); (0x1EE59, 0x1EE59);
   (0x1EE5B, 0x1EE5B); (0x1EE5D, 0x1EE5D); (0x1EE5F, 0x1EE5F);
   (0x1EE61, 0x1EE62); (0x1EE64, 0x1EE64); (0x1EE67, 0x1EE6A);
   (0x1EE6C, 0x1EE72); (0x1EE74, 0x1EE77); (0x1EE79, 0x1EE7C);
   (0x1EE7E, 0x1EE7E); (0x1EE80, 0x1EE89); (0x1EE8B, 0x1EE9B);
   (0x1EEA1, 0x1EEA3); (0x1EEA5, 0x1EEA9); (0x1EEAB, 0x1EEBB);
   (0x1F100, 0x1F10C); (0x1FBF0, 0x1FBF9); (0x20000, 0x2A6DF);
   (0x2A700, 0x2B738); (0x2B740, 0x2B81D); (0x2B820, 0x2CEA1);
   (0x2CEB0, 0x2EBE0); (0x2F800, 0x2FA1D); (0x30000, 0x3134A)].

(** [\d]: a decimal digit. *)
Definition is_digit (c : char) : bool := in_ranges c decimal_ranges.

(** The value of a decimal digit (the digits of a script are consecutive,
    starting from its zero). *)
Definition digit_value (c : char) : Z :=
  match find (fun r => (fst r <=? c) && (c <=? snd r)) decimal_ranges with
  | Some r => (c - fst r) mod 10
  | None => 0
  end.

(** [\s]: white space. *)
Definition is_space (c : char) : bool := in_ranges c space_ranges.

(** [\w]: alphanumeric or underscore. *)
Definition is_word (c : char) : bool := in_ranges c word_ranges.

(** Case folding under [re.IGNORECASE]: the ASCII letters, and the four
    characters that lower- or upper-case to an ASCII letter. *)
Definition fold_case (c : char) : char :=
  if (0x41 <=? c) && (c <=? 0x5A) then c + 32
  else if (c =? 0x130) || (c =? 0x131) then 0x69
  else if c =? 0x17F then 0x73
  else if c =? 0x212A then 0x6B
  else c.

Definition ascii_upper (c : char) : char :=
  if (0x61 <=? c) && (c <=? 0x7A) then c - 32 else c.

(** ** Regular expressions

    The fragment of [re] that the classifier's patterns are written in, all
    of them compiled with [re.IGNORECASE].  Matching is by backtracking with
    the priorities of [re]: alternatives left to right, quantifiers greedy. *)

Inductive atom :=
| AChar (c : char)               (* a literal character *)
| ADigit                         (* \d *)
| ASpace                         (* \s *)
| ASet (rs : list (Z * Z)).      (* [...] given by its ranges *)

Inductive regex :=
| REps                                            (* the empty pattern *)
| RAtom (a : atom)
| RSeq (r1 r2 : regex)                            (* r1 r2 *)
| RAlt (r1 r2 : regex)                            (* r1|r2 *)
| ROpt (r : regex)                                (* (?:r)? *)
| RRep (a : atom) (lo : nat) (hi : option nat)    (* a{lo,hi}; hi absent: no bound *)
| RWordB.                                         (* \b *)

Definition atom_match (a : atom) (c : char) : bool :=
  match a with
  | AChar p => fold_case c =? fold_case p
  | ADigit => is_digit c
  | ASpace => is_space c
  | ASet rs =>
      in_ranges c rs || in_ranges (fold_case c) rs
      || in_ranges (ascii_upper (fold_case c)) rs
  end.

(** [\b] between the character before the position ([prev]) and the rest
    of the subject. *)
Definition at_word_boundary (prev : option char) (s : str) : bool :=
  let before := match prev with Some c => is_word c | None => false end in
  let after := match s with c :: _ => is_word c | [] => false end in
  xorb before after.

Section Matcher.
Context {A : Type}.

(** [a{lo,hi}] at the head of [s], greedy: take as many characters as
    allowed, then give them back one by one until the continuation [k]
    accepts. *)
Fixpoint match_rep (a : atom) (lo : nat) (hi : option nat)
    (prev : option char) (s : str)
    (k : option char -> str -> option A) : option A :=
  let stop := match lo with O => k prev s | S _ => None end in
  match s with
  | c :: s' =>
      if atom_match a c && negb (match hi with Some O => true | _ => false end)
      then
        match match_rep a (Nat.pred lo) (option_map Nat.pred hi) (Some c) s' k with
        | Some x => Some x
        | None => stop
        end
      else stop
  | [] => stop
  end.

(** [rmatch r prev s k]: match [r] at the head of [s] and hand the position
    after the match to [k]; the first success in priority order wins. *)
Fixpoint rmatch (r : regex) (prev : option char) (s : str)
    (k : option char -> str -> option A) : option A :=
  match r with
  | REps => k prev s
  | RAtom a =>
      match s with
      | c :: s' => if atom_match a c then k (Some c) s' else None
      | [] => None
      end
  | RSeq r1 r2 => rmatch r1 prev s (fun p s' => rmatch r2 p s' k)
  | RAlt r1 r2 =>
      match rmatch r1 prev s k with
      | Some x => Some x
      | None => rmatch r2 prev s k
      end
  | ROpt r1 =>
      match rmatch r1 prev s k with
      | Some x => Some x
      | None => k prev s
      end
  | RRep a lo hi => match_rep a lo hi prev s k
  | RWordB => if at_word_boundary prev s then k prev s else None
  end.
End Matcher.

(** Does [r] match at this position? *)
Definition matches_here (r : regex) (prev : option char) (s : str) : bool :=
  match rmatch r prev s (fun _ _ => Some tt) with
  | Some _ => true
  | None => false
  end.

Fixpoint search_from (r : regex) (prev : option char) (s : str) : bool :=
  matches_here r prev s ||
  match s with
  | c :: s' => search_from r (Some c) s'
  | [] => false
  end.

(** [bool(rex.search(t))]. *)
Definition search (r : regex) (t : str) : bool := search_from r None t.

(** A match of [(g)rest] at this position: the text of group 1 and the
    length of the whole match. *)
Definition match_group (g rest : regex) (prev : option char) (s : str)
  : option (str * nat) :=
  rmatch g prev s (fun p1 s1 =>
    rmatch rest p1 s1 (fun _ s2 =>
      Some (firstn (List.length s - List.length s1) s,
            (List.length s - List.length s2)%nat))).

(** [skip] characters are still covered by the previous match. *)
Fixpoint finditer_from (g rest : regex) (prev : option char) (s : str)
    (skip : nat) : list str :=
  match s with
  | [] =>
      match skip, match_group g rest prev [] with
      | O, Some (grp, _) => [grp]
      | _, _ => []
      end
  | c :: s' =>
      match skip with
      | S n => finditer_from g rest (Some c) s' n
      | O =>
          match match_group g rest prev s with
          | Some (grp, len) => grp :: finditer_from g rest (Some c) s' (Nat.pred len)
          | None => finditer_from g rest (Some c) s' O
          end
      end
  end.

(** [[m.group(1) for m in rex.finditer(t)]] for the pattern [(g)rest]: the
    non-overlapping matches from left to right. *)
Definition finditer_group1 (g rest : regex) (t : str) : list str :=
  finditer_from g rest None t O.

(** *** Writing patterns *)

(** A literal word (what [re.escape] makes of it). *)
Definition L (w : string) : regex :=
  fold_right (fun c r => RSeq (RAtom (AChar c)) r) REps (lit w).

(** [r1|r2|...]. *)
Fixpoint alts (rs : list regex) : regex :=
  match rs with
  | [] => REps
  | [r] => r
  | r :: rs' => RAlt r (alts rs')
  end.

(** ["|".join(map(re.escape, words))]. *)
Definition words (ws : list string) : regex := alts (map L ws).

Declare Scope re_scope.
Delimit Scope re_scope with re.
Infix "+>" := RSeq (at level 60, right associativity) : re_scope.
Notation "\b" := RWordB : re_scope.
Notation "\s*" := (RRep ASpace 0 None) : re_scope.
Notation "\d+" := (RRep ADigit 1 None) : re_scope.
Notation "\d{ lo , hi }" := (RRep ADigit lo%nat (Some hi%nat)) : re_scope.
Notation "\d{ lo ,}" := (RRep ADigit lo%nat None) : re_scope.
Notation "\d{ n }" := (RRep ADigit n%nat (Some n%nat)) : re_scope.

(** ** Python dictionaries (insertion ordered) *)

Module PyDict.
Section Dict.
Context {V : Type}.

Definition t := list (string * V).

(** [d.get(k)] / [k in d]. *)
Fixpoint get (k : string) (d : t) : option V :=
  match d with
  | [] => None
  | (k', v) :: d' => if String.eqb k k' then Some v else get k d'
  end.

(** [d[k] = v]: an existing key keeps its position, a new key goes last. *)
Fixpoint set (k : string) (v : V) (d : t) : t :=
  match d with
  | [] => [(k, v)]
  | (k', v') :: d' =>
      if String.eqb k k' then (k', v) :: d' else (k', v') :: set k v d'
  end.

(** [list(d.values())]. *)
Definition values (d : t) : list V := map snd d.

Definition keys (d : t) : list string := map fst d.
End Dict.
Arguments t : clear implicits.
End PyDict.

(** ** Rows *)

(** One scraped row (the [dict] built per item in [run_scrape_one]).  The
    columns that no later stage inspects ([url], capacities, form, interface)
    are carried unchanged by the program and are left out. *)
Record row := mkRow {
  asin        : string;
  title       : str;
  price_yen   : option Z;
  sponsored   : Z;
  brand_guess : string;
  category    : string;
  reason      : string
}.

(** ** Retrieval ([fetch_html], lines 411-440) *)

(** What one call of [_SESSION.get] does: it returns a response, or raises
    [requests.HTTPError] (with or without a response attached), or raises
    some other exception (connection failure, timeout, ...). *)
Inductive get_outcome :=
| Returns (resp : response)
| GetRaisesHTTPError (resp : option response)
| GetRaises (name : string).

(** What the caller can observe of a run besides its result: the sleeps
    ([sleep_with_jitter(wait, 0.0)], a sleep of [wait] seconds) and the
    requests, numbered as the loop numbers them. *)
Inductive event :=
| Sleep (sec : Z)
| Get (attempt : nat).

(** [code in (408, 429, 503, 504)]. *)
Definition retry_status (code : Z) : bool :=
  (code =? 408) || (code =? 429) || (code =? 503) || (code =? 504).

(** [resp.raise_for_status()] of the requests library raises for the client
    and server error statuses. *)
Definition raise_for_status (resp : response) : result unit :=
  if (400 <=? status_code resp) && (status_code resp <? 600)
  then Raise (HTTPError (Some resp)) else Ok tt.

(** The [for i, wait in enumerate(sleep_retry, start=1)] loop; [world i] is
    the outcome of the request of attempt [i]. *)
Fixpoint fetch_loop (world : nat -> get_outcome) (i : nat) (sleep_retry : list Z)
    (last_err : option exn) (tr : list event) : list event * result str :=
  match sleep_retry with
  | [] =>
      (tr, match last_err with
           | Some e => Raise e
           | None => Raise TypeError
           end)
  | wait :: rest =>
      let tr := if wait =? 0 then tr else tr ++ [Sleep wait] in
      let tr := tr ++ [Get i] in
      match world i with
      | Returns resp =>
          if retry_status (status_code resp) then
            fetch_loop world (S i) rest (Some (HTTPError (Some resp))) tr
          else
            match raise_for_status resp with
            | Ok _ => (tr, Ok (text resp))
            | Raise e =>
                (* except requests.HTTPError as e *)
                if retry_status (status_code resp)
                then fetch_loop world (S i) rest (Some e) tr
                else (tr, Raise e)
            end
      | GetRaisesHTTPError r =>
          let code := match r with Some resp => status_code resp | None => 0 end in
          if retry_status code
          then fetch_loop world (S i) rest (Some (HTTPError r)) tr
          else (tr, Raise (HTTPError r))
      | GetRaises name =>
          fetch_loop world (S i) rest (Some (OtherException name)) tr
      end
  end.

Definition fetch_html (world : nat -> get_outcome) (sleep_retry : list Z)
  : list event * result str :=
  fetch_loop world 1%nat sleep_retry None [].

(** The default [sleep_retry=(0, 2, 5, 9)]. *)
Definition default_sleep_retry : list Z := [0; 2; 5; 9].

(** *** Notions used to state the retry policy *)

(** The policy in the words of the specification: a response with status
    408/429/503/504 and any exception other than an HTTP error are failures
    to retry; any other HTTP error is a failure that aborts; anything else
    is a success. *)
Inductive verdict :=
| Success (body : str)
| Retryable (failure : exn)
| Fatal (failure : exn).

Definition judge (o : get_outcome) : verdict :=
  match o with
  | Returns resp =>
      if retry_status (status_code resp) then Retryable (HTTPError (Some resp))
      else if (400 <=? status_code resp) && (status_code resp <? 600)
           then Fatal (HTTPError (Some resp))
           else Success (text resp)
  | GetRaisesHTTPError (Some resp) =>
      if retry_status (status_code resp) then Retryable (HTTPError (Some resp))
      else Fatal (HTTPError (Some resp))
  | GetRaisesHTTPError None => Fatal (HTTPError None)
  | GetRaises name => Retryable (OtherException name)
  end.

Definition is_retryable (o : get_outcome) : Prop :=
  exists f, judge o = Retryable f.

(** The sleeps and requests of a run that makes all four attempts. *)
Definition full_schedule : list event :=
  [Get 1; Sleep 2; Get 2; Sleep 5; Get 3; Sleep 9; Get 4].

(** *** The retry policy over the statuses themselves *)

(** The status a request reports: that of the response returned, or of the
    response attached to the [HTTPError] raised. *)
Definition reported_status (o : get_outcome) : option Z :=
  match o with
  | Returns resp => Some (status_code resp)
  | GetRaisesHTTPError (Some resp) => Some (status_code resp)
  | GetRaisesHTTPError None => None
  | GetRaises _ => None
  end.

(** A transport-level failure: the request raised something that is not an
    HTTP error. *)
Definition transport_failure (o : get_outcome) : Prop :=
  exists name, o = GetRaises name.

(** An HTTP error: the request raised [HTTPError], or it returned a response
    with a client or server error status (400 to 599). *)
Definition http_error (o : get_outcome) : Prop :=
  match o with
  | Returns resp => 400 <= status_code resp < 600
  | GetRaisesHTTPError _ => True
  | GetRaises _ => False
  end.

(** The exception a failed request leaves behind. *)
Definition failure_of (o : get_outcome) : exn :=
  match o with
  | Returns resp => HTTPError (Some resp)
  | GetRaisesHTTPError r => HTTPError r
  | GetRaises name => OtherException name
  end.

(** The request succeeded with text [body]. *)
Definition succeeds_with (o : get_outcome) (body : str) : Prop :=
  exists resp,
    o = Returns resp /\ ~ (400 <= status_code resp < 600) /\ body = text resp.

(** A failure that is retried, given the statuses to retry on: a transport
    failure, or one of these statuses reported. *)
Definition retried_on (statuses : list Z) (o : get_outcome) : Prop :=
  transport_failure o \/
  exists code, reported_status o = Some code /\ In code statuses.

(** A failure that aborts the run: an HTTP error that reports none of the
    statuses to retry on. *)
Definition aborts_on (statuses : list Z) (o : get_outcome) : Prop :=
  http_error o /\
  forall code, reported_status o = Some code -> ~ In code statuses.

(** ** Built-ins on sequences *)

(** [len(set(xs))] for an equality test [eqb]. *)
Fixpoint py_set_size {A} (eqb : A -> A -> bool) (xs : list A) : nat :=
  match xs with
  | [] => O
  | x :: xs' =>
      if existsb (eqb x) xs' then py_set_size eqb xs'
      else S (py_set_size eqb xs')
  end.

(** [max(xs)] of a non-empty list of [int]s. *)
Definition py_max (x : Z) (xs : list Z) : Z := fold_left Z.max xs x.

(** [min(xs)] of a non-empty list of [int]s. *)
Definition py_min (x : Z) (xs : list Z) : Z := fold_left Z.min xs x.

(** [int(s)] and [float(s)] for the numerals the patterns can capture: a
    run of decimal digits, and for [float] an optional fraction.  Any other
    text raises [ValueError]. *)
Fixpoint digits_value (acc : Z) (s : str) : option Z :=
  match s with
  | [] => Some acc
  | c :: s' =>
      if is_digit c then digits_value (10 * acc + digit_value c) s' else None
  end.

Definition py_int_of_str (s : str) : result Z :=
  match s, digits_value 0 s with
  | _ :: _, Some n => Ok n
  | _, _ => Raise ValueError
  end.

(** The text before the first ["."], and the text after it if there is one. *)
Fixpoint split_at_dot (s : str) : str * option str :=
  match s with
  | [] => ([], None)
  | c :: s' =>
      if c =? 0x2E then ([], Some s')
      else let '(a, b) := split_at_dot s' in (c :: a, b)
  end.

Definition py_float_of_str (s : str) : result float64 :=
  match split_at_dot s with
  | (ip, None) =>
      n <- py_int_of_str ip ;; Ok (float_of_decimal n 0)
  | (ip, Some fp) =>
      n <- py_int_of_str ip ;;
      f <- py_int_of_str fp ;;
      Ok (float_of_decimal (n * 10 ^ Z.of_nat (List.length fp) + f)
                           (Z.of_nat (List.length fp)))
  end.

(** [for m in ...: try: xs.append(conv(m.group(1))) except Exception: pass]. *)
Definition collect {A} (conv : str -> result A) (groups : list str) : list A :=
  fold_left (fun xs g => match conv g with
                         | Ok x => xs ++ [x]
                         | Raise _ => xs
                         end) groups [].

(** ** Capacity extraction (lines 371-372, 534-553) *)

(** [TB_RE = (\d+(?:\.\d+)?)\s*TB]: group 1 and what follows it. *)
Definition TB_RE_group : regex := (\d+ +> ROpt (L "." +> \d+))%re.
Definition TB_RE_rest : regex := (\s* +> L "TB")%re.

(** [GB_RE = (\d{2,5})\s*GB]. *)
Definition GB_RE_group : regex := (\d{2,5})%re.
Definition GB_RE_rest : regex := (\s* +> L "GB")%re.

Definition extract_capacity_gb_tb (title : str)
  : result (option Z * option float64 * list Z * list float64) :=
  let tbs := collect py_float_of_str (finditer_group1 TB_RE_group TB_RE_rest title) in
  let gbs := collect py_int_of_str (finditer_group1 GB_RE_group GB_RE_rest title) in
  match tbs with
  | [] =>
      let primary_gb := match gbs with
                        | [] => None
                        | g :: gs => Some (py_max g gs)
                        end in
      Ok (primary_gb, None, gbs, tbs)
  | primary_tb :: _ =>
      primary_gb <- py_round (fmul primary_tb (Fin 1024 0)) ;;
      Ok (Some primary_gb, Some primary_tb, gbs, tbs)
  end.

(** ** The SSD classifier (lines 174-201, 221-251, 599-699) *)

Open Scope string_scope.

Definition SSD_BRAND_DEFS : list (string * regex) :=
  [("Samsung",         alts [(\b +> L "Samsung" +> \b)%re; L "サムスン"]);
   ("Western Digital", alts [(L "Western" +> \s* +> L "Digital")%re;
                             (\b +> L "WD" +> \b)%re]);
   ("SanDisk",         alts [L "SanDisk"; L "サンディスク"]);
   ("Crucial",         alts [L "Crucial"; L "クルーシャル"]);
   ("Micron",          (\b +> L "Micron" +> \b)%re);
   ("Kingston",        alts [L "Kingston"; L "キングストン"]);
   ("SK hynix",        alts [(L "SK" +> \s* +> L "hynix")%re; L "SKhynix";
                             L "エスケーハイニックス"]);
   ("KIOXIA",          alts [L "KIOXIA"; L "キオクシア"]);
   ("Toshiba",         alts [L "TOSHIBA"; L "東芝"]);
   ("Seagate",         alts [L "Seagate"; L "シーゲイト"; L "FireCuda"]);
   ("Solidigm",        L "Solidigm");
   ("Intel",           (\b +> L "Intel" +> \b)%re);
   ("Corsair",         alts [L "Corsair"; L "コルセア"]);
   ("ADATA",           (\b +> L "ADATA" +> \b)%re);
   ("Team",            alts [(L "Team" +> ROpt (L "Group"))%re;
                             (L "Team" +> \s* +> L "Group")%re; L "チーム"]);
   ("Silicon Power",   (L "Silicon" +> \s* +> L "Power")%re);
   ("Patriot",         L "Patriot");
   ("Transcend",       alts [L "Transcend"; L "トランセンド"]);
   ("Sabrent",         L "Sabrent");
   ("PNY",             (\b +> L "PNY" +> \b)%re);
   ("Lexar",           L "Lexar");
   ("GIGABYTE",        L "GIGABYTE");
   ("MSI",             (\b +> L "MSI" +> \b)%re);
   ("BUFFALO",         alts [L "BUFFALO"; L "バッファロー"]);
   ("IODATA",          alts [(L "IO" +> \s* +> L "DATA")%re; L "IODATA";
                             L "アイ・オー"; L "アイオー"]);
   ("ELECOM",          alts [L "ELECOM"; L "エレコム"])].

Definition SSD_ACCESSORY_WORDS : list string :=
  ["ケース"; "エンクロージャ"; "エンクロージャー"; "外付けケース"; "SSDケース"; "SSD ケース";
   "M.2ケース"; "M.2 ケース"; "NVMeケース"; "NVMe ケース"; "USBケース"; "USB ケース";
   "クレードル"; "ドック"; "ドッキング"; "クローン"; "クローンドック"; "クローンスタンド";
   "変換"; "アダプタ"; "アダプター"; "ケーブル"; "SATA-USB"; "USB-SATA"; "NVMe-USB"; "M.2-USB";
   "PCIe変換"; "PCIe 変換"; "変換基板"; "ライザー"; "延長ケーブル";
   "ヒートシンク"; "放熱"; "サーマル"; "熱伝導"; "サーマルパッド"; "冷却";
   "ブラケット"; "マウンタ"; "マウンター"; "トレイ"; "ネジ"; "工具";
   "ドライバー"; "固定"; "両面テープ"; "XBOX"].

Definition SSD_PC_WORDS : list string :=
  ["ノートパソコン"; "ゲーミングPC"; "デスクトップ"; "Mini PC"; "ミニPC"; "ワークステーション";
   "MacBook"; "iMac"; "Mac mini"; "ThinkPad"; "Chromebook"; "NAS本体"; "NAS キット"].

Definition SSD_OTHER_MEDIA_WORDS : list string :=
  ["USBメモリ"; "USBフラッシュ"; "フラッシュドライブ"; "SDカード"; "microSD"; "メモリーカード";
   "CFexpress"; "カードリーダー"; "HDD"; "ハードディスク"; "Blu-ray"; "DVD"].

Definition _SSD_BRANDS : list (string * regex) := SSD_BRAND_DEFS.
Definition _SSD_ACCESSORY_RE : regex := words SSD_ACCESSORY_WORDS.
Definition _SSD_PC_RE : regex := words SSD_PC_WORDS.
Definition _SSD_OTHER_RE : regex := words SSD_OTHER_MEDIA_WORDS.
Definition _SSD_RE : regex :=
  alts [(\b +> L "SSD" +> \b)%re; L "ソリッドステート"; L "Solid State"].

Definition _SSD_IFACE_HINTS : list (string * regex) :=
  [("Thunderbolt", alts [L "Thunderbolt"; L "TB3"; L "TB4"]);
   ("USB",         alts [L "USB"; (L "Type" +> ROpt (L "-") +> L "C")%re; L "UASP"]);
   ("NVMe",        alts [L "NVMe"; L "PCIe";
                         (L "Gen" +> \s* +> RAtom (ASet [(0x33, 0x34)%Z]))%re;
                         L "M.2"]);
   ("SATA",        alts [L "SATA"; (L "Serial" +> \s* +> L "ATA")%re; L "2.5"])].

Definition _SSD_FORM_HINTS : list (string * regex) :=
  [("M.2",      alts [(\b +> L "M.2" +> \b)%re; L "2280"; L "2230"; L "2242"; L "2260"]);
   ("2.5inch",  alts [L "2.5"; L "2.5インチ"; L "7mm"; L "9.5mm"]);
   ("Portable", alts [L "ポータブル"; L "外付け"; L "Portable"; L "External"])].

(** [for name, rex in table: if rex.search(title): return name] and the
    final [return ""]. *)
Fixpoint first_match (table : list (string * regex)) (title : str) : string :=
  match table with
  | [] => ""
  | (name, rex) :: table' =>
      if search rex title then name else first_match table' title
  end.

Definition ssd_guess_brand (title : str) : string := first_match _SSD_BRANDS title.
Definition ssd_extract_iface (title : str) : string := first_match _SSD_IFACE_HINTS title.
Definition ssd_extract_form (title : str) : string := first_match _SSD_FORM_HINTS title.

Definition is_none {A} (o : option A) : bool :=
  match o with None => true | Some _ => false end.

(** The float literal [0.2]. *)
Definition f0_2 : float64 := float_of_decimal 2 1.

(** The float literal [0.10]. *)
Definition f0_10 : float64 := float_of_decimal 1 1.

(** The body of [if capacity_match_enabled and (...)] (lines 667-687):
    [Some] is an early [return], [None] falls through to the sub-type. *)
Definition ssd_capacity_rule (target_gb : option Z) (target_tb : option float64)
    (cap_gb : option Z) (cap_tb : option float64)
    (gb_list : list Z) (tb_list : list float64)
  : result (option (string * string)) :=
  let uniq_tb := py_set_size feqb (map (fun x => py_round_ndigits x 3) tb_list) in
  let uniq_gb := py_set_size Z.eqb gb_list in
  if (1 <? uniq_tb)%nat || ((1 <? uniq_gb)%nat && is_none target_tb)
  then Ok (Some ("other", "multi-capacity listing"))
  else if is_none cap_tb && is_none cap_gb
  then Ok (Some ("other", "no capacity"))
  else
    match target_tb with
    | Some target_tb =>
        match cap_tb with
        | None =>
            match cap_gb with
            | None => Ok (Some ("other", "capacity mismatch"))
            | Some cap_gb =>
                g1024 <- py_round (fmul target_tb (Fin 1024 0)) ;;
                if (80 <? Z.abs (cap_gb - g1024))%Z then
                  g1000 <- py_round (fmul target_tb (Fin 1000 0)) ;;
                  if (80 <? Z.abs (cap_gb - g1000))%Z
                  then Ok (Some ("other", "capacity mismatch"))
                  else Ok None
                else Ok None
            end
        | Some cap_tb =>
            if fgt (fabs (fsub cap_tb target_tb)) f0_2
            then Ok (Some ("other", "capacity mismatch"))
            else Ok None
        end
    | None =>
        match cap_gb with
        | None => Ok (Some ("other", "capacity mismatch"))
        | Some cap_gb =>
            match target_gb with
            | None => Raise TypeError
            | Some target_gb =>
                tenth <- (x <- int_mul_float target_gb f0_10 ;; py_int x) ;;
                if (Z.max 20 tenth <? Z.abs (cap_gb - target_gb))%Z
                then Ok (Some ("other", "capacity mismatch"))
                else Ok None
            end
        end
    end.

(** Lines 689-699: the sub-type of a listing that passed the earlier rules. *)
Definition ssd_subtype (t : str) : string * string :=
  let iface := ssd_extract_iface t in
  let form := ssd_extract_form t in
  if search (alts [L "外付け"; L "ポータブル"; L "Portable"; L "External"]) t
     || String.eqb iface "USB" || String.eqb iface "Thunderbolt"
  then ("drive_external", "external hints")
  else if search (alts [L "NVMe"; L "PCIe"; L "M.2";
                        (L "Gen" +> \s* +> RAtom (ASet [(0x33, 0x34)%Z]))%re]) t
          || String.eqb form "M.2"
  then ("drive_internal_nvme", "nvme/m.2 hints")
  else if search (alts [L "SATA"; L "2.5"; L "2.5インチ";
                        (L "Serial" +> \s* +> L "ATA")%re]) t
          || String.eqb form "2.5inch"
  then ("drive_internal_sata", "sata/2.5 hints")
  else ("drive_internal_sata", "generic ssd").

(** Lines 641-662: the rules that look at keywords only; [Some] is an early
    [return]. *)
Definition ssd_keyword_rules (t : str) : option (string * string) :=
  match t with
  | [] => Some ("other", "empty title")
  | _ :: _ =>
      if search _SSD_ACCESSORY_RE t then Some ("accessory", "accessory keyword")
      else if search _SSD_PC_RE t then Some ("pc_device", "pc/device keyword")
      else
        let other_media :=
          if search _SSD_OTHER_RE t then
            if negb (search _SSD_RE t) then Some ("other", "non-ssd media")
            else if search (words ["USBメモリ"; "SDカード"; "microSD"; "メモリーカード"]) t
            then Some ("other", "usb/sd mixed")
            else if search (alts [(\b +> L "HDD" +> \b)%re; L "ハードディスク"]) t
            then Some ("other", "hdd keyword")
            else None
          else None in
        match other_media with
        | Some verdict => Some verdict
        | None =>
            let ssdish :=
              search _SSD_RE t
              || search (alts [L "NVMe"; L "M.2"; L "PCIe"; L "SATA";
                               L "ソリッドステート"; L "内蔵"; L "外付け"; L "ポータブル"]) t in
            if negb ssdish then Some ("other", "no ssd hints") else None
        end
  end.

Definition ssd_classify (title : str) (target_gb : option Z)
    (target_tb : option float64) (capacity_match_enabled : bool)
  : result (string * string) :=
  let t := title in
  match ssd_keyword_rules t with
  | Some verdict => Ok verdict
  | None =>
      '(cap_gb, cap_tb, gb_list, tb_list) <- extract_capacity_gb_tb t ;;
      early <- (if capacity_match_enabled
                   && (negb (is_none target_tb) || negb (is_none target_gb))
                then ssd_capacity_rule target_gb target_tb cap_gb cap_tb gb_list tb_list
                else Ok None) ;;
      match early with
      | Some verdict => Ok verdict
      | None => Ok (ssd_subtype t)
      end
  end.

Close Scope string_scope.

(** ** The HDD classifier (lines 204-218, 233-257, 706-823) *)

Open Scope string_scope.

Definition HDD_MAKER_DEFS : list (string * regex) :=
  [("Seagate",         alts [L "Seagate"; L "シーゲイト"; L "BarraCuda"; L "IronWolf";
                             L "Exos"; L "SkyHawk"]);
   ("Western Digital", alts [L "Western Digital"; L "ウエスタンデジタル";
                             (\b +> L "WD" +> \b)%re;
                             L "WD Red"; L "WD Blue"; L "WD Black"; L "WD Purple";
                             L "Gold"; L "Ultrastar"]);
   ("Toshiba",         alts [L "TOSHIBA"; L "東芝"; L "N300"; L "X300"; L "P300";
                             (L "MG" +> \d{2})%re; (L "DT" +> \d{2})%re]);
   ("HGST",            alts [(\b +> L "HGST" +> \b)%re; L "Hitachi Global Storage"]);
   ("Hitachi",         alts [(\b +> L "Hitachi" +> \b)%re; L "日立"])].

Definition HDD_EXTRA_BRAND_DEFS : list (string * regex) :=
  [("BUFFALO",         alts [L "BUFFALO"; L "バッファロー"]);
   ("IODATA",          alts [L "IO DATA"; L "IODATA"; L "アイ・オー"; L "アイオー"]);
   ("ELECOM",          alts [L "ELECOM"; L "エレコム"])].

Definition HDD_ACCESSORY_WORDS : list string :=
  ["ケース"; "スタンド"; "ドック"; "ドッキング"; "クローン";
   "エンクロージャ"; "変換"; "アダプタ"; "ケーブル";
   "ブラケット"; "マウンタ"; "トレイ"; "ネジ"; "工具";
   "RAIDケース"; "RAID ケース"; "HDDケース"; "HDD ケース"; "SSDケース"; "SSD ケース";
   "クレードル"; "ハブ"; "USBハブ"; "電源アダプタ"; "XBOX"].

Definition HDD_NAS_DEVICE_WORDS : list string :=
  ["Synology"; "QNAP"; "NASync"; "2ベイ"; "4ベイ"; "5ベイ"; "6ベイ"; "8ベイ";
   "DiskStation"; "TerraMaster"; "Asustor"].

Definition _HDD_MAKERS : list (string * regex) := HDD_MAKER_DEFS.
Definition _HDD_EXTRA : list (string * regex) := HDD_EXTRA_BRAND_DEFS.
Definition _HDD_ACCESSORY_RE : regex := words HDD_ACCESSORY_WORDS.
Definition _HDD_NAS_RE : regex := words HDD_NAS_DEVICE_WORDS.
Definition _HDD_HINT_RE : regex :=
  alts [(\b +> L "HDD" +> \b)%re; L "ハードディスク"; L "ハードドライブ"; L "Hard Drive";
        L "内蔵"; L "外付け"; L "外付"; L "ポータブル"].
Definition _HDD_SSD_RE : regex :=
  alts [(\b +> L "SSD" +> \b)%re; L "ソリッドステート"].

(** [[A-Z0-9]]. *)
Definition alnum_set : atom := ASet [(0x41, 0x5A)%Z; (0x30, 0x39)%Z].

Definition _SEAGATE_MODEL_RE : regex :=
  (\b +> L "ST" +> \d{4,6} +> RRep alnum_set 2 None +> \b)%re.
Definition _WD_MODEL_RE : regex :=
  (\b +> L "WD" +> \d{4,6} +> RRep alnum_set 2 None +> \b)%re.
Definition _TOSHIBA_MODEL_RE : regex :=
  alts [(\b +> L "HDW" +> RRep alnum_set 4 None +> \b)%re;
        (\b +> L "MG" +> \d{2} +> \b)%re;
        (\b +> L "N300" +> \b)%re; (\b +> L "X300" +> \b)%re;
        (\b +> L "P300" +> \b)%re].
Definition _HGST_MODEL_RE : regex :=
  alts [(\b +> L "HUH" +> \d{3,} +> \b)%re; (\b +> L "HUS" +> \d{3,} +> \b)%re].

Definition hdd_guess_brand (title : str) : string :=
  match first_match _HDD_MAKERS title with
  | "" => first_match _HDD_EXTRA title
  | name => name
  end.

Definition hdd_has_drive_model_hint (title : str) : bool :=
  search _SEAGATE_MODEL_RE title || search _WD_MODEL_RE title
  || search _TOSHIBA_MODEL_RE title || search _HGST_MODEL_RE title.

(** [sorted(set(xs))] on floats. *)
Fixpoint insert_uniq (x : float64) (xs : list float64) : list float64 :=
  match xs with
  | [] => [x]
  | y :: ys =>
      if feqb x y then xs
      else if flt x y then x :: xs
      else y :: insert_uniq x ys
  end.

Definition sorted_set (xs : list float64) : list float64 :=
  fold_left (fun acc x => insert_uniq x acc) xs [].

(** [[g / 1024.0 for g in xs]]. *)
Fixpoint div_each_1024 (xs : list float64) : result (list float64) :=
  match xs with
  | [] => Ok []
  | g :: gs =>
      q <- fdiv g (Fin 1024 0) ;;
      qs <- div_each_1024 gs ;;
      Ok (q :: qs)
  end.

(** Lines 803-823. *)
Definition _hdd_extract_capacity_tb (title : str)
  : result (option float64 * list float64) :=
  let tbs := collect py_float_of_str (finditer_group1 TB_RE_group TB_RE_rest title) in
  match sorted_set tbs with
  | (u0 :: _) as uniq => Ok (Some u0, uniq)
  | [] =>
      let gbs := collect py_float_of_str (finditer_group1 GB_RE_group GB_RE_rest title) in
      match sorted_set gbs with
      | (g0 :: _) as uniq_g =>
          c0 <- fdiv g0 (Fin 1024 0) ;;
          cs <- div_each_1024 uniq_g ;;
          Ok (Some c0, cs)
      | [] => Ok (None, [])
      end
  end.

(** [category.startswith("drive_")]. *)
Definition is_drive_category (category : string) : bool :=
  String.prefix "drive_" category.

(** Lines 766-775: the rules before the capacity is looked at. *)
Definition hdd_keyword_rules (t : str) (no_recommended_offer : bool)
  : option (string * string) :=
  if no_recommended_offer then Some ("other", "no recommended offer")
  else if search _HDD_ACCESSORY_RE t then Some ("accessory", "accessory keyword")
  else if search _HDD_NAS_RE t
          && negb (search (alts [L "NAS向け"; L "NAS用"; L "NAS向けHDD"; L "NAS 用"]) t)
  then Some ("nas_device", "NAS device keyword")
  else if search _HDD_SSD_RE t
          && negb (search (alts [(\b +> L "HDD" +> \b)%re; L "ハードディスク"]) t)
  then Some ("other", "SSD keyword")
  else None.

(** Lines 780-785: the body of [if capacity_match_enabled and ...]. *)
Definition hdd_capacity_rule (target_tb : float64) (cap0 : option float64)
    (cap_list : list float64) : option (string * string) :=
  if (1 <? py_set_size feqb (map (fun x => py_round_ndigits x 3) cap_list))%nat
  then Some ("other", "multi-capacity listing")
  else
    match cap0 with
    | None => Some ("other", "no capacity")
    | Some cap0 =>
        if fgt (fabs (fsub cap0 target_tb)) f0_2
        then Some ("other", "capacity mismatch")
        else None
    end.

(** Lines 787-800. *)
Definition hdd_subtype (t : str) : string * string :=
  let hdd_hint := search _HDD_HINT_RE t in
  let model_hint := hdd_has_drive_model_hint t in
  let brand := hdd_guess_brand t in
  let is_internal := search (alts [L "内蔵"; L "3.5"; L "2.5"; L "SATA"; L "SAS"]) t in
  let is_external := search (alts [L "外付け"; L "外付"; L "ポータブル"; L "USB"]) t in
  if hdd_hint || model_hint || negb (String.eqb brand "") then
    if is_external && negb is_internal
    then ("drive_external", "external HDD-like")
    else if is_internal || model_hint
            || search (alts [L "ハードディスク"; L "HDD"]) t
    then ("drive_internal", "internal HDD-like")
    else ("other", "not HDD-like")
  else ("other", "not HDD-like").

Definition hdd_classify (title : str) (target_tb : option float64)
    (capacity_match_enabled : bool) (no_recommended_offer : bool)
  : result (string * string) :=
  let t := title in
  match hdd_keyword_rules t no_recommended_offer with
  | Some verdict => Ok verdict
  | None =>
      '(cap0, cap_list) <- _hdd_extract_capacity_tb t ;;
      let early :=
        match capacity_match_enabled, target_tb with
        | true, Some target_tb => hdd_capacity_rule target_tb cap0 cap_list
        | _, _ => None
        end in
      match early with
      | Some verdict => Ok verdict
      | None => Ok (hdd_subtype t)
      end
  end.

(** ** Categories in [run_scrape_one] (lines 920-954) *)

(** The category and reason given to one SSD item.  [bad_offer] is
    [block_has_bad_offer(block)]; the call of [extract_capacity_gb_tb] of
    line 921 comes first. *)
Definition ssd_item_category (raw brand_only bad_offer : bool) (title : str)
    (target_gb : option Z) (target_tb : option float64)
    (capacity_match_enabled : bool) : result (string * string) :=
  _ <- extract_capacity_gb_tb title ;;
  let brand := ssd_guess_brand title in
  if raw then Ok ("raw", "raw mode")
  else if bad_offer then Ok ("bad_offer", "featured offer missing")
  else
    '(category, reason) <- ssd_classify title target_gb target_tb
                                       capacity_match_enabled ;;
    if brand_only && String.eqb brand ""
    then Ok ("other", "brand-only: unknown brand")
    else Ok (category, reason).

(** [any(rex.search(title) for _n, rex in _HDD_MAKERS)]. *)
Definition hdd_is_maker (title : str) : bool :=
  existsb (fun d => search (snd d) title) _HDD_MAKERS.

(** The category and reason given to one HDD item. *)
Definition hdd_item_category (raw brand_only no_offer : bool) (title : str)
    (target_tb : option float64) (capacity_match_enabled : bool)
  : result (string * string) :=
  if raw then Ok ("raw", "raw mode")
  else
    '(category, reason) <- hdd_classify title target_tb capacity_match_enabled
                                       no_offer ;;
    let verdict :=
      if brand_only && is_drive_category category && negb (hdd_is_maker title)
      then ("other", "not drive maker")
      else (category, reason) in
    _ <- _hdd_extract_capacity_tb title ;;
    Ok verdict.

Close Scope string_scope.

(** ** De-duplication ([_dedupe_by_asin], lines 836-850) *)

(** The two [if]/[elif] conditions under which row [r] replaces the stored
    row [a]. *)
Definition replaces (a r : row) : bool :=
  match price_yen a, price_yen r with
  | None, Some _ => true
  | Some pa, Some pr => pr <? pa
  | _, _ => false
  end.

(** One iteration of the [for r in rows] loop. *)
Definition dedupe_step (best : PyDict.t row) (r : row) : PyDict.t row :=
  match PyDict.get (asin r) best with
  | None => PyDict.set (asin r) r best
  | Some a => if replaces a r then PyDict.set (asin r) r best else best
  end.

Definition _dedupe_by_asin (rows : list row) : list row :=
  PyDict.values (fold_left dedupe_step rows []).

(** *** Notions used to state the tie rule *)

(** [a] beats [b] under the price rule: the price of [a] is known, and that
    of [b] is unknown or higher. *)
Definition beats (a b : row) : Prop :=
  match price_yen a, price_yen b with
  | Some pa, Some pb => pa < pb
  | Some _, None => True
  | None, _ => False
  end.

(** [a] and [b] tie: both prices are unknown, or both are known and equal. *)
Definition ties (a b : row) : Prop :=
  match price_yen a, price_yen b with
  | None, None => True
  | Some pa, Some pb => pa = pb
  | _, _ => False
  end.

(** ** Median and summary statistics (lines 574-584) *)

(** [sorted(values)] on [int]s. *)
Fixpoint insert_sorted (x : Z) (xs : list Z) : list Z :=
  match xs with
  | [] => [x]
  | y :: ys => if x <=? y then x :: xs else y :: insert_sorted x ys
  end.

Definition sorted (xs : list Z) : list Z :=
  fold_right insert_sorted [] xs.

(** A value that is an [int] or a [float]. *)
Inductive number :=
| Int (n : Z)
| Float (x : float64).

(** [statistics.median(data)] for non-empty data: the middle element, or
    the true quotient of the sum of the two middle elements by two. *)
Definition statistics_median (values : list Z) : result number :=
  let data := sorted values in
  let n := List.length data in
  if Nat.odd n then Ok (Int (nth (n / 2) data 0))
  else
    x <- int_truediv (nth (n / 2 - 1) data 0 + nth (n / 2) data 0) 2 ;;
    Ok (Float x).

(** [int(round(v))]. *)
Definition int_round (v : number) : result Z :=
  match v with
  | Int n => Ok n
  | Float x => py_round x
  end.

Definition calc_median (values : list Z) : result Z :=
  match values with
  | [] => Ok 0
  | _ :: _ => m <- statistics_median values ;; int_round m
  end.

Definition sum (ps : list Z) : Z := fold_left Z.add ps 0.

(** [prices] holds [int]s only, so the [isinstance] filter keeps all. *)
Definition stats_summary (prices : list Z) : result (option (Z * Z * Z)) :=
  match prices with
  | [] => Ok None
  | p :: ps =>
      let mn := py_min p ps in
      avg <- (x <- int_truediv (sum prices) (Z.of_nat (List.length prices)) ;;
              py_round x) ;;
      Ok (Some (mn, avg, py_max p ps))
  end.

(** ** Category and outlier filters of [run_scrape_one] (lines 977-1013) *)

(** [[x["price_yen"] for x in rows if isinstance(x.get("price_yen"), int)]]. *)
Fixpoint known_prices (rows : list row) : list Z :=
  match rows with
  | [] => []
  | r :: rows' =>
      match price_yen r with
      | Some p => p :: known_prices rows'
      | None => known_prices rows'
      end
  end.

(** Lines 977-980. *)
Definition category_filter (raw : bool) (rows : list row) : list row :=
  filter (fun r => raw || is_drive_category (category r)) rows.

(** The test of the loop of lines 995-1004: is [r] appended to
    [new_filtered]? *)
Definition within_thresholds (thresh_low thresh_high : float64) (r : row) : bool :=
  match price_yen r with
  | Some p => negb (int_lt_float p thresh_low) && negb (int_gt_float p thresh_high)
  | None => true
  end.

(** Lines 983-1013: the rows that go on to the CSV and the statistics. *)
Definition outlier_filter (raw : bool) (low_price_ratio high_price_ratio : float64)
    (filtered : list row) : result (list row) :=
  if raw then Ok filtered
  else
    match known_prices filtered with
    | [] => Ok filtered
    | valid_prices =>
        median_price <- calc_median valid_prices ;;
        thresh_low <- int_mul_float median_price low_price_ratio ;;
        thresh_high <- int_mul_float median_price high_price_ratio ;;
        Ok (filter (within_thresholds thresh_low thresh_high) filtered)
    end.

(** The defaults [PRICE_LOWER_LIMIT_RATIO = 0.3] and
    [PRICE_UPPER_LIMIT_RATIO = 2.5]. *)
Definition PRICE_LOWER_LIMIT_RATIO : float64 := float_of_decimal 3 1.
Definition PRICE_UPPER_LIMIT_RATIO : float64 := float_of_decimal 25 1.

(** *** Notions used to state the capacity rule *)

(** More than one distinct TB value, compared after rounding to three
    decimals; more than one distinct GB value. *)
Definition several_tb (tbs : list float64) : bool :=
  (1 <? py_set_size feqb (map (fun x => py_round_ndigits x 3) tbs))%nat.

Definition several_gb (gbs : list Z) : bool :=
  (1 <? py_set_size Z.eqb gbs)%nat.

(** The difference of [cap] and [target], computed in double precision, is
    not greater than [0.2]. *)
Definition tb_within (cap target : float64) : bool :=
  negb (fgt (fabs (fsub cap target)) f0_2).

(** [|cap - target| <= tol] on integers. *)
Definition gb_within (cap target tol : Z) : bool :=
  Z.abs (cap - target) <=? tol.

(** *** Notions used to state the properties of the statistics *)

(** [n / d] rounded to the nearest integer, ties upwards. *)
Definition round_half_up (n d : Z) : Z := (2 * n + d) / (2 * d).

(** The median of a non-empty list, rounded half to even: the middle
    element of the sorted list, or the mean of the two middle elements
    rounded to an integer. *)
Definition median_rounded (values : list Z) : Z :=
  let data := sorted values in
  let n := List.length data in
  if Nat.odd n then nth (n / 2) data 0
  else round_half_even (nth (n / 2 - 1) data 0 + nth (n / 2) data 0) 2.

(** Twice the exact median (an integer, whatever the parity of the
    length). *)
Definition median_doubled (values : list Z) : Z :=
  let data := sorted values in
  let n := List.length data in
  if Nat.odd n then 2 * nth (n / 2) data 0
  else nth (n / 2 - 1) data 0 + nth (n / 2) data 0.

(** The exact product of an integer and a float. *)
Definition exact_scale (n : Z) (x : float64) : float64 :=
  match x with
  | Fin m e => Fin (n * m) e
  | _ => x
  end.

(** The filter as the specification words it: a known price is kept unless
    it is strictly below median x low_ratio or strictly above
    median x high_ratio, for the exact median (compared doubled). *)
Definition within_exact_thresholds (low high : float64) (values : list Z)
    (r : row) : bool :=
  match price_yen r with
  | Some p =>
      negb (flt (Fin (2 * p) 0) (exact_scale (median_doubled values) low))
      && negb (fgt (Fin (2 * p) 0) (exact_scale (median_doubled values) high))
  | None => true
  end.

(** *** Notions used to state the de-duplication properties *)

(** Well-formed [best] dictionaries: keys are unique and every row is stored
    under its own ASIN. *)
Definition best_wf (d : PyDict.t row) : Prop :=
  NoDup (PyDict.keys d) /\ forall k v, In (k, v) d -> asin v = k.

(** What the loop does to the entry of one identifier [id]. *)
Definition pick_step (id : string) (acc : option row) (r : row) : option row :=
  if String.eqb (asin r) id then
    match acc with
    | None => Some r
    | Some a => if replaces a r then Some r else Some a
    end
  else acc.

Definition pick (id : string) (rows : list row) (acc : option row) :=
  fold_left (pick_step id) rows acc.

Definition same_asin (id : string) (r : row) : bool := String.eqb (asin r) id.

(** *** Sample rows *)

Definition ex_5000 : row :=
  mkRow "B0C1234567" (lit "Crucial SSD 1TB") (Some 5000) 0 "Crucial"
        "drive_internal_sata" "generic ssd".

(** The same item seen again without a price. *)
Definition ex_unpriced : row :=
  mkRow "B0C1234567" (lit "Crucial SSD 1TB") None 0 "Crucial"
        "drive_internal_sata" "generic ssd".

(** The same item at the same price, once as an organic result and once as
    a sponsored placement. *)
Definition ex_organic : row :=
  mkRow "B0D7654321" (lit "Samsung SSD 2TB") (Some 19800) 0 "Samsung"
        "drive_internal_sata" "generic ssd".

Definition ex_sponsored : row :=
  mkRow "B0D7654321" (lit "Samsung SSD 2TB") (Some 19800) 1 "Samsung"
        "drive_internal_sata" "generic ssd".

(** A retained item with a given identifier and price. *)
Definition item (id : string) (p : option Z) : row :=
  mkRow id (lit "SSD 1TB") p 0 "" "drive_internal_sata" "generic ssd".

(** The priced set of the specification's example. *)
Definition ex_priced_set : list row :=
  [item "B000000001" (Some 1000); item "B000000002" (Some 1050);
   item "B000000003" (Some 1100); item "B000000004" (Some 1080);
   item "B000000005" (Some 9000)].

(** A set on which one pass of the filter moves the median. *)
Definition ex_skewed_set : list row :=
  [item "B000000001" (Some 100); item "B000000002" (Some 240);
   item "B000000003" (Some 300); item "B000000004" (Some 700);
   item "B000000005" (Some 10000)].

(** An even number of prices whose exact median, 10.5, is not an integer. *)
Definition ex_even_set : list row :=
  [item "B000000001" (Some 3); item "B000000002" (Some 10);
   item "B000000003" (Some 11); item "B000000004" (Some 12)].

(** *** Sample titles *)

(** ["SSD 1"], 309 zeros, ["TB"]: a capacity of [10^309] TB. *)
Definition huge_tb_title : str :=
  (lit "SSD 1" ++ repeat 0x30 309 ++ lit "TB")%list.

(* ================================================================== *)
(** * Part I, continued. Further functions of the program and the notions
      used to state their properties                                    *)
(* ================================================================== *)

(** ** What a pattern matches

    A declarative reading of the patterns, against which the backtracking
    matcher is proved correct. *)

(** The character before the position reached after reading [p]. *)
Fixpoint last_char (prev : option char) (p : str) : option char :=
  match p with
  | [] => prev
  | c :: p' => last_char (Some c) p'
  end.

(** [den r prev p rest]: [r] matches the text [p], preceded by the character
    [prev] and followed by [rest]. *)
Inductive den : regex -> option char -> str -> str -> Prop :=
| den_eps prev rest : den REps prev [] rest
| den_atom a c prev rest :
    atom_match a c = true -> den (RAtom a) prev [c] rest
| den_seq r1 r2 prev p1 p2 rest :
    den r1 prev p1 (p2 ++ rest) -> den r2 (last_char prev p1) p2 rest ->
    den (RSeq r1 r2) prev (p1 ++ p2) rest
| den_alt_l r1 r2 prev p rest : den r1 prev p rest -> den (RAlt r1 r2) prev p rest
| den_alt_r r1 r2 prev p rest : den r2 prev p rest -> den (RAlt r1 r2) prev p rest
| den_opt_some r prev p rest : den r prev p rest -> den (ROpt r) prev p rest
| den_opt_none r prev rest : den (ROpt r) prev [] rest
| den_rep a lo hi prev p rest :
    Forall (fun c => atom_match a c = true) p ->
    (lo <= List.length p)%nat ->
    (forall h, hi = Some h -> (List.length p <= h)%nat) ->
    den (RRep a lo hi) prev p rest
| den_wordb prev rest :
    at_word_boundary prev rest = true -> den RWordB prev [] rest.

(** [r] matches somewhere in [t]. *)
Definition occurs (r : regex) (t : str) : Prop :=
  exists l p rest, t = (l ++ p ++ rest)%list /\ den r (last_char None l) p rest.


(** Equality of two texts up to letter case, as [re.IGNORECASE] sees it. *)
Definition same_ignoring_case (p w : str) : Prop :=
  Forall2 (fun c pc => fold_case c = fold_case pc) p w.

(** The word [w] occurs in [t], in any letter case. *)
Definition contains_word (t : str) (w : string) : Prop :=
  exists l p rest, t = (l ++ p ++ rest)%list /\ same_ignoring_case p (lit w).

(** ** The target capacity of a query (lines 556-571) *)

(** [rex.search(t)] for the pattern [(g)rest]: group 1 of the leftmost
    match. *)
Fixpoint search_group1_from (g rest : regex) (prev : option char) (s : str)
  : option str :=
  match match_group g rest prev s with
  | Some (grp, _) => Some grp
  | None =>
      match s with
      | [] => None
      | c :: s' => search_group1_from g rest (Some c) s'
      end
  end.

Definition search_group1 (g rest : regex) (t : str) : option str :=
  search_group1_from g rest None t.

Definition guess_target_capacity_from_query (ktext : str)
  : option Z * option float64 :=
  match ktext with
  | [] => (None, None)
  | _ :: _ =>
      let gb_search :=
        match search_group1 GB_RE_group GB_RE_rest ktext with
        | Some g =>
            match py_int_of_str g with
            | Ok n => (Some n, None)
            | Raise _ => (None, None)
            end
        | None => (None, None)
        end in
      match search_group1 TB_RE_group TB_RE_rest ktext with
      | Some g =>
          match py_float_of_str g with
          | Ok x => (None, Some x)
          | Raise _ => gb_search
          end
      | None => gb_search
      end
  end.

(** A float that is zero or positive (and so neither a NaN nor negative). *)
Definition nonnegative (x : float64) : Prop :=
  match x with
  | Fin m _ => 0 <= m
  | Inf neg => neg = false
  | NaN => False
  end.

(** ** The post-processing of [run_scrape_one] (lines 975-1013) *)

(** De-duplication, then the category filter, then the outlier filter: the
    rows that are written to the CSV file. *)
Definition postprocess (raw : bool) (low_price_ratio high_price_ratio : float64)
    (all_raw_rows : list row) : result (list row) :=
  outlier_filter raw low_price_ratio high_price_ratio
    (category_filter raw (_dedupe_by_asin all_raw_rows)).

(** *** Notions used to state the order of the output *)

(** The distinct elements of a list, in the order of their first
    occurrences. *)
Definition first_occurrences (ks : list string) : list string :=
  fold_left (fun seen k => if existsb (String.eqb k) seen then seen
                           else seen ++ [k]) ks [].

(** *** Notions used to state the retry policy for any schedule *)

(** The sleeps and requests of the attempts numbered from [i] on, one
    attempt per wait: a sleep of [wait] seconds unless [wait] is zero, then
    the request. *)
Fixpoint schedule_events (i : nat) (waits : list Z) : list event :=
  match waits with
  | [] => []
  | wait :: rest =>
      (if wait =? 0 then [] else [Sleep wait]) ++ Get i :: schedule_events (S i) rest
  end.

(** ** The capacity of a gauge label ([_parse_cap_tb], lines 1086-1106) *)

(** [try: return ... except ValueError: pass], followed by [rest]. *)
Definition except_ValueError {A} (attempt : result A) (rest : result A) : result A :=
  match attempt with
  | Ok a => Ok a
  | Raise ValueError => rest
  | Raise e => Raise e
  end.

(** [_CAP_TB_RE] is [TB_RE]; the second pattern is
    [(\d+(?:\.\d+)?)\s*GB]; [re.findall(r'\d+(?:\.\d+)?', label)] lists the
    whole matches. *)
Definition _parse_cap_tb (label : str) : result float64 :=
  let from_nums :=
    match finditer_group1 TB_RE_group REps label with
    | n0 :: _ =>
        match py_float_of_str n0 with
        | Ok val => Ok val
        | Raise ValueError => Ok (Fin 0 0)
        | Raise e => Raise e
        end
    | [] => Ok (Fin 0 0)
    end in
  let from_gb :=
    match search_group1 TB_RE_group GB_RE_rest label with
    | Some g =>
        except_ValueError (x <- py_float_of_str g ;; fdiv x (Fin 1024 0)) from_nums
    | None => from_nums
    end in
  match search_group1 TB_RE_group TB_RE_rest label with
  | Some g => except_ValueError (py_float_of_str g) from_gb
  | None => from_gb
  end.

(** *** Notions used to state the order of the HDD capacities *)

(** Every element is less than all the later ones. *)
Fixpoint ascending (l : list float64) : Prop :=
  match l with
  | [] => True
  | x :: l' => Forall (fun y => flt x y = true) l' /\ ascending l'
  end.

(** ** The summary report of [run_scrape_one] (lines 1035-1062) *)

(** [a == b] and [a <= b] on [str]: Python compares strings code point by
    code point. *)
Fixpoint str_eqb (a b : str) : bool :=
  match a, b with
  | [], [] => true
  | x :: a', y :: b' => (x =? y) && str_eqb a' b'
  | _, _ => false
  end.

Fixpoint str_leb (a b : str) : bool :=
  match a, b with
  | [], _ => true
  | _ :: _, [] => false
  | x :: a', y :: b' =>
      if x <? y then true else if y <? x then false else str_leb a' b'
  end.

(** [s.strip()]: leading and trailing white space removed. *)
Fixpoint lstrip (s : str) : str :=
  match s with
  | [] => []
  | c :: s' => if is_space c then lstrip s' else s
  end.

Definition py_strip (s : str) : str := rev (lstrip (rev (lstrip s))).

(** [sum(1 for r in filtered if not isinstance(r.get("price_yen"), int))]. *)
Definition price_missing (filtered : list row) : nat :=
  List.length (filter (fun r => is_none (price_yen r)) filtered).

(** [str(v).strip() if v not in (None, "") else "Unknown"], for a column
    that holds strings. *)
Definition group_label (v : string) : str :=
  if String.eqb v "" then lit "Unknown" else py_strip (lit v).

(** [groups[label]] and [groups.setdefault(label, []).append(p)] on the
    dictionary [groups], kept in insertion order. *)
Fixpoint groups_get (label : str) (groups : list (str * list Z)) : option (list Z) :=
  match groups with
  | [] => None
  | (l, ps) :: rest => if str_eqb label l then Some ps else groups_get label rest
  end.

Fixpoint groups_append (label : str) (p : Z) (groups : list (str * list Z))
  : list (str * list Z) :=
  match groups with
  | [] => [(label, [p])]
  | (l, ps) :: rest =>
      if str_eqb label l then (l, ps ++ [p]) :: rest
      else (l, ps) :: groups_append label p rest
  end.

(** One iteration of [for rr in filtered]; [field] reads the column
    [key]. *)
Definition group_step (field : row -> string) (groups : list (str * list Z))
    (rr : row) : list (str * list Z) :=
  match price_yen rr with
  | Some p => groups_append (group_label (field rr)) p groups
  | None => groups
  end.

(** [sorted(groups.keys())]. *)
Fixpoint insert_label (l : str) (ls : list str) : list str :=
  match ls with
  | [] => [l]
  | m :: ms => if str_leb l m then l :: ls else m :: insert_label l ms
  end.

Definition sorted_labels (ls : list str) : list str :=
  fold_right insert_label [] ls.

(** A printed line: the label, the statistics and the count. *)
Definition group_line : Type := str * (Z * Z * Z) * nat.

(** The loop [for label in sorted(groups.keys())]; [out] holds the lines
    printed so far. *)
Fixpoint print_groups (groups : list (str * list Z)) (labels : list str)
    (out : list group_line) : list group_line * result unit :=
  match labels with
  | [] => (out, Ok tt)
  | label :: labels' =>
      match groups_get label groups with
      | None => (out, Raise (OtherException "KeyError"))
      | Some ps =>
          match stats_summary ps with
          | Raise e => (out, Raise e)
          | Ok None => print_groups groups labels' out
          | Ok (Some sm) =>
              print_groups groups labels' (out ++ [(label, sm, List.length ps)])
          end
      end
  end.

(** [_print_group(prefix, key)]: the lines it prints, and whether it
    returns. *)
Definition _print_group (field : row -> string) (filtered : list row)
  : list group_line * result unit :=
  let groups := fold_left (group_step field) filtered [] in
  print_groups groups (sorted_labels (map fst groups)) [].

(** *** Notions used to state the properties of the report *)

(** The prices of the rows of one group. *)
Definition group_prices (field : row -> string) (label : str)
    (filtered : list row) : list Z :=
  known_prices (filter (fun r => str_eqb (group_label (field r)) label) filtered).

(** The number of prices held by the groups. *)
Definition total_count (g : list (str * list Z)) : nat :=
  list_sum (map (fun e => List.length (snd e)) g).

(** Every label comes strictly before all the later ones. *)
Fixpoint labels_ascending (ls : list str) : Prop :=
  match ls with
  | [] => True
  | l :: ls' =>
      Forall (fun m => str_leb l m = true /\ l <> m) ls' /\ labels_ascending ls'
  end.

(** ** Item blocks ([ASIN_RE] and [split_item_blocks], lines 359, 522-531) *)

(** The text with which [ASIN_RE] starts: [data-asin=] and a double
    quote. *)
Definition ASIN_PREFIX : str := (lit "data-asin=" ++ [0x22])%list.

(** [[A-Z0-9]]; [ASIN_RE] is compiled without [re.IGNORECASE]. *)
Definition is_asin_char (c : char) : bool :=
  ((0x41 <=? c) && (c <=? 0x5A)) || ((0x30 <=? c) && (c <=? 0x39)).

(** What is left of [s] after the prefix [p], if [s] starts with [p]. *)
Fixpoint strip_prefix (p s : str) : option str :=
  match p, s with
  | [], _ => Some s
  | x :: p', y :: s' => if x =? y then strip_prefix p' s' else None
  | _ :: _, [] => None
  end.

(** [ASIN_RE.match(s)]: group 1 of a match at the start of [s].  The
    pattern has a single way to match: the prefix, ten characters of the
    class, a closing quote. *)
Definition match_asin (s : str) : option str :=
  match strip_prefix ASIN_PREFIX s with
  | Some s1 =>
      let g := firstn 10 s1 in
      match skipn 10 s1 with
      | c :: _ =>
          if (List.length g =? 10)%nat && forallb is_asin_char g && (c =? 0x22)
          then Some g else None
      | [] => None
      end
  | None => None
  end.

(** [[(m.start(), m.group(1)) for m in ASIN_RE.finditer(html)]]: [s] is the
    text from position [pos] on, of which [skip] characters still belong to
    the previous match (a match is 22 characters long). *)
Fixpoint asin_finditer (s : str) (pos skip : nat) : list (nat * str) :=
  match s with
  | [] => []
  | _ :: s' =>
      match skip with
      | S n => asin_finditer s' (S pos) n
      | O =>
          match match_asin s with
          | Some g => (pos, g) :: asin_finditer s' (S pos) 21
          | None => asin_finditer s' (S pos) 0
          end
      end
  end.

(** The second loop of [split_item_blocks]; [html[start:end]] is
    [firstn (end - start) (skipn start html)]. *)
Fixpoint blocks_from (html : str) (pos : list (nat * str)) : list (str * str) :=
  match pos with
  | [] => []
  | (start, asin) :: rest =>
      let end_ := match rest with
                  | (next, _) :: _ => next
                  | [] => List.length html
                  end in
      if negb (str_eqb asin []) && negb (str_eqb asin (lit "0000000000"))
      then (asin, firstn (end_ - start) (skipn start html)) :: blocks_from html rest
      else blocks_from html rest
  end.

Definition split_item_blocks (html : str) : list (str * str) :=
  blocks_from html (asin_finditer html 0 0).

(** *** Notions used to state the properties of the blocks *)

(** An identifier that [ASIN_RE] accepts. *)
Definition asin_shaped (a : str) : Prop :=
  List.length a = 10%nat /\ forallb is_asin_char a = true.

(** The attribute [data-asin=] with the value [a] in double quotes. *)
Definition asin_attribute (a : str) : str := (ASIN_PREFIX ++ a ++ [0x22])%list.

(** The matches are in document order and do not overlap. *)
Fixpoint spaced (pos : list (nat * str)) : Prop :=
  match pos with
  | [] => True
  | (p, _) :: rest =>
      match rest with
      | (next, _) :: _ => (p + 22 <= next)%nat
      | [] => True
      end /\ spaced rest
  end.

(** ** Page markers (lines 349-357, 366, 443-444, 509-510) *)

Open Scope string_scope.

(** None of the patterns holds a character that is special in a regular
    expression: each stands for itself. *)
Definition BLOCK_PATTERNS : list string :=
  ["Robot Check";
   "Enter the characters you see below";
   "/errors/validateCaptcha";
   "申し訳ございません";
   "画像に表示されている文字を入力してください";
   "入力された文字が一致しません"].

Definition BLOCK_RE : regex := words BLOCK_PATTERNS.

Definition is_blocked (html : str) : bool := search BLOCK_RE html.

Definition SPONSORED_WORDS : list string := ["スポンサー"; "Sponsored"].

Definition SPONSORED_RE : regex := words SPONSORED_WORDS.

Definition extract_sponsored (block : str) : Z :=
  if search SPONSORED_RE block then 1 else 0.

Close Scope string_scope.

(** ** Prices and hit counts (lines 364-365, 468-475, 493-506) *)

(** A literal text given by its characters. *)
Definition Lstr (cs : str) : regex :=
  fold_right (fun c r => RSeq (RAtom (AChar c)) r) REps cs.

(** [[\d,]]. *)
Definition digit_or_comma : atom := ASet (decimal_ranges ++ [(0x2C, 0x2C)]).

(** [class=], [a-price-whole] in double quotes, [[^>]*>]: what comes before
    the group of [PRICE_WHOLE_RE]; the group [([\d,]+)] is followed by
    [<]. *)
Definition PRICE_WHOLE_RE_before : regex :=
  (Lstr (lit "class=" ++ [0x22] ++ lit "a-price-whole" ++ [0x22])
   +> RRep (ASet [(0, 0x3D); (0x3F, 0x10FFFF)]) 0 None
   +> L ">")%re.
Definition PRICE_WHOLE_RE_group : regex := RRep digit_or_comma 1 None.
Definition PRICE_WHOLE_RE_after : regex := L "<".

(** [YEN_RE]: a yen sign, full-width or not, and [\s*] before the group
    [([\d,]+)]. *)
Definition YEN_RE_before : regex :=
  (RAtom (ASet [(0xA5, 0xA5); (0xFFE5, 0xFFE5)]) +> \s* )%re.
Definition YEN_RE_group : regex := RRep digit_or_comma 1 None.

(** The pattern of [parse_hit_count]: the group is a digit followed by
    digits and commas; after it come optional white space and the four
    characters that announce the number of results. *)
Definition HIT_COUNT_group : regex := (RAtom ADigit +> RRep digit_or_comma 0 None)%re.
Definition HIT_COUNT_rest : regex := (\s* +> L "件の結果")%re.

(** Group 1 of a match of [before(group)after] at the head of [s]. *)
Definition match_group_mid (before group after : regex) (prev : option char)
    (s : str) : option str :=
  rmatch before prev s (fun p0 s0 =>
    rmatch group p0 s0 (fun p1 s1 =>
      rmatch after p1 s1 (fun _ _ =>
        Some (firstn (List.length s0 - List.length s1) s0)))).

(** [rex.search(t).group(1)]: group 1 of the leftmost match. *)
Fixpoint search_group_mid_from (before group after : regex) (prev : option char)
    (s : str) : option str :=
  match match_group_mid before group after prev s with
  | Some grp => Some grp
  | None =>
      match s with
      | [] => None
      | c :: s' => search_group_mid_from before group after (Some c) s'
      end
  end.

Definition search_group_mid (before group after : regex) (t : str) : option str :=
  search_group_mid_from before group after None t.

(** [g.replace(",", "")]. *)
Definition remove_commas (g : str) : str := filter (fun c => negb (c =? 0x2C)) g.

(** [int(s)] for a run of decimal digits, in an interpreter whose
    [sys.get_int_max_str_digits()] is [max_str_digits]: a longer numeral
    (of more than 640 digits) is refused with [ValueError]; 0 stands for no
    limit. *)
Definition py_int_of_digits (max_str_digits : nat) (s : str) : result Z :=
  if (640 <? List.length s)%nat && (0 <? max_str_digits)%nat
     && (max_str_digits <? List.length s)%nat
  then Raise ValueError
  else py_int_of_str s.

(** [try: return int(m.group(1).replace(",", "")) except Exception: pass]
    under [if m:]; [None] stands for going on. *)
Definition int_of_group (max_str_digits : nat) (m : option str) : option Z :=
  match m with
  | Some g =>
      match py_int_of_digits max_str_digits (remove_commas g) with
      | Ok n => Some n
      | Raise _ => None
      end
  | None => None
  end.

Definition extract_price_yen (max_str_digits : nat) (block : str) : option Z :=
  match int_of_group max_str_digits
          (search_group_mid PRICE_WHOLE_RE_before PRICE_WHOLE_RE_group
             PRICE_WHOLE_RE_after block) with
  | Some n => Some n
  | None =>
      int_of_group max_str_digits
        (search_group_mid YEN_RE_before YEN_RE_group REps block)
  end.

Definition parse_hit_count (max_str_digits : nat) (html : str) : option Z :=
  int_of_group max_str_digits (search_group1 HIT_COUNT_group HIT_COUNT_rest html).

(** *** Notions used to state what a price is *)

(** [g] is a run of digits and commas whose digits spell [n]. *)
Definition numeral_with_commas (g : str) (n : Z) : Prop :=
  g <> [] /\
  Forall (fun c => is_digit c = true \/ c = 0x2C) g /\
  digits_value 0 (remove_commas g) = Some n.

(** [g] occurs in [t]. *)
Definition occurs_in (g t : str) : Prop := exists l r, t = (l ++ g ++ r)%list.

(** ** The interface and form factor of an HDD title (lines 713-718,
       725-726, 739-751) *)

Open Scope string_scope.

Definition _HDD_IFACE_HINTS : list (string * regex) :=
  [("SAS",  alts [(\b +> L "SAS" +> \b)%re; L "Serial Attached SCSI"]);
   ("SATA", (\b +> L "SATA" +> \b)%re);
   ("USB",  alts [(\b +> L "USB" +> \b)%re; L "USB3.";
                  (L "Type" +> ROpt (L "-") +> L "C")%re; L "Thunderbolt"]);
   ("NVMe", alts [(\b +> L "NVMe" +> \b)%re; L "M.2"])].

Definition _FF35_RE : regex :=
  (L "3.5" +> \s* +> alts [L "インチ"; L "inch"; L "in"])%re.
Definition _FF25_RE : regex :=
  (L "2.5" +> \s* +> alts [L "インチ"; L "inch"; L "in"])%re.

Close Scope string_scope.

Definition hdd_extract_iface (title : str) : string :=
  first_match _HDD_IFACE_HINTS title.

(** The float literals [3.5] and [2.5]. *)
Definition hdd_extract_form_factor (title : str) : option float64 :=
  if search _FF35_RE title then Some (float_of_decimal 35 1)
  else if search _FF25_RE title then Some (float_of_decimal 25 1)
  else None.

(** ** Notions used to state the brand-only mode and the capacity rule *)

(** The title is matched by some, or by none, of the patterns of a table of
    brands. *)
Definition matched_by_some (table : list (string * regex)) (title : str) : Prop :=
  exists name rex, In (name, rex) table /\ occurs rex title.

Definition matched_by_none (table : list (string * regex)) (title : str) : Prop :=
  forall name rex, In (name, rex) table -> ~ occurs rex title.

(** The category starts with [drive_]. *)
Definition starts_with_drive (category : string) : Prop :=
  exists rest, category = ("drive_" ++ rest)%string.

(** [vals] are the values of [xs] without repetition, in ascending order. *)
Definition distinct_ascending (xs vals : list float64) : Prop :=
  ascending vals /\
  (forall v, In v vals -> In v xs) /\
  (forall x, In x xs -> exists v, In v vals /\ feqb x v = true).

(** [qs] are the values of [gs], each divided by 1024. *)
Definition each_divided_by_1024 (gs qs : list float64) : Prop :=
  Forall2 (fun g q => fdiv g (Fin 1024 0) = Ok q) gs qs.

(* ================================================================== *)
(** * Part II. Properties                                              *)
(* ================================================================== *)

(** ** The model of floats, regular expressions and classifiers at work *)

(** The decimal literals of the program are the doubles the machine
    computes, and subtraction and multiplication round as the machine's. *)
Example float_literals_agree :
  f0_2 = of_prim (PrimFloat.div (prim_of_Z 2) (prim_of_Z 10)) /\
  f0_10 = of_prim (PrimFloat.div (prim_of_Z 1) (prim_of_Z 10)) /\
  PRICE_LOWER_LIMIT_RATIO = of_prim (PrimFloat.div (prim_of_Z 3) (prim_of_Z 10)) /\
  PRICE_UPPER_LIMIT_RATIO = of_prim (PrimFloat.div (prim_of_Z 25) (prim_of_Z 10)).
Proof. vm_compute. repeat split; reflexivity. Qed.

Example float_operations_agree :
  fsub (float_of_decimal 22 1) (Fin 2 0)
    = of_prim (PrimFloat.sub (PrimFloat.div (prim_of_Z 22) (prim_of_Z 10))
                             (prim_of_Z 2)) /\
  fmul (Fin 1080 0) PRICE_LOWER_LIMIT_RATIO
    = of_prim (PrimFloat.mul (prim_of_Z 1080)
                             (PrimFloat.div (prim_of_Z 3) (prim_of_Z 10))) /\
  fdiv (Fin 900 0) (Fin 1024 0)
    = Ok (of_prim (PrimFloat.div (prim_of_Z 900) (prim_of_Z 1024))) /\
  fmul (float_of_decimal 15 1) (Fin 1024 0)
    = of_prim (PrimFloat.mul (PrimFloat.div (prim_of_Z 15) (prim_of_Z 10))
                             (prim_of_Z 1024)).
Proof. vm_compute. repeat split; reflexivity. Qed.

(** In double precision 2.2 - 2.0 exceeds 0.2, and 1.2 - 1.0 does not. *)
Example tolerance_in_double_precision :
  tb_within (float_of_decimal 22 1) (Fin 2 0) = false /\
  tb_within (float_of_decimal 12 1) (Fin 1 0) = true.
Proof. vm_compute. split; reflexivity. Qed.

(** [round] breaks ties to the even integer; [round(x, 3)] works on the
    exact binary value. *)
Example py_round_examples :
  py_round (float_of_decimal 25 1) = Ok 2 /\
  py_round (float_of_decimal 35 1) = Ok 4 /\
  py_round (Inf false) = Raise OverflowError /\
  py_round_ndigits (float_of_decimal 10005 4) 3 = float_of_decimal 1 0 /\
  py_round_ndigits (float_of_decimal 10015 4) 3 = float_of_decimal 1002 3.
Proof. vm_compute. repeat split; reflexivity. Qed.

(** [TB_RE] and [GB_RE]: full-width digits count, the quantifier of [GB_RE]
    backtracks to the last five digits, matches do not overlap. *)
Example finditer_examples :
  finditer_group1 TB_RE_group TB_RE_rest (lit "１.５TB 2tb 3 Tb 4.TB 12345678GB")
    = [lit "１.５"; lit "2"; lit "3"] /\
  finditer_group1 GB_RE_group GB_RE_rest (lit "12345678GB 1gb ５１２GB")
    = [lit "45678"; lit "５１２"] /\
  extract_capacity_gb_tb (lit "SSD 1.5TB 512GB 256 gb")
    = Ok (Some 1536, Some (float_of_decimal 15 1), [512; 256],
          [float_of_decimal 15 1]).
Proof. vm_compute. repeat split; reflexivity. Qed.

(** [\b] needs a non-word character on one side: kana and kanji are word
    characters. *)
Example word_boundary_examples :
  search _SSD_RE (lit "SSD ケース") = true /\
  search _SSD_RE (lit "SSDケース") = false /\
  search _SSD_RE (lit "内蔵SSD") = false /\
  search _SSD_RE (lit "ssd-1tb") = true.
Proof. vm_compute. repeat split; reflexivity. Qed.

(** Letters and numbers of every script are word characters: a Greek, a
    Cyrillic and a Hangul letter, a Roman numeral, a circled digit and the
    long vowel mark of katakana; the space, the hyphen, the ideographic
    comma and the middle dot of katakana are not. *)
Example word_character_examples :
  forallb is_word [0x3A9; 0x416; 0xD55C; 0x2160; 0x2460; 0x30FC; 0x5F] = true /\
  existsb is_word [0x20; 0x2D; 0x3001; 0x30FB] = false /\
  search _SSD_RE (lit "한SSD") = false /\
  search _SSD_RE (lit "・SSD") = true.
Proof. vm_compute. repeat split; reflexivity. Qed.

(** The two classification examples of the specification. *)
Example classify_samsung :
  ssd_classify (lit "Samsung 970 EVO Plus 1TB NVMe M.2 SSD") None (Some (Fin 1 0)) true
    = Ok ("drive_internal_nvme", "nvme/m.2 hints")%string /\
  ssd_guess_brand (lit "Samsung 970 EVO Plus 1TB NVMe M.2 SSD") = "Samsung"%string.
Proof. vm_compute. split; reflexivity. Qed.

Example classify_accessory : forall target_gb target_tb cme,
  ssd_classify (lit "SSDケース M.2 NVMe 変換アダプタ USB3.1") target_gb target_tb cme
    = Ok ("accessory", "accessory keyword")%string.
Proof.
  intros. unfold ssd_classify.
  replace (ssd_keyword_rules (lit "SSDケース M.2 NVMe 変換アダプタ USB3.1"))
    with (Some ("accessory", "accessory keyword")%string)
    by (vm_compute; reflexivity).
  reflexivity.
Qed.

(** ** The dictionary model *)

Section DictFacts.
Context {V : Type}.
Implicit Types (d : PyDict.t V) (k : string) (v : V).

Lemma get_set_eq k v d : PyDict.get k (PyDict.set k v d) = Some v.
Proof.
  induction d as [|[k' v'] d IH]; simpl.
  - now rewrite String.eqb_refl.
  - destruct (String.eqb k k') eqn:E; simpl; rewrite E; auto.
Qed.

Lemma get_set_ne k k' v d :
  k <> k' -> PyDict.get k' (PyDict.set k v d) = PyDict.get k' d.
Proof.
  intros Hne. induction d as [|[k0 v0] d IH]; simpl.
  - destruct (String.eqb k' k) eqn:E; auto.
    apply String.eqb_eq in E. congruence.
  - destruct (String.eqb k k0) eqn:E; simpl.
    + apply String.eqb_eq in E. subst k0.
      destruct (String.eqb k' k) eqn:E'; auto.
      apply String.eqb_eq in E'. congruence.
    + now rewrite IH.
Qed.

Lemma get_None_keys k d : PyDict.get k d = None <-> ~ In k (PyDict.keys d).
Proof.
  induction d as [|[k' v'] d IH]; simpl.
  - tauto.
  - destruct (String.eqb k k') eqn:E.
    + apply String.eqb_eq in E. subst. split; [discriminate | tauto].
    + apply String.eqb_neq in E. rewrite IH. split.
      * intros H [?|?]; [congruence | auto].
      * intros H ?. apply H. now right.
Qed.

Lemma keys_set k v d :
  PyDict.keys (PyDict.set k v d) =
  match PyDict.get k d with
  | None => PyDict.keys d ++ [k]
  | Some _ => PyDict.keys d
  end.
Proof.
  induction d as [|[k' v'] d IH]; simpl; auto.
  destruct (String.eqb k k') eqn:E; simpl; auto.
  rewrite IH. now destruct (PyDict.get k d).
Qed.

Lemma in_set k v d k0 v0 :
  In (k0, v0) (PyDict.set k v d) -> (k0 = k /\ v0 = v) \/ In (k0, v0) d.
Proof.
  induction d as [|[k' v'] d IH]; simpl.
  - intros [H|[]]. inversion H. auto.
  - destruct (String.eqb k k') eqn:E; simpl.
    + apply String.eqb_eq in E. subst k'.
      intros [H|H]; [inversion H; auto | auto].
    + intros [H|H]; auto. destruct (IH H); auto.
Qed.
End DictFacts.

(** ** De-duplication *)

Lemma dedupe_step_wf d r : best_wf d -> best_wf (dedupe_step d r).
Proof.
  intros [Hnd Hk]. unfold dedupe_step.
  assert (Hset : best_wf (PyDict.set (asin r) r d)).
  { split.
    - rewrite keys_set. destruct (PyDict.get (asin r) d) eqn:E; auto.
      apply get_None_keys in E.
      apply (Permutation_NoDup (l := asin r :: PyDict.keys d)).
      + apply Permutation_cons_append.
      + now constructor.
    - intros k v Hin. apply in_set in Hin. destruct Hin as [[-> ->]|Hin]; auto. }
  destruct (PyDict.get (asin r) d); [destruct (replaces r0 r)|]; auto.
  now split.
Qed.

Lemma dedupe_fold_wf rows d :
  best_wf d -> best_wf (fold_left dedupe_step rows d).
Proof.
  revert d. induction rows as [|r rows IH]; simpl; auto.
  intros d Hd. apply IH. now apply dedupe_step_wf.
Qed.

Lemma dedupe_step_get id d r :
  PyDict.get id (dedupe_step d r) = pick_step id (PyDict.get id d) r.
Proof.
  unfold dedupe_step, pick_step.
  destruct (String.eqb (asin r) id) eqn:E.
  - apply String.eqb_eq in E. subst id.
    destruct (PyDict.get (asin r) d) as [a|] eqn:G.
    + destruct (replaces a r); [apply get_set_eq | exact G].
    + apply get_set_eq.
  - apply String.eqb_neq in E.
    destruct (PyDict.get (asin r) d) as [a|] eqn:G.
    + destruct (replaces a r); [now apply get_set_ne | reflexivity].
    + now apply get_set_ne.
Qed.

Lemma dedupe_fold_get id rows d :
  PyDict.get id (fold_left dedupe_step rows d) = pick id rows (PyDict.get id d).
Proof.
  revert d. induction rows as [|r rows IH]; simpl; intros d; auto.
  unfold pick in *. simpl. rewrite IH. now rewrite dedupe_step_get.
Qed.

Lemma filter_values id d :
  best_wf d ->
  filter (same_asin id) (PyDict.values d) =
  match PyDict.get id d with Some v => [v] | None => [] end.
Proof.
  induction d as [|[k v] d IH]; simpl; auto.
  intros [Hnd Hk]. inversion Hnd as [|? ? Hnin Hnd']; subst.
  assert (Hv : asin v = k) by (apply Hk; now left).
  assert (Hd : best_wf d) by (split; auto; intros; apply Hk; now right).
  specialize (IH Hd). unfold same_asin in *. rewrite Hv.
  rewrite (String.eqb_sym id k).
  destruct (String.eqb k id) eqn:E.
  - apply String.eqb_eq in E. subst id.
    apply get_None_keys in Hnin. rewrite Hnin in IH. now rewrite IH.
  - exact IH.
Qed.

(** The representatives of one identifier in the output. *)
Lemma dedupe_filter id rows :
  filter (same_asin id) (_dedupe_by_asin rows) =
  match pick id rows None with Some v => [v] | None => [] end.
Proof.
  unfold _dedupe_by_asin. rewrite filter_values.
  - now rewrite dedupe_fold_get.
  - apply dedupe_fold_wf. split; [constructor | intros ? ? []].
Qed.

(** [replaces a r] is a strict order on prices in which an unknown price is
    the worst one. *)
Lemma replaces_trans a b c :
  replaces a b = true -> replaces b c = true -> replaces a c = true.
Proof.
  unfold replaces.
  destruct (price_yen a), (price_yen b), (price_yen c); try discriminate; auto.
  rewrite !Z.ltb_lt. lia.
Qed.

Lemma replaces_neg_trans a b c :
  replaces a b = false -> replaces a c = true -> replaces b c = true.
Proof.
  unfold replaces.
  destruct (price_yen a), (price_yen b), (price_yen c); try discriminate; auto.
  rewrite Z.ltb_ge, !Z.ltb_lt. lia.
Qed.

Lemma replaces_irrefl a : replaces a a = false.
Proof. unfold replaces. destruct (price_yen a); auto. apply Z.ltb_irrefl. Qed.

Lemma pick_cons id r rows acc :
  pick id (r :: rows) acc = pick id rows (pick_step id acc r).
Proof. reflexivity. Qed.

Ltac pick_side :=
  auto; try discriminate;
  try solve [intros ? []];
  try (let a0 := fresh "a" in let H := fresh "H" in
       intros a0 H; inversion H; subst; solve [eauto using replaces_trans]);
  try (let r0 := fresh "r" in let Hin := fresh "Hin" in let Hr := fresh "Hr" in
       intros r0 [<-|Hin] Hr;
       solve [eauto using replaces_neg_trans | contradiction]).

(** The entry of [id] after the loop: either the initial one, never beaten,
    or the first row of the group that beats everything before it and is not
    beaten by anything after it. *)
Lemma pick_spec id rows : forall acc rep,
  pick id rows acc = Some rep ->
  (acc = Some rep /\
   forall r, In r rows -> asin r = id -> replaces rep r = false)
  \/
  (exists l1 l2, rows = l1 ++ rep :: l2 /\ asin rep = id /\
     (forall a, acc = Some a -> replaces a rep = true) /\
     (forall r, In r l1 -> asin r = id -> replaces r rep = true) /\
     (forall r, In r l2 -> asin r = id -> replaces rep r = false)).
Proof.
  induction rows as [|r rows IH]; intros acc rep H.
  - left. split; [exact H | intros ? []].
  - rewrite pick_cons in H. apply IH in H. unfold pick_step in H.
    destruct (String.eqb (asin r) id) eqn:E.
    + apply String.eqb_eq in E.
      destruct acc as [a|]; [destruct (replaces a r) eqn:R|];
        destruct H as [[Heq Hall]|(l1 & l2 & -> & Hid & Hacc & Hb & Ha)];
        try (inversion Heq; subst rep).
      * right. exists [], rows. repeat split; pick_side.
      * right. exists (r :: l1), l2. repeat split; pick_side.
      * left. split; pick_side.
      * right. exists (r :: l1), l2. repeat split; pick_side.
      * right. exists [], rows. repeat split; pick_side.
      * right. exists (r :: l1), l2. repeat split; pick_side.
    + apply String.eqb_neq in E.
      destruct H as [[Heq Hall]|(l1 & l2 & -> & Hid & Hacc & Hb & Ha)].
      * left. split; pick_side.
      * right. exists (r :: l1), l2. repeat split; pick_side.
Qed.

Lemma pick_first_best id rows rep :
  pick id rows None = Some rep ->
  exists l1 l2, rows = l1 ++ rep :: l2 /\ asin rep = id /\
     (forall r, In r l1 -> asin r = id -> replaces r rep = true) /\
     (forall r, In r l2 -> asin r = id -> replaces rep r = false).
Proof.
  intros H. apply pick_spec in H.
  destruct H as [[Heq _]|(l1 & l2 & ? & ? & _ & ? & ?)]; [discriminate|].
  exists l1, l2. auto.
Qed.

Lemma pick_Some_stays id rows : forall a,
  exists rep, pick id rows (Some a) = Some rep.
Proof.
  induction rows as [|r rows IH]; intros a; [now exists a|].
  rewrite pick_cons. unfold pick_step.
  destruct (String.eqb (asin r) id); [destruct (replaces a r)|]; apply IH.
Qed.

Lemma pick_None_iff id rows :
  pick id rows None = None <-> forall r, In r rows -> asin r <> id.
Proof.
  induction rows as [|r rows IH].
  - split; [intros _ ? [] | reflexivity].
  - rewrite pick_cons. unfold pick_step.
    destruct (String.eqb (asin r) id) eqn:E.
    + apply String.eqb_eq in E. split.
      * intros H. destruct (pick_Some_stays id rows r) as [rep Hrep]. congruence.
      * intros H. exfalso. apply (H r); [now left | exact E].
    + apply String.eqb_neq in E. rewrite IH. split.
      * intros H r0 [<-|Hin]; auto.
      * intros H r0 Hin. apply H. now right.
Qed.

(** The representative is not beaten by any row of its group. *)
Lemma pick_not_beaten id rows rep :
  pick id rows None = Some rep ->
  forall r, In r rows -> asin r = id -> replaces rep r = false.
Proof.
  intros H r Hin Hr.
  destruct (pick_first_best _ _ _ H) as (l1 & l2 & -> & Hid & Hb & Ha).
  apply in_app_or in Hin. destruct Hin as [Hin|[<-|Hin]].
  - specialize (Hb r Hin Hr). unfold replaces in *.
    destruct (price_yen rep), (price_yen r); try discriminate; auto.
    apply Z.ltb_lt in Hb. apply Z.ltb_ge. lia.
  - apply replaces_irrefl.
  - auto.
Qed.

Lemma pick_In id rows rep :
  pick id rows None = Some rep -> In rep rows /\ asin rep = id.
Proof.
  intros H. destruct (pick_first_best _ _ _ H) as (l1 & l2 & -> & Hid & _).
  split; auto. apply in_or_app. right. now left.
Qed.

Lemma dedupe_In rows rep :
  In rep (_dedupe_by_asin rows) <-> pick (asin rep) rows None = Some rep.
Proof.
  assert (H := dedupe_filter (asin rep) rows). split.
  - intros Hin.
    assert (Hf : In rep (filter (same_asin (asin rep)) (_dedupe_by_asin rows))).
    { apply filter_In. split; auto. apply String.eqb_refl. }
    rewrite H in Hf. destruct (pick (asin rep) rows None); simpl in Hf.
    + destruct Hf as [->|[]]. reflexivity.
    + destruct Hf.
  - intros Hp. rewrite Hp in H.
    assert (Hf : In rep (filter (same_asin (asin rep)) (_dedupe_by_asin rows)))
      by (rewrite H; now left).
    now apply filter_In in Hf.
Qed.

Lemma pick_price_le id rows rep r p :
  pick id rows None = Some rep ->
  In r rows -> asin r = id -> price_yen r = Some p ->
  exists q, price_yen rep = Some q /\ q <= p.
Proof.
  intros H Hin Hid Hp. assert (Hn := pick_not_beaten _ _ _ H r Hin Hid).
  unfold replaces in Hn. rewrite Hp in Hn.
  destruct (price_yen rep) as [q|]; [|discriminate].
  exists q. split; auto. apply Z.ltb_ge in Hn. lia.
Qed.

Lemma pick_exists id rows :
  (exists r, In r rows /\ asin r = id) -> exists rep, pick id rows None = Some rep.
Proof.
  intros (r & Hin & Hid). destruct (pick id rows None) as [rep|] eqn:E; eauto.
  exfalso. rewrite pick_None_iff in E. now apply (E r).
Qed.

(** The price of the representative depends only on the multiset of rows. *)
Lemma pick_price_perm id rows rows' :
  Permutation rows rows' ->
  option_map price_yen (pick id rows None) =
  option_map price_yen (pick id rows' None).
Proof.
  intros HP.
  destruct (pick id rows None) as [a|] eqn:Ea;
    destruct (pick id rows' None) as [b|] eqn:Eb; simpl; auto.
  - destruct (pick_In _ _ _ Ea) as [Ia Ha], (pick_In _ _ _ Eb) as [Ib Hb].
    assert (Ia' : In a rows') by (eapply Permutation_in; eauto).
    assert (Ib' : In b rows) by (eapply Permutation_in; [symmetry|]; eauto).
    f_equal.
    destruct (price_yen a) as [pa|] eqn:Pa, (price_yen b) as [pb|] eqn:Pb; auto.
    + destruct (pick_price_le _ _ _ _ _ Eb Ia' Ha Pa) as (q & Hq & Hle).
      destruct (pick_price_le _ _ _ _ _ Ea Ib' Hb Pb) as (q' & Hq' & Hle').
      rewrite Pb in Hq. rewrite Pa in Hq'. inversion Hq. inversion Hq'.
      f_equal. lia.
    + destruct (pick_price_le _ _ _ _ _ Eb Ia' Ha Pa) as (q & Hq & _). congruence.
    + destruct (pick_price_le _ _ _ _ _ Ea Ib' Hb Pb) as (q & Hq & _). congruence.
  - exfalso. rewrite pick_None_iff in Eb. destruct (pick_In _ _ _ Ea) as [Ia Ha].
    apply (Eb a); auto. eapply Permutation_in; eauto.
  - exfalso. rewrite pick_None_iff in Ea. destruct (pick_In _ _ _ Eb) as [Ib Hb].
    apply (Ea b); auto. eapply Permutation_in; [symmetry|]; eauto.
Qed.

(** C4. De-duplication keeps exactly one representative per identifier
    group (and none for an identifier that does not occur); the
    representative is a row of the group, it has a known price whenever some
    row of the group has one, and its price is minimal among the known prices
    of the group.  In particular, of two rows with the same identifier, one
    priced 5000 and one with unknown price, the 5000 row is kept, in either
    input order. *)
Theorem dedupe_keeps_best_offer :
  (forall rows id,
     (exists r, In r rows /\ asin r = id) ->
     exists rep,
       filter (same_asin id) (_dedupe_by_asin rows) = [rep] /\
       In rep rows /\ asin rep = id /\
       (forall r p, In r rows -> asin r = id -> price_yen r = Some p ->
          exists q, price_yen rep = Some q /\ q <= p)) /\
  (forall rows id,
     (forall r, In r rows -> asin r <> id) ->
     filter (same_asin id) (_dedupe_by_asin rows) = []) /\
  _dedupe_by_asin [ex_5000; ex_unpriced] = [ex_5000] /\
  _dedupe_by_asin [ex_unpriced; ex_5000] = [ex_5000].
Proof.
  split; [|split; [|split; reflexivity]].
  - intros rows id Hex. destruct (pick_exists id rows Hex) as [rep Hrep].
    exists rep. rewrite dedupe_filter, Hrep.
    destruct (pick_In _ _ _ Hrep) as [Hin Hid].
    repeat split; auto.
    intros r p. now apply pick_price_le.
  - intros rows id Hno. rewrite dedupe_filter.
    apply pick_None_iff in Hno. now rewrite Hno.
Qed.

Lemma dedupe_keeps_best_offer_witness :
  exists rep,
    filter (same_asin "B0C1234567") (_dedupe_by_asin [ex_unpriced; ex_5000])
      = [rep] /\
    In rep [ex_unpriced; ex_5000] /\ asin rep = "B0C1234567"%string /\
    (forall r p, In r [ex_unpriced; ex_5000] -> asin r = "B0C1234567"%string ->
       price_yen r = Some p -> exists q, price_yen rep = Some q /\ q <= p).
Proof.
  apply (proj1 dedupe_keeps_best_offer [ex_unpriced; ex_5000] "B0C1234567"%string).
  exists ex_5000. split; [simpl; auto | reflexivity].
Defined.

(** C5 as stated fails: two rows of one identifier that tie on price are
    both candidates, and the one presented first wins. *)
Lemma dedupe_order_counterexample :
  ~ (forall rows rows', Permutation rows rows' ->
     forall id, filter (same_asin id) (_dedupe_by_asin rows) =
                filter (same_asin id) (_dedupe_by_asin rows')).
Proof.
  intros H.
  specialize (H [ex_organic; ex_sponsored] [ex_sponsored; ex_organic]
                (perm_swap _ _ _) "B0D7654321"%string).
  vm_compute in H. discriminate H.
Qed.

(** C5, amended. For every two presentations of the same multiset of rows
    and every identifier, the identifier is represented in both outputs or
    in neither, and the price of its representative is the same. *)
Theorem dedupe_price_order_independent : forall rows rows',
  Permutation rows rows' ->
  forall id,
    map price_yen (filter (same_asin id) (_dedupe_by_asin rows)) =
    map price_yen (filter (same_asin id) (_dedupe_by_asin rows')).
Proof.
  intros rows rows' HP id. rewrite !dedupe_filter.
  assert (H := pick_price_perm id rows rows' HP).
  destruct (pick id rows None), (pick id rows' None); simpl in *;
    congruence.
Qed.

Lemma dedupe_price_order_independent_witness :
  map price_yen (filter (same_asin "B0D7654321")
                   (_dedupe_by_asin [ex_organic; ex_sponsored])) =
  map price_yen (filter (same_asin "B0D7654321")
                   (_dedupe_by_asin [ex_sponsored; ex_organic])).
Proof.
  apply (dedupe_price_order_independent
           [ex_organic; ex_sponsored] [ex_sponsored; ex_organic]).
  apply perm_swap.
Defined.

Lemma replaces_beats a r : replaces a r = true <-> beats r a.
Proof.
  unfold replaces, beats.
  destruct (price_yen a) as [pa|], (price_yen r) as [pr|];
    rewrite ?Z.ltb_lt; split; auto; try discriminate; try contradiction.
Qed.

Lemma beats_not_ties a b : beats a b -> ~ ties b a.
Proof.
  unfold beats, ties.
  destruct (price_yen a) as [pa|], (price_yen b) as [pb|]; auto; lia.
Qed.

(** C10. The representative kept for an identifier is the first row, in
    input order, among the best of its group.  Stated on the prices: every
    earlier row of the same identifier is beaten by the representative (the
    representative has a price, and the earlier row has none or a higher
    one), so no row that ties with it (both prices unknown, or both known
    and equal) precedes it; and no later row of the group beats it, so a
    later row that ties with it has not replaced it. *)
Theorem dedupe_tie_keeps_first : forall rows rep,
  In rep (_dedupe_by_asin rows) ->
  exists l1 l2,
    rows = l1 ++ rep :: l2 /\
    (forall r, In r l1 -> asin r = asin rep -> beats rep r /\ ~ ties r rep) /\
    (forall r, In r l2 -> asin r = asin rep -> ~ beats r rep) /\
    (forall r, In r rows -> asin r = asin rep -> ties r rep -> r = rep \/ In r l2).
Proof.
  intros rows rep Hin. apply dedupe_In in Hin.
  destruct (pick_first_best _ _ _ Hin) as (l1 & l2 & E & _ & Hb & Ha).
  assert (H1 : forall r, In r l1 -> asin r = asin rep -> beats rep r /\ ~ ties r rep).
  { intros r Hr Hid. specialize (Hb r Hr Hid). apply replaces_beats in Hb.
    split; [exact Hb | now apply beats_not_ties]. }
  exists l1, l2. split; [exact E|]. split; [exact H1|]. split.
  - intros r Hr Hid Hbeat. apply replaces_beats in Hbeat.
    rewrite (Ha r Hr Hid) in Hbeat. discriminate.
  - intros r Hr Hid Ht. rewrite E in Hr. apply in_app_or in Hr.
    destruct Hr as [Hr|[<-|Hr]]; auto.
    exfalso. exact (proj2 (H1 r Hr Hid) Ht).
Qed.

Lemma dedupe_tie_keeps_first_witness :
  exists l1 l2,
    [ex_organic; ex_sponsored] = l1 ++ ex_organic :: l2 /\
    (forall r, In r l1 -> asin r = asin ex_organic ->
               beats ex_organic r /\ ~ ties r ex_organic) /\
    (forall r, In r l2 -> asin r = asin ex_organic -> ~ beats r ex_organic) /\
    (forall r, In r [ex_organic; ex_sponsored] -> asin r = asin ex_organic ->
               ties r ex_organic -> r = ex_organic \/ In r l2).
Proof.
  apply (dedupe_tie_keeps_first [ex_organic; ex_sponsored] ex_organic).
  vm_compute. auto.
Defined.

(** The two rows of the example share an identifier and tie on the price;
    whichever comes first is the one kept. *)
Lemma dedupe_tie_example :
  asin ex_organic = asin ex_sponsored /\ ties ex_organic ex_sponsored /\
  _dedupe_by_asin [ex_organic; ex_sponsored] = [ex_organic] /\
  _dedupe_by_asin [ex_sponsored; ex_organic] = [ex_sponsored].
Proof. vm_compute. auto. Qed.

(** ** Retrieval *)

Lemma fetch_loop_nil world i last tr :
  fetch_loop world i [] last tr =
  (tr, match last with Some e => Raise e | None => Raise TypeError end).
Proof. reflexivity. Qed.

Lemma fetch_loop_spec world : forall sched i last tr,
  sched <> [] ->
  exists n,
    (1 <= n <= List.length sched)%nat /\
    fst (fetch_loop world i sched last tr)
      = (tr ++ schedule_events i (firstn n sched))%list /\
    (forall k, (k < n - 1)%nat -> is_retryable (world (i + k)%nat)) /\
    match judge (world (i + n - 1)%nat) with
    | Success body => snd (fetch_loop world i sched last tr) = Ok body
    | Fatal f => snd (fetch_loop world i sched last tr) = Raise f
    | Retryable f =>
        n = List.length sched /\ snd (fetch_loop world i sched last tr) = Raise f
    end.
Proof.
  induction sched as [|wait rest IH]; intros i last tr Hne; [congruence|].
  assert (Hstop : forall res,
            fetch_loop world i (wait :: rest) last tr
              = ((if wait =? 0 then tr else tr ++ [Sleep wait]) ++ [Get i], res)%list ->
            match judge (world i) with
            | Success body => res = Ok body
            | Fatal f => res = Raise f
            | Retryable f => rest = [] /\ res = Raise f
            end ->
            exists n,
              (1 <= n <= List.length (wait :: rest))%nat /\
              fst (fetch_loop world i (wait :: rest) last tr)
                = (tr ++ schedule_events i (firstn n (wait :: rest)))%list /\
              (forall k, (k < n - 1)%nat -> is_retryable (world (i + k)%nat)) /\
              match judge (world (i + n - 1)%nat) with
              | Success body => snd (fetch_loop world i (wait :: rest) last tr) = Ok body
              | Fatal f => snd (fetch_loop world i (wait :: rest) last tr) = Raise f
              | Retryable f =>
                  n = List.length (wait :: rest) /\
                  snd (fetch_loop world i (wait :: rest) last tr) = Raise f
              end).
  { intros res E Hj. exists 1%nat. rewrite E. simpl.
    split; [lia|]. split.
    - destruct (wait =? 0); simpl; [reflexivity | now rewrite <- app_assoc].
    - split; [intros k Hk; lia|].
      replace (i + 1 - 1)%nat with i by lia.
      destruct (judge (world i)); auto. destruct Hj as [-> ->]. auto. }
  assert (Hgo : forall e,
            judge (world i) = Retryable e ->
            fetch_loop world i (wait :: rest) last tr
              = fetch_loop world (S i) rest (Some e)
                  ((if wait =? 0 then tr else tr ++ [Sleep wait]) ++ [Get i])%list ->
            exists n,
              (1 <= n <= List.length (wait :: rest))%nat /\
              fst (fetch_loop world i (wait :: rest) last tr)
                = (tr ++ schedule_events i (firstn n (wait :: rest)))%list /\
              (forall k, (k < n - 1)%nat -> is_retryable (world (i + k)%nat)) /\
              match judge (world (i + n - 1)%nat) with
              | Success body => snd (fetch_loop world i (wait :: rest) last tr) = Ok body
              | Fatal f => snd (fetch_loop world i (wait :: rest) last tr) = Raise f
              | Retryable f =>
                  n = List.length (wait :: rest) /\
                  snd (fetch_loop world i (wait :: rest) last tr) = Raise f
              end).
  { intros e Hj E. destruct rest as [|w2 rest].
    - apply (Hstop (Raise e)); [rewrite E; reflexivity | rewrite Hj; auto].
    - destruct (IH (S i) (Some e)
                  ((if wait =? 0 then tr else tr ++ [Sleep wait]) ++ [Get i])%list
                  ltac:(discriminate)) as (n & Hn & Hf & Hr & Hl).
      exists (S n). rewrite E. split; [simpl List.length in *; lia|]. split.
      + rewrite Hf. cbn [firstn schedule_events].
        destruct (wait =? 0); simpl; rewrite <- !app_assoc; reflexivity.
      + split.
        * intros k Hk. destruct k as [|k].
          -- replace (i + 0)%nat with i by lia. exists e. exact Hj.
          -- replace (i + S k)%nat with (S i + k)%nat by lia. apply Hr. lia.
        * replace (i + S n - 1)%nat with (S i + n - 1)%nat by lia.
          destruct (judge (world (S i + n - 1)%nat)); auto.
          destruct Hl as [-> Hl]. split; auto. }
  destruct (world i) as [resp|[resp|]|name] eqn:Ew.
  - destruct (retry_status (status_code resp)) eqn:Er.
    + apply (Hgo (HTTPError (Some resp))).
      * unfold judge. rewrite ?Ew, ?Er; reflexivity.
      * cbn [fetch_loop]. rewrite ?Ew, ?Er; reflexivity.
    + destruct ((400 <=? status_code resp) && (status_code resp <? 600)) eqn:Es.
      * apply (Hstop (Raise (HTTPError (Some resp)))).
        -- cbn [fetch_loop]. unfold raise_for_status. rewrite ?Ew, ?Er, ?Es; reflexivity.
        -- unfold judge. rewrite ?Ew, ?Er, ?Es; reflexivity.
      * apply (Hstop (Ok (text resp))).
        -- cbn [fetch_loop]. unfold raise_for_status. rewrite ?Ew, ?Er, ?Es; reflexivity.
        -- unfold judge. rewrite ?Ew, ?Er, ?Es; reflexivity.
  - destruct (retry_status (status_code resp)) eqn:Er.
    + apply (Hgo (HTTPError (Some resp))).
      * unfold judge. rewrite ?Ew, ?Er; reflexivity.
      * cbn [fetch_loop]. rewrite ?Ew, ?Er; reflexivity.
    + apply (Hstop (Raise (HTTPError (Some resp)))).
      * cbn [fetch_loop]. rewrite ?Ew, ?Er; reflexivity.
      * unfold judge. rewrite ?Ew, ?Er; reflexivity.
  - apply (Hstop (Raise (HTTPError None))).
    + cbn [fetch_loop]. rewrite ?Ew; reflexivity.
    + unfold judge. rewrite ?Ew; reflexivity.
  - apply (Hgo (OtherException name)).
    + unfold judge. rewrite ?Ew; reflexivity.
    + cbn [fetch_loop]. rewrite ?Ew; reflexivity.
Qed.

Lemma retry_status_In code :
  retry_status code = true <-> In code [408; 429; 503; 504].
Proof.
  unfold retry_status. rewrite !orb_true_iff, !Z.eqb_eq. simpl.
  intuition congruence.
Qed.

Lemma range_test code :
  (400 <=? code) && (code <? 600) = true <-> 400 <= code < 600.
Proof. rewrite andb_true_iff, Z.leb_le, Z.ltb_lt. tauto. Qed.

(** The verdict on an outcome, read over its status. *)
Lemma judge_status o :
  match judge o with
  | Success body => succeeds_with o body
  | Retryable f => retried_on [408; 429; 503; 504] o /\ f = failure_of o
  | Fatal f => aborts_on [408; 429; 503; 504] o /\ f = failure_of o
  end.
Proof.
  unfold judge, retried_on, aborts_on, succeeds_with, transport_failure.
  destruct o as [resp|[resp|]|name].
  - destruct (retry_status (status_code resp)) eqn:Er.
    + apply retry_status_In in Er. split; [|reflexivity].
      right. exists (status_code resp). auto.
    + assert (Hn : ~ In (status_code resp) [408; 429; 503; 504]).
      { intros H. apply retry_status_In in H. congruence. }
      destruct ((400 <=? status_code resp) && (status_code resp <? 600)) eqn:Es.
      * apply range_test in Es. split; [|reflexivity]. split; [exact Es|].
        intros code [= <-]. exact Hn.
      * exists resp. split; [reflexivity|]. split; [|reflexivity].
        intros H. apply range_test in H. congruence.
  - destruct (retry_status (status_code resp)) eqn:Er.
    + apply retry_status_In in Er. split; [|reflexivity].
      right. exists (status_code resp). auto.
    + split; [|reflexivity]. split; [exact I|].
      intros code [= <-] H. apply retry_status_In in H. congruence.
  - split; [|reflexivity]. split; [exact I|]. intros code H. discriminate H.
  - split; [|reflexivity]. left. eauto.
Qed.

(** The three kinds of outcome exclude one another. *)
Lemma outcome_kinds_exclusive statuses o :
  (retried_on statuses o -> ~ aborts_on statuses o) /\
  (forall body, succeeds_with o body ->
     ~ http_error o /\ ~ transport_failure o).
Proof.
  unfold retried_on, aborts_on, succeeds_with, transport_failure. split.
  - intros [(name & ->)|(code & Hc & Hin)] [Hh Hn].
    + exact Hh.
    + exact (Hn code Hc Hin).
  - intros body (resp & -> & Hr & _). split; [exact Hr|].
    intros (name & E). discriminate E.
Qed.

(** C6. With the default waits, for every sequence of request outcomes there
    is an attempt [n] between 1 and 4 at which the run ends: the requests
    and sleeps performed are exactly those of the first [n] attempts of the
    schedule "request 1, sleep 2s, request 2, sleep 5s, request 3, sleep 9s,
    request 4" (no sleep precedes attempt 1); every attempt before [n] was
    a failure that is retried, that is, a transport-level exception or one
    of the statuses 408, 429, 503 and 504; and either attempt [n] succeeded
    and its text is returned, or it was an HTTP error with another status
    (or with no response attached) and that error is raised at once, or
    [n = 4], the fourth attempt was again a failure that is retried, and
    this last failure is raised. *)
Theorem fetch_html_retry_policy : forall world,
  exists n,
    (1 <= n <= 4)%nat /\
    fst (fetch_html world default_sleep_retry) = firstn (2 * n - 1) full_schedule /\
    (forall i, (1 <= i < n)%nat -> retried_on [408; 429; 503; 504] (world i)) /\
    ((exists body,
        succeeds_with (world n) body /\
        snd (fetch_html world default_sleep_retry) = Ok body) \/
     (aborts_on [408; 429; 503; 504] (world n) /\
      snd (fetch_html world default_sleep_retry) = Raise (failure_of (world n))) \/
     (n = 4%nat /\
      retried_on [408; 429; 503; 504] (world n) /\
      snd (fetch_html world default_sleep_retry) = Raise (failure_of (world n)))).
Proof.
  intros world. unfold fetch_html.
  destruct (fetch_loop_spec world default_sleep_retry 1%nat None []
              ltac:(discriminate)) as (n & Hn & Hf & Hr & Hl).
  change (List.length default_sleep_retry) with 4%nat in *.
  exists n. split; [exact Hn|]. split; [|split].
  - rewrite Hf.
    assert (Hc : n = 1%nat \/ n = 2%nat \/ n = 3%nat \/ n = 4%nat) by lia.
    destruct Hc as [->|[->|[->| ->]]]; reflexivity.
  - intros i Hi. destruct (Hr (i - 1)%nat ltac:(lia)) as (f & Hj).
    replace (1 + (i - 1))%nat with i in Hj by lia.
    pose proof (judge_status (world i)) as Hs. rewrite Hj in Hs. apply Hs.
  - replace (1 + n - 1)%nat with n in Hl by lia.
    pose proof (judge_status (world n)) as Hs.
    destruct (judge (world n)) as [body|f|f].
    + left. exists body. auto.
    + right. right. destruct Hl as [-> Hl], Hs as [Hs ->]. auto.
    + right. left. destruct Hs as [Hs ->]. auto.
Qed.

(** A 503 on the first attempt is retried after two seconds; a 404 is raised
    at once; four timeouts raise the last of them. *)
Lemma fetch_html_examples :
  let busy := {| status_code := 503; text := lit "busy" |} in
  let gone := {| status_code := 404; text := lit "gone" |} in
  let page := {| status_code := 200; text := lit "page" |} in
  fetch_html (fun i => match i with 1%nat => Returns busy | _ => Returns page end)
             default_sleep_retry
    = ([Get 1; Sleep 2; Get 2], Ok (lit "page")) /\
  fetch_html (fun _ => Returns gone) default_sleep_retry
    = ([Get 1], Raise (HTTPError (Some gone))) /\
  fetch_html (fun _ => GetRaises "Timeout") default_sleep_retry
    = (full_schedule, Raise (OtherException "Timeout")).
Proof. vm_compute. auto. Qed.

(** ** Totality of the classifiers *)

Lemma fdiv_1024_total x : exists q, fdiv x (Fin 1024 0) = Ok q.
Proof. destruct x; simpl; eauto. Qed.

Lemma div_each_1024_total xs : exists qs, div_each_1024 xs = Ok qs.
Proof.
  induction xs as [|x xs [qs IH]]; simpl; eauto.
  destruct (fdiv_1024_total x) as [q Hq]. rewrite Hq, IH. simpl. eauto.
Qed.

Lemma hdd_extract_total title :
  exists cap0 cap_list, _hdd_extract_capacity_tb title = Ok (cap0, cap_list).
Proof.
  unfold _hdd_extract_capacity_tb.
  destruct (sorted_set _); eauto.
  destruct (sorted_set _) as [|g0 gs]; eauto.
  destruct (fdiv_1024_total g0) as [q Hq].
  destruct (div_each_1024_total (g0 :: gs)) as [qs Hqs].
  rewrite Hq. cbn [bind]. rewrite Hqs. simpl. eauto.
Qed.

Lemma hdd_keyword_rules_reason t nro c r :
  hdd_keyword_rules t nro = Some (c, r) -> r <> ""%string.
Proof.
  unfold hdd_keyword_rules.
  repeat match goal with |- context [if ?b then _ else _] => destruct b end;
    intros H; inversion H; discriminate.
Qed.

Lemma hdd_capacity_rule_reason T cap0 caps c r :
  hdd_capacity_rule T cap0 caps = Some (c, r) -> r <> ""%string.
Proof.
  unfold hdd_capacity_rule.
  destruct (_ <? _)%nat; [intros H; inversion H; discriminate|].
  destruct cap0; [destruct (fgt _ _)|]; intros H; inversion H; discriminate.
Qed.

Lemma hdd_subtype_reason t : snd (hdd_subtype t) <> ""%string.
Proof.
  unfold hdd_subtype.
  repeat match goal with |- context [if ?b then _ else _] => destruct b end;
    discriminate.
Qed.

(** [hdd_classify] never raises and always gives a reason. *)
Lemma hdd_classify_total title target_tb cme nro :
  exists c r, hdd_classify title target_tb cme nro = Ok (c, r) /\ r <> ""%string.
Proof.
  unfold hdd_classify.
  destruct (hdd_keyword_rules title nro) as [[c r]|] eqn:K.
  - exists c, r. split; auto. eapply hdd_keyword_rules_reason; eauto.
  - destruct (hdd_extract_total title) as (cap0 & caps & ->). simpl.
    assert (Hs := hdd_subtype_reason title).
    destruct (hdd_subtype title) as [c0 r0]. simpl in Hs.
    destruct cme, target_tb as [T|]; eauto.
    destruct (hdd_capacity_rule T cap0 caps) as [[c r]|] eqn:R; eauto.
    exists c, r. split; auto. eapply hdd_capacity_rule_reason; eauto.
Qed.

Lemma ssd_keyword_rules_reason t c r :
  ssd_keyword_rules t = Some (c, r) -> r <> ""%string.
Proof.
  unfold ssd_keyword_rules. destruct t; [intros H; inversion H; discriminate|].
  repeat match goal with |- context [if ?b then _ else _] => destruct b end;
    simpl; intros H; inversion H; discriminate.
Qed.

Lemma ssd_capacity_rule_reason tg tt cg ct gbs tbs c r :
  ssd_capacity_rule tg tt cg ct gbs tbs = Ok (Some (c, r)) -> r <> ""%string.
Proof.
  unfold ssd_capacity_rule, bind.
  repeat match goal with
         | |- context [if ?b then _ else _] => destruct b
         | |- context [match ?o with _ => _ end] => destruct o
         end;
    intros H; inversion H; discriminate.
Qed.

Lemma ssd_subtype_reason t : snd (ssd_subtype t) <> ""%string.
Proof.
  unfold ssd_subtype.
  repeat match goal with |- context [if ?b then _ else _] => destruct b end;
    discriminate.
Qed.

(** Whenever [ssd_classify] returns, it returns a non-empty reason. *)
Lemma ssd_classify_reason title tg tt cme c r :
  ssd_classify title tg tt cme = Ok (c, r) -> r <> ""%string.
Proof.
  unfold ssd_classify.
  destruct (ssd_keyword_rules title) as [[c0 r0]|] eqn:K.
  - intros H; inversion H; subst. eapply ssd_keyword_rules_reason; eauto.
  - destruct (extract_capacity_gb_tb title) as [[[[cg ct] gbs] tbs]|]; simpl;
      [|discriminate].
    assert (Hs := ssd_subtype_reason title).
    destruct (ssd_subtype title) as [c1 r1]. simpl in Hs.
    destruct (cme && _).
    + destruct (ssd_capacity_rule tg tt cg ct gbs tbs) as [[[c2 r2]|]|] eqn:R;
        simpl; intros H; inversion H; subst; auto.
      eapply ssd_capacity_rule_reason; eauto.
    + simpl. intros H; inversion H; subst; auto.
Qed.

(** C9, the failing input. A title that passes the keyword rules and states
    a capacity of [10^309] TB makes [ssd_classify] raise [OverflowError],
    whatever the targets and the flag: [float] reads the number as an
    infinity and [round] of line 552 rejects it. *)
Theorem ssd_classify_raises_on_huge_capacity : forall target_gb target_tb cme,
  ssd_classify huge_tb_title target_gb target_tb cme = Raise OverflowError.
Proof.
  intros tg tt cme. unfold ssd_classify.
  replace (ssd_keyword_rules huge_tb_title) with (@None (string * string))
    by (vm_compute; reflexivity).
  replace (extract_capacity_gb_tb huge_tb_title)
    with (@Raise (option Z * option float64 * list Z * list float64) OverflowError)
    by (vm_compute; reflexivity).
  reflexivity.
Qed.

(** ** Rounding *)

Lemma rhe_unique n d q r :
  0 < d -> n = q * d + r -> 0 <= r < d ->
  round_half_even n d =
  match 2 * r ?= d with
  | Lt => q
  | Gt => q + 1
  | Eq => if Z.even q then q else q + 1
  end.
Proof.
  intros Hd Hn Hr. unfold round_half_even.
  assert (Hq : n / d = q) by (symmetry; apply (Z.div_unique n d q r); lia).
  assert (Hm : n mod d = r) by (symmetry; apply (Z.mod_unique n d q r); lia).
  now rewrite Hq, Hm.
Qed.

Lemma rhe_exact q d : 0 < d -> round_half_even (q * d) d = q.
Proof.
  intros Hd. rewrite (rhe_unique (q * d) d q 0); try lia.
  replace (2 * 0) with 0 by lia.
  destruct (Z.compare_spec 0 d); lia.
Qed.

Lemma rhe_scale2 n d : 0 < d -> round_half_even (2 * n) (2 * d) = round_half_even n d.
Proof.
  intros Hd.
  rewrite (rhe_unique (2 * n) (2 * d) (n / d) (2 * (n mod d))).
  - unfold round_half_even.
    destruct (Z.compare_spec (2 * (2 * (n mod d))) (2 * d)),
             (Z.compare_spec (2 * (n mod d)) d); auto; lia.
  - lia.
  - pose proof (Z.div_mod n d). lia.
  - pose proof (Z.mod_pos_bound n d Hd). lia.
Qed.

(** Rounding [a / b] to a multiple of [1 / P] first does not change the
    integer it rounds to, when [P] is even and exceeds [b]. *)
Lemma rhe_twice a b H :
  0 <= a -> 0 < b -> b < 2 * H ->
  round_half_even (round_half_even (a * (2 * H)) b) (2 * H) = round_half_even a b.
Proof.
  intros Ha Hb HP.
  set (q := a / b). set (r := a mod b).
  assert (Hab : a = q * b + r) by (unfold q, r; pose proof (Z.div_mod a b); lia).
  assert (Hr : 0 <= r < b) by (apply Z.mod_pos_bound; lia).
  set (s := (r * (2 * H)) / b). set (t := (r * (2 * H)) mod b).
  assert (Hst : r * (2 * H) = s * b + t)
    by (unfold s, t; pose proof (Z.div_mod (r * (2 * H)) b); lia).
  assert (Ht : 0 <= t < b) by (apply Z.mod_pos_bound; lia).
  clearbody q r s t.
  assert (Hs : 0 <= s < 2 * H) by nia.
  assert (HaP : a * (2 * H) = (q * (2 * H) + s) * b + t) by (subst a; lia).
  rewrite (rhe_unique a b q r Hb Hab Hr).
  rewrite (rhe_unique (a * (2 * H)) b (q * (2 * H) + s) t Hb HaP Ht).
  destruct (Z.compare_spec (2 * r) b) as [E|E|E].
  - (* tie *)
    assert (s = H) by nia. assert (t = 0) by nia. subst s t.
    replace (2 * 0) with 0 in * by lia.
    destruct (Z.compare_spec 0 b); try lia.
    rewrite (rhe_unique _ (2 * H) q H) by lia.
    destruct (Z.compare_spec (2 * H) (2 * H)); try lia; try reflexivity.
  - (* below the half *)
    destruct (Z.compare_spec (2 * t) b) as [E'|E'|E'].
    + destruct (Z.even (q * (2 * H) + s)).
      * rewrite (rhe_unique _ (2 * H) q s) by lia.
        destruct (Z.compare_spec (2 * s) (2 * H)); try nia; try reflexivity.
      * rewrite (rhe_unique _ (2 * H) q (s + 1)) by nia.
        destruct (Z.compare_spec (2 * (s + 1)) (2 * H)); try nia; try reflexivity.
    + rewrite (rhe_unique _ (2 * H) q s) by lia.
      destruct (Z.compare_spec (2 * s) (2 * H)); try nia; try reflexivity.
    + rewrite (rhe_unique _ (2 * H) q (s + 1)) by nia.
      destruct (Z.compare_spec (2 * (s + 1)) (2 * H)); try nia; try reflexivity.
  - (* above the half *)
    assert (Hcase : forall u, (u = s \/ u = s + 1) -> 2 * H < 2 * u -> u <= 2 * H ->
              round_half_even (q * (2 * H) + u) (2 * H) = q + 1).
    { intros u Hu Hlo Hhi. destruct (Z.eq_dec u (2 * H)) as [->|Hne].
      - replace (q * (2 * H) + 2 * H) with ((q + 1) * (2 * H)) by lia.
        apply rhe_exact. lia.
      - rewrite (rhe_unique _ (2 * H) q u) by lia.
        destruct (Z.compare_spec (2 * u) (2 * H)); try lia; try reflexivity. }
    destruct (Z.compare_spec (2 * t) b) as [E'|E'|E'].
    + destruct (Z.even (q * (2 * H) + s)).
      * apply Hcase; auto; nia.
      * rewrite <- Z.add_assoc. apply Hcase; auto; nia.
    + apply Hcase; auto; nia.
    + rewrite <- Z.add_assoc. apply Hcase; auto; nia.
Qed.

Lemma rhe_nonneg n d : 0 <= n -> 0 < d -> 0 <= round_half_even n d.
Proof.
  intros Hn Hd. unfold round_half_even.
  assert (0 <= n / d) by (apply Z.div_pos; lia).
  destruct (_ ?= _); try lia. destruct (Z.even _); lia.
Qed.

(** The same when [a / b] is below a quarter: both roundings give zero. *)
Lemma rhe_twice_tiny a b H :
  0 <= a -> 0 < b -> 4 * a < b -> 1 <= H ->
  round_half_even (round_half_even (a * (2 * H)) b) (2 * H) = round_half_even a b.
Proof.
  intros Ha Hb Hab HH.
  rewrite (rhe_unique a b 0 a) by lia.
  destruct (Z.compare_spec (2 * a) b); try lia.
  set (s := (a * (2 * H)) / b). set (t := (a * (2 * H)) mod b).
  assert (Hst : a * (2 * H) = s * b + t)
    by (unfold s, t; pose proof (Z.div_mod (a * (2 * H)) b); lia).
  assert (Ht : 0 <= t < b) by (apply Z.mod_pos_bound; lia).
  assert (Hs0 : 0 <= s) by (apply Z.div_pos; nia).
  clearbody s t.
  assert (Hs : 2 * s < H) by nia.
  rewrite (rhe_unique (a * (2 * H)) b s t Hb Hst Ht).
  assert (Hz : forall u, 0 <= u -> u < H -> round_half_even u (2 * H) = 0).
  { intros u Hu0 Hu. rewrite (rhe_unique u (2 * H) 0 u) by lia.
    destruct (Z.compare_spec (2 * u) (2 * H)); lia. }
  destruct (Z.compare_spec (2 * t) b).
  - destruct (Z.even s); apply Hz; nia.
  - apply Hz; nia.
  - apply Hz; nia.
Qed.

Lemma binade_lower a d :
  0 < a -> 0 < d ->
  (0 <= binade a d -> d * 2 ^ binade a d <= a) /\
  (binade a d < 0 -> d <= a * 2 ^ (- binade a d)).
Proof.
  intros Ha Hd. unfold binade, below_pow2.
  destruct (Z.log2_spec a Ha) as [La1 La2].
  destruct (Z.log2_spec d Hd) as [Ld1 Ld2].
  pose proof (Z.log2_nonneg a) as Na. pose proof (Z.log2_nonneg d) as Nd.
  unfold Z.succ in *.
  set (la := Z.log2 a) in *. set (ld := Z.log2 d) in *. clearbody la ld.
  destruct (la - ld <? 0) eqn:K0.
  - apply Z.ltb_lt in K0.
    destruct (a * 2 ^ (- (la - ld)) <? d) eqn:B.
    + split; [lia|]. intros _.
      replace (- (la - ld - 1)) with (ld + 1 - la) by lia.
      assert (2 ^ (ld + 1) = 2 ^ la * 2 ^ (ld + 1 - la))
        by (rewrite <- Z.pow_add_r by lia; f_equal; lia).
      assert (0 < 2 ^ (ld + 1 - la)) by (apply Z.pow_pos_nonneg; lia).
      nia.
    + apply Z.ltb_ge in B. split; [lia|]. intros _. lia.
  - apply Z.ltb_ge in K0.
    destruct (a <? d * 2 ^ (la - ld)) eqn:B.
    + assert (E1 : 2 ^ (ld + 1) = 2 * 2 ^ ld)
        by (rewrite Z.pow_add_r by lia; lia).
      split.
      * intros Hk.
        assert (2 ^ la = 2 ^ ld * 2 * 2 ^ (la - ld - 1)).
        { replace (2 ^ ld * 2) with (2 ^ (ld + 1)) by lia.
          rewrite <- Z.pow_add_r by lia. f_equal. lia. }
        assert (0 < 2 ^ (la - ld - 1)) by (apply Z.pow_pos_nonneg; lia).
        nia.
      * intros Hk. assert (la = ld) by lia. subst la.
        replace (- (ld - ld - 1)) with 1 by lia. lia.
    + apply Z.ltb_ge in B. split; [intros _; lia | lia].
Qed.

Lemma rnd_exponent_small a d :
  0 < a < 2 ^ 52 -> 0 < d ->
  -1074 <= rnd_exponent a d <= -1 /\
  (d < 2 ^ (- rnd_exponent a d) \/ 4 * a < d).
Proof.
  intros Ha Hd. unfold rnd_exponent.
  destruct (binade_lower a d) as [Hk1 Hk2]; try lia.
  assert (Hk : binade a d <= 51).
  { unfold binade. pose proof (Z.log2_nonneg d).
    assert (Z.log2 a < 52) by (apply Z.log2_lt_pow2; lia).
    destruct (below_pow2 _ _ _); lia. }
  set (k := binade a d) in *. clearbody k.
  split; [lia|].
  destruct (Z.max_spec (k - 52) (-1074)) as [[Hlt ->]|[Hge ->]].
  - replace (- -1074) with 1074 by lia.
    destruct (Z.lt_ge_cases d (2 ^ 1074)) as [Hl|Hg]; auto.
    right. assert (2 ^ 54 <= 2 ^ 1074) by (apply Z.pow_le_mono_r; lia).
    change (2 ^ 54) with (4 * 2 ^ 52) in *. lia.
  - left. replace (- (k - 52)) with (52 - k) by lia.
    destruct (Z.lt_ge_cases k 0) as [Hn|Hp].
    + specialize (Hk2 Hn).
      assert (2 ^ (52 - k) = 2 ^ 52 * 2 ^ (- k))
        by (rewrite <- Z.pow_add_r by lia; f_equal; lia).
      assert (0 < 2 ^ (- k)) by (apply Z.pow_pos_nonneg; lia).
      nia.
    + specialize (Hk1 Hp).
      assert (2 ^ 52 = 2 ^ k * 2 ^ (52 - k))
        by (rewrite <- Z.pow_add_r by lia; f_equal; lia).
      assert (0 < 2 ^ k) by (apply Z.pow_pos_nonneg; lia).
      assert (0 < 2 ^ (52 - k)) by (apply Z.pow_pos_nonneg; lia).
      nia.
Qed.

(** The quotient of a small non-negative integer by a positive one, rounded
    to a double and then to an integer, is the quotient rounded half to
    even: the first rounding cannot reach or cross a half-integer. *)
Lemma py_round_rnd a b :
  0 <= a < 2 ^ 52 -> 0 < b ->
  exists m e, rnd a b = Fin m e /\ py_round (Fin m e) = Ok (round_half_even a b).
Proof.
  intros Ha Hb. unfold rnd.
  destruct (Z.eqb_spec a 0) as [->|Hne].
  { exists 0, 0. split; auto. simpl. f_equal.
    rewrite (rhe_unique 0 b 0 0) by lia.
    destruct (Z.compare_spec (2 * 0) b); lia. }
  rewrite Z.abs_eq by lia.
  destruct (rnd_exponent_small a b) as [He Hside]; try lia.
  set (e := rnd_exponent a b) in *. clearbody e.
  unfold rnd_significand.
  destruct (Z.ltb_spec e 0) as [_|]; [|lia].
  set (H := 2 ^ (- e - 1)).
  assert (HH : 1 <= H) by (unfold H; apply (Z.pow_le_mono_r 2 0); lia).
  assert (HP : 2 ^ (- e) = 2 * H).
  { unfold H. replace (- e) with (1 + (- e - 1)) at 1 by lia.
    rewrite Z.pow_add_r by lia. reflexivity. }
  rewrite HP in *.
  assert (Htw : round_half_even (round_half_even (a * (2 * H)) b) (2 * H)
                = round_half_even a b).
  { destruct Hside; [apply rhe_twice | apply rhe_twice_tiny]; lia. }
  assert (Hm0 : 0 <= round_half_even (a * (2 * H)) b)
    by (apply rhe_nonneg; nia).
  set (m0 := round_half_even (a * (2 * H)) b) in *. clearbody m0.
  replace (Z.sgn a) with 1 by (symmetry; apply Z.sgn_pos; lia).
  destruct (Z.eqb_spec m0 (2 ^ 53)) as [E53|N53].
  - change (2 ^ 52 =? 0) with false. cbv iota.
    destruct (Z.ltb_spec 971 (e + 1)); [lia|].
    exists (1 * 2 ^ 52), (e + 1). split; auto.
    unfold py_round. f_equal. rewrite <- Htw, E53.
    destruct (Z.ltb_spec (e + 1) 0).
    + replace (- (e + 1)) with (- e - 1) by lia. fold H.
      change (2 ^ 53) with (2 * (1 * 2 ^ 52)).
      now rewrite rhe_scale2 by lia.
    + assert (e = -1) by lia. subst e. unfold H. simpl.
      reflexivity.
  - destruct (Z.eqb_spec m0 0) as [E0|N0].
    + exists 0, 0. split; auto. simpl. f_equal. rewrite <- Htw, E0.
      rewrite (rhe_unique 0 (2 * H) 0 0) by lia.
      destruct (Z.compare_spec (2 * 0) (2 * H)); lia.
    + destruct (Z.ltb_spec 971 e); [lia|].
      exists (1 * m0), e. split; auto.
      unfold py_round. f_equal.
      destruct (Z.ltb_spec e 0); [|lia].
      rewrite HP, Z.mul_1_l. exact Htw.
Qed.

(** ** Summary statistics *)

Lemma truediv_round a b :
  0 <= a < 2 ^ 52 -> 0 < b ->
  (x <- int_truediv a b ;; py_round x) = Ok (round_half_even a b).
Proof.
  intros Ha Hb. unfold int_truediv.
  destruct (Z.eqb_spec b 0); [lia|].
  rewrite Z.sgn_pos, Z.mul_1_l, Z.abs_eq by lia.
  destruct (py_round_rnd a b Ha Hb) as (m & e & -> & Hr). exact Hr.
Qed.

Lemma float_of_int_small n :
  0 <= n < 2 ^ 52 -> exists m e, float_of_int n = Ok (Fin m e).
Proof.
  intros Hn. unfold float_of_int.
  destruct (py_round_rnd n 1 Hn) as (m & e & -> & _); [lia|]. eauto.
Qed.

(** C8 as stated fails: Python's [round] breaks ties towards the even
    integer, so the mean 1000.5 is reported as 1000, not 1001. *)
Lemma stats_avg_counterexample :
  stats_summary [1000; 1001] = Ok (Some (1000, 1000, 1001)) /\
  round_half_up (sum [1000; 1001]) 2 = 1001.
Proof. vm_compute. split; reflexivity. Qed.

(** C8, amended. For every non-empty list of known prices whose sum is
    non-negative and below [2^52], the statistics are the minimum, the
    arithmetic mean rounded to the nearest integer with ties to the even
    one, and the maximum. *)
Theorem stats_summary_avg : forall p ps,
  0 <= sum (p :: ps) < 2 ^ 52 ->
  stats_summary (p :: ps) =
  Ok (Some (py_min p ps,
            round_half_even (sum (p :: ps)) (Z.of_nat (List.length (p :: ps))),
            py_max p ps)).
Proof.
  intros p ps Hs. unfold stats_summary.
  rewrite truediv_round; auto.
  simpl List.length. lia.
Qed.

Lemma stats_summary_avg_witness :
  stats_summary [1000; 1001] = Ok (Some (1000, 1000, 1001)).
Proof.
  apply (stats_summary_avg 1000 [1001]). cbv [sum fold_left]. lia.
Defined.

(** ** The outlier filter *)

Lemma insert_sorted_In x y l : In y (insert_sorted x l) -> y = x \/ In y l.
Proof.
  induction l as [|z l IH]; simpl.
  - intros [->|[]]; auto.
  - destruct (x <=? z); simpl.
    + intros [->|[->|H]]; auto.
    + intros [->|H]; auto. destruct (IH H); auto.
Qed.

Lemma sorted_In y l : In y (sorted l) -> In y l.
Proof.
  induction l as [|x l IH]; simpl; auto.
  intros H. apply insert_sorted_In in H. destruct H as [->|H]; auto.
Qed.

Lemma nth_Forall (P : Z -> Prop) l i :
  Forall P l -> P 0 -> P (nth i l 0).
Proof.
  intros Hl H0. destruct (nth_in_or_default i l 0) as [Hin| ->]; auto.
  rewrite Forall_forall in Hl. auto.
Qed.

(** On prices below [2^51], [calc_median] is the median rounded half to
    even. *)
Lemma calc_median_rounded values :
  values <> [] ->
  Forall (fun p => 0 <= p < 2 ^ 51) values ->
  calc_median values = Ok (median_rounded values).
Proof.
  intros Hne Hall. unfold calc_median, median_rounded.
  destruct values as [|v vs]; [congruence|].
  unfold statistics_median.
  assert (Hs : Forall (fun p => 0 <= p < 2 ^ 51) (sorted (v :: vs))).
  { rewrite Forall_forall in *. intros x Hx. apply Hall. now apply sorted_In. }
  set (data := sorted (v :: vs)) in *. clearbody data.
  destruct (Nat.odd (List.length data)); simpl; auto.
  assert (H0 : 0 <= 0 < 2 ^ 51) by lia.
  pose proof (nth_Forall _ data (List.length data / 2 - 1) Hs H0) as H1.
  pose proof (nth_Forall _ data (List.length data / 2) Hs H0) as H2.
  cbv beta in H1, H2.
  pose proof (truediv_round
                (nth (List.length data / 2 - 1) data 0
                 + nth (List.length data / 2) data 0) 2) as Ht.
  change (2 ^ 52) with (2 * 2 ^ 51) in Ht.
  specialize (Ht ltac:(lia) ltac:(lia)).
  unfold bind in *.
  destruct (int_truediv _ 2); auto.
Qed.

Lemma filter_idem {A} (f : A -> bool) l : filter f (filter f l) = filter f l.
Proof.
  induction l as [|x l IH]; simpl; auto.
  destruct (f x) eqn:E; simpl; rewrite ?E, IH; auto.
Qed.

Lemma known_prices_In p rows :
  In p (known_prices rows) -> exists r, In r rows /\ price_yen r = Some p.
Proof.
  induction rows as [|r rows IH]; simpl; [intros []|].
  destruct (price_yen r) as [q|] eqn:E.
  - intros [->|H]; eauto. destruct (IH H) as (r' & ? & ?); eauto.
  - intros H. destruct (IH H) as (r' & ? & ?); eauto.
Qed.

(** C2 as stated fails: the thresholds are taken from the median rounded
    to an integer.  For the prices 3, 10, 11, 12 and the default ratios the
    median 10.5 is rounded to 10, the low threshold is 3.0 and the item
    priced 3 is kept, although 3 is strictly below 10.5 x 0.3 = 3.15. *)
Lemma outlier_filter_counterexample :
  calc_median (known_prices ex_even_set) = Ok 10 /\
  median_doubled (known_prices ex_even_set) = 21 /\
  outlier_filter false PRICE_LOWER_LIMIT_RATIO PRICE_UPPER_LIMIT_RATIO ex_even_set
    = Ok ex_even_set /\
  filter (within_exact_thresholds PRICE_LOWER_LIMIT_RATIO PRICE_UPPER_LIMIT_RATIO
            (known_prices ex_even_set)) ex_even_set
    = [item "B000000002" (Some 10); item "B000000003" (Some 11);
       item "B000000004" (Some 12)].
Proof. vm_compute. repeat split; reflexivity. Qed.

(** C2, amended. In raw mode the filter is skipped; without a known price
    nothing is dropped; otherwise, for known prices between 0 and [2^51],
    the thresholds are the median rounded half to even to an integer,
    multiplied in double precision by each ratio, and the rows kept are
    exactly, in their order, those whose price is unknown or is neither
    strictly below the low threshold nor strictly above the high one.  For
    the priced set {1000, 1050, 1100, 1080, 9000} and the ratios 0.3 and
    2.5 the median is 1080, the thresholds are 324 and 2700, and the four
    items other than the one priced 9000 remain. *)
Theorem outlier_filter_spec :
  (forall low high items, outlier_filter true low high items = Ok items) /\
  (forall low high items,
     known_prices items = [] -> outlier_filter false low high items = Ok items) /\
  (forall low high items,
     known_prices items <> [] ->
     Forall (fun p => 0 <= p < 2 ^ 51) (known_prices items) ->
     exists thresh_low thresh_high,
       int_mul_float (median_rounded (known_prices items)) low = Ok thresh_low /\
       int_mul_float (median_rounded (known_prices items)) high = Ok thresh_high /\
       outlier_filter false low high items =
       Ok (filter (within_thresholds thresh_low thresh_high) items)) /\
  (forall thresh_low thresh_high r,
     within_thresholds thresh_low thresh_high r = true <->
     (price_yen r = None \/
      exists p, price_yen r = Some p /\
                int_lt_float p thresh_low = false /\
                int_gt_float p thresh_high = false)) /\
  (median_rounded (known_prices ex_priced_set) = 1080 /\
   (exists tl th,
      int_mul_float 1080 PRICE_LOWER_LIMIT_RATIO = Ok tl /\
      int_mul_float 1080 PRICE_UPPER_LIMIT_RATIO = Ok th /\
      feqb tl (Fin 324 0) = true /\ feqb th (Fin 2700 0) = true) /\
   outlier_filter false PRICE_LOWER_LIMIT_RATIO PRICE_UPPER_LIMIT_RATIO ex_priced_set
     = Ok [item "B000000001" (Some 1000); item "B000000002" (Some 1050);
           item "B000000003" (Some 1100); item "B000000004" (Some 1080)]).
Proof.
  split; [|split; [|split; [|split]]].
  - reflexivity.
  - intros low high items H. unfold outlier_filter. now rewrite H.
  - intros low high items Hne Hall. unfold outlier_filter.
    destruct (known_prices items) as [|v vs]; [congruence|].
    rewrite (calc_median_rounded (v :: vs)) by assumption.
    cbn [bind].
    assert (Hmed : 0 <= median_rounded (v :: vs) < 2 ^ 52).
    { assert (Hs : Forall (fun p => 0 <= p < 2 ^ 51) (sorted (v :: vs))).
      { rewrite Forall_forall in *. intros x Hx. apply Hall. now apply sorted_In. }
      unfold median_rounded. set (data := sorted (v :: vs)) in *. clearbody data.
      assert (H0 : 0 <= 0 < 2 ^ 51) by lia.
      pose proof (nth_Forall _ data (List.length data / 2 - 1) Hs H0) as H1.
      pose proof (nth_Forall _ data (List.length data / 2) Hs H0) as H2.
      cbv beta in H1, H2. change (2 ^ 52) with (2 * 2 ^ 51).
      destruct (Nat.odd _); [lia|].
      set (x := nth (List.length data / 2 - 1) data 0) in *.
      set (y := nth (List.length data / 2) data 0) in *. clearbody x y.
      unfold round_half_even.
      pose proof (Z.div_mod (x + y) 2). pose proof (Z.mod_pos_bound (x + y) 2).
      destruct (_ ?= _); [destruct (Z.even _)| |]; lia. }
    unfold int_mul_float.
    destruct (float_of_int_small _ Hmed) as (m & e & ->). cbn [bind].
    eauto.
  - intros tl th r. unfold within_thresholds.
    destruct (price_yen r) as [p|].
    + rewrite andb_true_iff, !negb_true_iff. split.
      * intros [? ?]. right. eauto.
      * intros [H|(q & Hq & ? & ?)]; [discriminate|]. inversion Hq; subst. auto.
    + split; auto.
  - split; [vm_compute; reflexivity|]. split; [|vm_compute; reflexivity].
    eexists _, _. repeat split; vm_compute; reflexivity.
Qed.

Lemma outlier_filter_spec_witness :
  exists tl th,
    int_mul_float (median_rounded (known_prices ex_even_set)) PRICE_LOWER_LIMIT_RATIO
      = Ok tl /\
    int_mul_float (median_rounded (known_prices ex_even_set)) PRICE_UPPER_LIMIT_RATIO
      = Ok th /\
    outlier_filter false PRICE_LOWER_LIMIT_RATIO PRICE_UPPER_LIMIT_RATIO ex_even_set
      = Ok (filter (within_thresholds tl th) ex_even_set).
Proof.
  apply (proj1 (proj2 (proj2 outlier_filter_spec))).
  - discriminate.
  - repeat constructor; lia.
Defined.

(** C3 as stated fails: removing an outlier moves the median, and the
    thresholds with it.  Of the prices 100, 240, 300, 700, 10000 the first
    pass (median 300, thresholds 90 and 750) removes 10000; the second
    (median 270, thresholds 81 and 675) removes 700. *)
Lemma outlier_filter_idempotence_counterexample :
  ~ (forall low high items out,
       outlier_filter false low high items = Ok out ->
       outlier_filter false low high out = Ok out).
Proof.
  intros H.
  specialize (H PRICE_LOWER_LIMIT_RATIO PRICE_UPPER_LIMIT_RATIO ex_skewed_set
                [item "B000000001" (Some 100); item "B000000002" (Some 240);
                 item "B000000003" (Some 300); item "B000000004" (Some 700)]).
  assert (H1 := H ltac:(vm_compute; reflexivity)).
  vm_compute in H1. discriminate H1.
Qed.

(** C3, amended. For every list of items and every pair of ratios,
    applying the filter to its own output with the same ratios removes no
    further item whenever the median recomputed over the surviving items
    is the median of the first pass. *)
Theorem outlier_filter_idempotent_same_median : forall low high items out,
  outlier_filter false low high items = Ok out ->
  calc_median (known_prices out) = calc_median (known_prices items) ->
  outlier_filter false low high out = Ok out.
Proof.
  intros low high items out H Hm. unfold outlier_filter in *.
  destruct (known_prices out) as [|o os] eqn:Eo; auto.
  destruct (known_prices items) as [|v vs] eqn:Ev.
  - inversion H; subst. congruence.
  - rewrite Hm. destruct (calc_median (v :: vs)) as [med|]; [|discriminate].
    cbn [bind] in *.
    destruct (int_mul_float med low) as [tl|]; [|discriminate].
    destruct (int_mul_float med high) as [th|]; [|discriminate].
    cbn [bind] in *. inversion H; subst. now rewrite filter_idem.
Qed.

Lemma outlier_filter_idempotent_same_median_witness :
  outlier_filter false PRICE_LOWER_LIMIT_RATIO PRICE_UPPER_LIMIT_RATIO
    [item "B000000001" (Some 1000); item "B000000002" (Some 1050);
     item "B000000003" (Some 1100)]
  = Ok [item "B000000001" (Some 1000); item "B000000002" (Some 1050);
        item "B000000003" (Some 1100)].
Proof.
  apply (outlier_filter_idempotent_same_median
           PRICE_LOWER_LIMIT_RATIO PRICE_UPPER_LIMIT_RATIO
           [item "B000000001" (Some 1000); item "B000000002" (Some 1050);
            item "B000000003" (Some 1100); item "B000000004" (Some 9000);
            item "B000000005" (Some 100)]);
    vm_compute; reflexivity.
Defined.

(* ================================================================== *)
(** * Part III. Further properties                                      *)
(* ================================================================== *)

(** ** The further functions at work *)

(** Commas are dropped, digits of any script count, the whole-price element
    comes before the yen sign, and a whole price of commas only falls
    through to the yen sign.  A numeral of more than 4300 digits is refused
    by [int] under the default limit. *)
Example extract_price_yen_examples :
  extract_price_yen 4300
    (lit "<span class=" ++ [0x22] ++ lit "a-price-whole" ++ [0x22]
     ++ lit ">12,800<span> ￥9")%list = Some 12800 /\
  extract_price_yen 4300 (lit "￥ 1,980 (税込)") = Some 1980 /\
  extract_price_yen 4300
    (lit "class=" ++ [0x22] ++ lit "a-price-whole" ++ [0x22] ++ lit ">,< ¥１２")%list
    = Some 12 /\
  extract_price_yen 4300 (lit "1,980円") = None /\
  extract_price_yen 4300 (lit "¥" ++ repeat 0x31 4301)%list = None /\
  extract_price_yen 0 (lit "¥" ++ repeat 0x31 4301)%list <> None.
Proof. vm_compute. repeat split; try reflexivity. discriminate. Qed.

Example parse_hit_count_examples :
  parse_hit_count 4300 (lit "検索結果 2,000 以上 のうち 1-16件の結果") = Some 16 /\
  parse_hit_count 4300 (lit "12,345 件の結果") = Some 12345 /\
  parse_hit_count 4300 (lit "結果はありません") = None.
Proof. vm_compute. repeat split; reflexivity. Qed.

(** A block runs from one attribute to the next; the all-zero identifier
    is dropped; the pattern is case-sensitive. *)
Example split_item_blocks_examples :
  split_item_blocks
    (lit "<div " ++ asin_attribute (lit "B0C1234567") ++ lit ">A</div><div "
     ++ asin_attribute (lit "0000000000") ++ lit ">B</div><div "
     ++ asin_attribute (lit "B0D7654321") ++ lit ">C</div>")%list
  = [(lit "B0C1234567",
      (asin_attribute (lit "B0C1234567") ++ lit ">A</div><div ")%list);
     (lit "B0D7654321", (asin_attribute (lit "B0D7654321") ++ lit ">C</div>")%list)] /\
  split_item_blocks (asin_attribute (lit "b0c1234567")) = [] /\
  split_item_blocks (asin_attribute (lit "B0C123456")) = [].
Proof. vm_compute. repeat split; reflexivity. Qed.

(** The first TB number of a query is its target, before any GB number;
    the gauge reads a GB label in TB. *)
Example target_capacity_examples :
  guess_target_capacity_from_query (lit "SSD 500GB 1.5TB 2TB")
    = (None, Some (float_of_decimal 15 1)) /\
  guess_target_capacity_from_query (lit "SSD 512GB 256GB") = (Some 512, None) /\
  guess_target_capacity_from_query (lit "SSD") = (None, None) /\
  _parse_cap_tb (lit "1.5TB") = Ok (float_of_decimal 15 1) /\
  _parse_cap_tb (lit "512GB") = Ok (Fin 4503599627370496 (-53)) /\
  _parse_cap_tb (lit "model 42") = Ok (Fin 5910974510923776 (-47)) /\
  _parse_cap_tb (lit "unknown") = Ok (Fin 0 0).
Proof. vm_compute. repeat split; reflexivity. Qed.

(** Labels are stripped of white space, an empty value is shown as
    [Unknown], and the lines are sorted by code point, capitals first. *)
Example print_group_examples :
  group_label "" = lit "Unknown" /\
  group_label " WD  " = lit "WD" /\
  _print_group brand_guess
    [mkRow "A1" [] (Some 3000) 0 "crucial" "c" "r";
     mkRow "A2" [] (Some 1000) 0 "WD" "c" "r";
     mkRow "A3" [] None 0 "Samsung" "c" "r";
     mkRow "A4" [] (Some 2001) 0 "WD" "c" "r";
     mkRow "A5" [] (Some 500) 0 "" "c" "r"]
  = ([(lit "Unknown", (500, 500, 500), 1%nat);
      (lit "WD", (1000, 1500, 2001), 2%nat);
      (lit "crucial", (3000, 3000, 3000), 1%nat)], Ok tt).
Proof. vm_compute. repeat split; reflexivity. Qed.

(** The HDD side takes the smallest TB number of a title. *)
Example hdd_columns_examples :
  _hdd_extract_capacity_tb (lit "HDD 8TB / 4TB / 8TB")
    = Ok (Some (float_of_decimal 4 0), [float_of_decimal 4 0; float_of_decimal 8 0]) /\
  hdd_extract_iface (lit "WD Blue 3.5インチ 内蔵 SATA3 6Gb/s") = ""%string /\
  hdd_extract_iface (lit "WD Blue 内蔵 SATA 6Gb/s") = "SATA"%string /\
  hdd_extract_form_factor (lit "WD Blue 3.5 inch") = Some (float_of_decimal 35 1).
Proof. vm_compute. repeat split; reflexivity. Qed.

(** ** The matcher against the declarative reading of patterns *)

Lemma last_char_app prev p q :
  last_char prev (p ++ q) = last_char (last_char prev p) q.
Proof. revert prev. induction p; simpl; auto. Qed.

Lemma den_rep_inv a lo hi prev p rest :
  den (RRep a lo hi) prev p rest ->
  Forall (fun c => atom_match a c = true) p /\
  (lo <= List.length p)%nat /\
  (forall h, hi = Some h -> (List.length p <= h)%nat).
Proof. intros D. inversion D; subst. auto. Qed.

Section MatcherFacts.
Context {A : Type}.
Implicit Types (k : option char -> str -> option A).

Lemma match_rep_sound a : forall s lo hi prev k x,
  match_rep a lo hi prev s k = Some x ->
  exists p rest, s = (p ++ rest)%list /\ den (RRep a lo hi) prev p rest /\
                 k (last_char prev p) rest = Some x.
Proof.
  assert (Hstop : forall s lo hi prev k x,
            match lo with O => k prev s | S _ => None end = Some x ->
            exists p rest, s = (p ++ rest)%list /\ den (RRep a lo hi) prev p rest /\
                           k (last_char prev p) rest = Some x).
  { intros s lo hi prev k x H. destruct lo; [|discriminate].
    exists [], s. repeat split; auto. constructor; simpl; auto; lia. }
  induction s as [|c s IH]; intros lo hi prev k x H; simpl in H.
  - now apply Hstop.
  - destruct (atom_match a c && negb match hi with Some O => true | _ => false end)
      eqn:E; [|now apply Hstop].
    destruct (match_rep a (Nat.pred lo) (option_map Nat.pred hi) (Some c) s k)
      as [y|] eqn:M; [|now apply Hstop].
    inversion H; subst y. apply IH in M.
    destruct M as (p & rest & -> & D & K).
    apply andb_true_iff in E. destruct E as [Ea Eh].
    exists (c :: p), rest. repeat split; auto.
    apply den_rep_inv in D. destruct D as (Hall & Hlo & Hhi).
    constructor; simpl.
    + constructor; auto.
    + lia.
    + intros h ->. destruct h; [discriminate|].
      specialize (Hhi h eq_refl). lia.
Qed.

Lemma match_rep_complete a : forall p lo hi prev rest k x,
  den (RRep a lo hi) prev p rest ->
  k (last_char prev p) rest = Some x ->
  exists y, match_rep a lo hi prev (p ++ rest) k = Some y.
Proof.
  assert (Hnil : forall s hi prev k x, k prev s = Some x ->
            exists y, match_rep a 0 hi prev s k = Some y).
  { intros s hi prev k x H. destruct s as [|c s]; simpl; eauto.
    destruct (_ && _); eauto. destruct (match_rep _ _ _ _ _ _); eauto. }
  induction p as [|c p IH]; intros lo hi prev rest k x D K;
    apply den_rep_inv in D; destruct D as (Hall & Hlo & Hhi); simpl in *.
  - assert (lo = 0%nat) by lia. subst. eapply Hnil; eauto.
  - inversion Hall as [|? ? Hc Hall']; subst. rewrite Hc. simpl.
    assert (Hh : match hi with Some 0%nat => true | _ => false end = false).
    { destruct hi as [[|h]|]; auto. specialize (Hhi 0%nat eq_refl). lia. }
    rewrite Hh. simpl.
    destruct (IH (Nat.pred lo) (option_map Nat.pred hi) (Some c) rest k x)
      as [y Hy]; auto.
    + constructor; auto; [lia|].
      intros h Hh'. destruct hi as [h0|]; [|discriminate].
      simpl in Hh'. inversion Hh'; subst. specialize (Hhi h0 eq_refl). lia.
    + rewrite Hy. eauto.
Qed.

Lemma rmatch_sound : forall r prev s k x,
  rmatch r prev s k = Some x ->
  exists p rest, s = (p ++ rest)%list /\ den r prev p rest /\
                 k (last_char prev p) rest = Some x.
Proof.
  induction r; intros prev s k x H; simpl in H.
  - exists [], s. repeat split; auto. constructor.
  - destruct s as [|c s]; [discriminate|].
    destruct (atom_match a c) eqn:E; [|discriminate].
    exists [c], s. repeat split; auto. now constructor.
  - apply IHr1 in H. destruct H as (p1 & s1 & -> & D1 & H).
    apply IHr2 in H. destruct H as (p2 & rest & -> & D2 & H).
    exists (p1 ++ p2)%list, rest. rewrite <- app_assoc, last_char_app.
    repeat split; auto. now constructor.
  - destruct (rmatch r1 prev s k) as [y|] eqn:M.
    + inversion H; subst y. apply IHr1 in M.
      destruct M as (p & rest & -> & D & K). exists p, rest.
      repeat split; auto. now apply den_alt_l.
    + apply IHr2 in H. destruct H as (p & rest & -> & D & K). exists p, rest.
      repeat split; auto. now apply den_alt_r.
  - destruct (rmatch r prev s k) as [y|] eqn:M.
    + inversion H; subst y. apply IHr in M.
      destruct M as (p & rest & -> & D & K). exists p, rest.
      repeat split; auto. now apply den_opt_some.
    + exists [], s. repeat split; auto. apply den_opt_none.
  - now apply match_rep_sound.
  - destruct (at_word_boundary prev s) eqn:E; [|discriminate].
    exists [], s. repeat split; auto. now constructor.
Qed.

Lemma rmatch_complete : forall r prev p rest,
  den r prev p rest ->
  forall k x, k (last_char prev p) rest = Some x ->
  exists y, rmatch r prev (p ++ rest) k = Some y.
Proof.
  induction 1; intros k x K; simpl in *.
  - eauto.
  - rewrite H. eauto.
  - rewrite last_char_app in K. rewrite <- app_assoc.
    destruct (IHden2 k x K) as [y Hy].
    apply (IHden1 (fun p s' => rmatch r2 p s' k) y Hy).
  - destruct (IHden k x K) as [y ->]. eauto.
  - destruct (rmatch r1 prev (p ++ rest) k); eauto.
  - destruct (IHden k x K) as [y ->]. eauto.
  - destruct (rmatch r prev rest k); eauto.
  - eapply match_rep_complete; eauto. now constructor.
  - rewrite H. eauto.
Qed.
End MatcherFacts.

Lemma matches_here_iff r prev s :
  matches_here r prev s = true <->
  exists p rest, s = (p ++ rest)%list /\ den r prev p rest.
Proof.
  unfold matches_here. split.
  - destruct (rmatch r prev s (fun _ _ => Some tt)) eqn:M; [|discriminate].
    intros _. apply rmatch_sound in M. destruct M as (p & rest & ? & ? & _). eauto.
  - intros (p & rest & -> & D).
    destruct (rmatch_complete r prev p rest D (fun _ _ => Some tt) tt eq_refl)
      as [y ->]. reflexivity.
Qed.

Lemma search_from_iff r : forall s prev,
  search_from r prev s = true <->
  exists l p rest, s = (l ++ p ++ rest)%list /\ den r (last_char prev l) p rest.
Proof.
  induction s as [|c s IH]; intros prev; simpl; rewrite orb_true_iff, matches_here_iff.
  - split.
    + intros [(p & rest & E & D)|H]; [|discriminate]. exists [], p, rest. auto.
    + intros (l & p & rest & E & D). left.
      destruct l; [|discriminate]. simpl in *. eauto.
  - rewrite IH. split.
    + intros [(p & rest & E & D)|(l & p & rest & E & D)].
      * exists [], p, rest. auto.
      * exists (c :: l), p, rest. simpl. split; [congruence | auto].
    + intros (l & p & rest & E & D). destruct l as [|c' l]; simpl in *.
      * left. eauto.
      * right. inversion E; subst. eauto.
Qed.

(** The matcher decides the declarative semantics. *)
Lemma search_iff r t : search r t = true <-> occurs r t.
Proof. apply search_from_iff. Qed.

(** ** Keyword lists *)

Lemma den_eps_inv prev p rest : den REps prev p rest -> p = [].
Proof. intros D. now inversion D. Qed.

Lemma den_atom_inv a prev p rest :
  den (RAtom a) prev p rest -> exists c, p = [c] /\ atom_match a c = true.
Proof. intros D. inversion D; subst. eauto. Qed.

Lemma den_seq_inv r1 r2 prev p rest :
  den (RSeq r1 r2) prev p rest ->
  exists p1 p2, p = (p1 ++ p2)%list /\ den r1 prev p1 (p2 ++ rest) /\
                den r2 (last_char prev p1) p2 rest.
Proof. intros D. inversion D; subst. eauto. Qed.

Lemma den_alt_inv r1 r2 prev p rest :
  den (RAlt r1 r2) prev p rest -> den r1 prev p rest \/ den r2 prev p rest.
Proof. intros D. inversion D; subst; auto. Qed.

Lemma den_opt_inv r prev p rest :
  den (ROpt r) prev p rest -> den r prev p rest \/ p = [].
Proof. intros D. inversion D; subst; auto. Qed.

Lemma den_literal cs : forall prev p rest,
  den (fold_right (fun c r => RSeq (RAtom (AChar c)) r) REps cs) prev p rest <->
  same_ignoring_case p cs.
Proof.
  unfold same_ignoring_case.
  induction cs as [|c cs IH]; intros prev p rest; simpl.
  - split.
    + intros D. apply den_eps_inv in D. subst. constructor.
    + intros H. inversion H; subst. constructor.
  - split.
    + intros D. apply den_seq_inv in D. destruct D as (p1 & p2 & -> & D1 & D2).
      apply den_atom_inv in D1. destruct D1 as (x & -> & Hx). simpl. constructor.
      * simpl in Hx. now apply Z.eqb_eq in Hx.
      * eapply IH; eauto.
    + intros H. inversion H as [|x ? p' ? Hx Hp]; subst.
      change (x :: p') with ([x] ++ p')%list. constructor.
      * constructor. simpl. now apply Z.eqb_eq.
      * apply IH. exact Hp.
Qed.

Lemma den_L w prev p rest : den (L w) prev p rest <-> same_ignoring_case p (lit w).
Proof. apply den_literal. Qed.

Lemma den_alts rs prev p rest :
  rs <> [] ->
  (den (alts rs) prev p rest <-> exists r, In r rs /\ den r prev p rest).
Proof.
  induction rs as [|r rs IH]; [congruence|]. intros _.
  destruct rs as [|r' rs].
  - simpl. split; [eauto | intros (r0 & [<-|[]] & D); auto].
  - change (alts (r :: r' :: rs)) with (RAlt r (alts (r' :: rs))). split.
    + intros D. apply den_alt_inv in D. destruct D as [D|D].
      * exists r. split; [now left | auto].
      * apply IH in D; [|discriminate]. destruct D as (r0 & Hin & D0).
        exists r0. split; [now right | auto].
    + intros (r0 & [<-|Hin] & D0).
      * now apply den_alt_l.
      * apply den_alt_r. apply IH; [discriminate | eauto].
Qed.

(** A pattern built from a list of words matches the titles that contain
    one of the words, in any letter case. *)
Lemma search_words ws t :
  ws <> [] ->
  (search (words ws) t = true <-> exists w, In w ws /\ contains_word t w).
Proof.
  intros Hne. rewrite search_iff. unfold occurs, words, contains_word.
  assert (Hm : map L ws <> []) by (destruct ws; [congruence | discriminate]).
  split.
  - intros (l & p & rest & E & D). apply den_alts in D; auto.
    destruct D as (r & Hin & D). apply in_map_iff in Hin.
    destruct Hin as (w & <- & Hw). apply den_L in D. exists w. split; eauto.
  - intros (w & Hw & l & p & rest & E & S). exists l, p, rest. split; auto.
    apply den_alts; auto. exists (L w). split; [now apply in_map | now apply den_L].
Qed.

(** ** Rule precedence in the classifiers *)

Lemma contains_word_nonempty t w : lit w <> [] -> contains_word t w -> t <> [].
Proof.
  intros Hw (l & p & rest & -> & S) E.
  apply app_eq_nil in E. destruct E as [_ E].
  apply app_eq_nil in E. destruct E as [-> _].
  inversion S. congruence.
Qed.

Lemma words_nonempty ws :
  forallb (fun w => negb (Nat.eqb (List.length (lit w)) 0)) ws = true ->
  forall t, (exists w, In w ws /\ contains_word t w) -> t <> [].
Proof.
  intros H t (w & Hw & Hc). rewrite forallb_forall in H. specialize (H w Hw).
  eapply contains_word_nonempty; eauto. intros E. rewrite E in H. discriminate.
Qed.

Lemma ssd_keyword_rules_inv t c r :
  ssd_keyword_rules t = Some (c, r) ->
  (c = "accessory"%string /\ t <> [] /\ search _SSD_ACCESSORY_RE t = true) \/
  (c = "pc_device"%string /\ t <> [] /\ search _SSD_ACCESSORY_RE t = false /\
   search _SSD_PC_RE t = true) \/
  c = "other"%string.
Proof.
  unfold ssd_keyword_rules. destruct t as [|c0 t]; [intros H; inversion H; auto|].
  destruct (search _SSD_ACCESSORY_RE (c0 :: t)) eqn:Ea.
  { intros H; inversion H; subst. left. repeat split; auto. discriminate. }
  destruct (search _SSD_PC_RE (c0 :: t)) eqn:Ep.
  { intros H; inversion H; subst. right; left. repeat split; auto. discriminate. }
  repeat match goal with |- context [if ?b then _ else _] => destruct b end;
    simpl; intros H; inversion H; auto.
Qed.

Lemma ssd_capacity_rule_other tg tt cg ct gbs tbs c r :
  ssd_capacity_rule tg tt cg ct gbs tbs = Ok (Some (c, r)) ->
  c = "other"%string /\
  In r ["multi-capacity listing"; "no capacity"; "capacity mismatch"]%string.
Proof.
  unfold ssd_capacity_rule, bind.
  repeat match goal with
         | |- context [if ?b then _ else _] => destruct b
         | |- context [match ?o with _ => _ end] => destruct o
         end;
    intros H; inversion H; subst; simpl; auto.
Qed.

Lemma ssd_subtype_drive t :
  In (fst (ssd_subtype t))
     ["drive_external"; "drive_internal_nvme"; "drive_internal_sata"]%string.
Proof.
  unfold ssd_subtype.
  repeat match goal with |- context [if ?b then _ else _] => destruct b end;
    simpl; auto.
Qed.

(** What [ssd_classify] does once the keyword rules let the title through. *)
Lemma ssd_classify_passed t tg tt cme c r :
  ssd_keyword_rules t = None ->
  ssd_classify t tg tt cme = Ok (c, r) ->
  (c = "other"%string /\
   In r ["multi-capacity listing"; "no capacity"; "capacity mismatch"]%string) \/
  (c, r) = ssd_subtype t.
Proof.
  intros Hk. unfold ssd_classify. rewrite Hk.
  destruct (extract_capacity_gb_tb t) as [[[[cg ct] gbs] tbs]|]; simpl;
    [|discriminate].
  destruct (cme && _).
  - destruct (ssd_capacity_rule tg tt cg ct gbs tbs) as [[[c2 r2]|]|] eqn:R;
      simpl; intros H; inversion H; subst; auto.
    left. eapply ssd_capacity_rule_other; eauto.
  - simpl. intros H; inversion H; subst; auto.
Qed.

(** X1. Accessory and PC keywords decide before anything else is looked at:
    whatever the targets and the flag, [ssd_classify] answers [accessory]
    exactly for the titles that contain an accessory word (in any letter
    case), and [pc_device] exactly for those that contain no accessory word
    but a PC word.  Neither answer depends on the numbers in the title, so
    neither can raise. *)
Theorem ssd_keyword_precedence : forall title target_gb target_tb cme,
  ((exists r, ssd_classify title target_gb target_tb cme = Ok ("accessory", r)%string)
   <-> (exists w, In w SSD_ACCESSORY_WORDS /\ contains_word title w)) /\
  ((exists r, ssd_classify title target_gb target_tb cme = Ok ("pc_device", r)%string)
   <-> (~ (exists w, In w SSD_ACCESSORY_WORDS /\ contains_word title w) /\
        exists w, In w SSD_PC_WORDS /\ contains_word title w)).
Proof.
  intros t tg tt cme.
  assert (Ha : search _SSD_ACCESSORY_RE t = true <->
               exists w, In w SSD_ACCESSORY_WORDS /\ contains_word t w)
    by (apply search_words; discriminate).
  assert (Hp : search _SSD_PC_RE t = true <->
               exists w, In w SSD_PC_WORDS /\ contains_word t w)
    by (apply search_words; discriminate).
  assert (Hsub : fst (ssd_subtype t) <> "accessory"%string /\
                 fst (ssd_subtype t) <> "pc_device"%string).
  { pose proof (ssd_subtype_drive t) as H. simpl in H.
    split; intros E; rewrite E in H;
      repeat (destruct H as [H|H]; try discriminate); auto. }
  assert (Hinv : forall c, (c = "accessory" \/ c = "pc_device")%string ->
            forall r, ssd_classify t tg tt cme = Ok (c, r) ->
            ssd_keyword_rules t = Some (c, r)).
  { intros c Hc r H. destruct (ssd_keyword_rules t) as [[c0 r0]|] eqn:K.
    - unfold ssd_classify in H. rewrite K in H. congruence.
    - exfalso. destruct (ssd_classify_passed _ _ _ _ _ _ K H) as [[-> _]|E].
      + destruct Hc; discriminate.
      + rewrite <- E in Hsub. simpl in Hsub. destruct Hsub.
        destruct Hc; subst; congruence. }
  split; split.
  - intros [r H]. apply Hinv in H; auto.
    apply ssd_keyword_rules_inv in H.
    destruct H as [(_ & _ & H)|[(H & _)|H]]; try discriminate. now apply Ha.
  - intros H. assert (Hne : t <> [])
      by (apply (words_nonempty SSD_ACCESSORY_WORDS); [vm_compute|]; auto).
    apply Ha in H. exists "accessory keyword"%string.
    unfold ssd_classify, ssd_keyword_rules. destruct t; [congruence|].
    now rewrite H.
  - intros [r H]. apply Hinv in H; auto.
    apply ssd_keyword_rules_inv in H.
    destruct H as [(H & _)|[(_ & Hne & Hna & Hpc)|H]]; try discriminate.
    repeat split; auto.
    + intros Hc. apply Ha in Hc. congruence.
    + now apply Hp.
  - intros (Hna & Hpc). assert (Hne : t <> [])
      by (apply (words_nonempty SSD_PC_WORDS); [vm_compute|]; auto).
    apply Hp in Hpc.
    assert (Hf : search _SSD_ACCESSORY_RE t = false).
    { destruct (search _SSD_ACCESSORY_RE t) eqn:E; auto.
      exfalso. apply Hna. now apply Ha. }
    exists "pc/device keyword"%string.
    unfold ssd_classify, ssd_keyword_rules. destruct t; [congruence|].
    now rewrite Hf, Hpc.
Qed.

Lemma hdd_keyword_rules_inv t nro c r :
  hdd_keyword_rules t nro = Some (c, r) ->
  (nro = true /\ c = "other"%string) \/
  (nro = false /\ c = "accessory"%string /\ search _HDD_ACCESSORY_RE t = true) \/
  (nro = false /\ c = "nas_device"%string /\ search _HDD_ACCESSORY_RE t = false /\
   search _HDD_NAS_RE t = true /\
   search (words ["NAS向け"; "NAS用"; "NAS向けHDD"; "NAS 用"]%string) t = false) \/
  (nro = false /\ c = "other"%string).
Proof.
  unfold hdd_keyword_rules.
  change (alts [L "NAS向け"; L "NAS用"; L "NAS向けHDD"; L "NAS 用"]%string)
    with (words ["NAS向け"; "NAS用"; "NAS向けHDD"; "NAS 用"]%string).
  destruct nro; [intros H; inversion H; auto|].
  destruct (search _HDD_ACCESSORY_RE t) eqn:Ea.
  { intros H; inversion H; subst. right; left. auto. }
  destruct (search _HDD_NAS_RE t) eqn:En;
    destruct (search (words _) t) eqn:Eq; cbn [andb negb];
    try (intros H; inversion H; subst; right; right; left; repeat split; auto; fail);
    destruct (_ && _); intros H; inversion H; subst; right; right; right; auto.
Qed.

Lemma hdd_capacity_rule_other T cap0 caps c r :
  hdd_capacity_rule T cap0 caps = Some (c, r) ->
  c = "other"%string /\
  In r ["multi-capacity listing"; "no capacity"; "capacity mismatch"]%string.
Proof.
  unfold hdd_capacity_rule.
  destruct (_ <? _)%nat; [intros H; inversion H; simpl; auto|].
  destruct cap0; [destruct (fgt _ _)|]; intros H; inversion H; simpl; auto.
Qed.

Lemma hdd_subtype_cases t :
  In (fst (hdd_subtype t)) ["drive_external"; "drive_internal"; "other"]%string.
Proof.
  unfold hdd_subtype.
  repeat match goal with |- context [if ?b then _ else _] => destruct b end;
    simpl; auto.
Qed.

Lemma hdd_classify_passed t tt cme nro :
  hdd_keyword_rules t nro = None ->
  (exists r, hdd_classify t tt cme nro = Ok ("other", r)%string /\
     In r ["multi-capacity listing"; "no capacity"; "capacity mismatch"]%string) \/
  hdd_classify t tt cme nro = Ok (hdd_subtype t).
Proof.
  intros Hk. unfold hdd_classify. rewrite Hk.
  destruct (hdd_extract_total t) as (cap0 & caps & ->). simpl.
  destruct cme, tt as [T|]; auto.
  destruct (hdd_capacity_rule T cap0 caps) as [[c r]|] eqn:R; auto.
  left. apply hdd_capacity_rule_other in R. destruct R as [-> R]. eauto.
Qed.

(** X2. In [hdd_classify] the no-eligible-offer signal decides first, then the
    accessory words, then the NAS appliance words unless a "for NAS"
    qualifier is present: whatever the target and the flag, the answer is
    [accessory] exactly for the titles without the signal that contain an
    accessory word, and [nas_device] exactly for those without the signal
    and without an accessory word that contain a NAS appliance word and no
    qualifier. *)
Theorem hdd_keyword_precedence : forall title target_tb cme no_offer,
  (no_offer = true ->
   hdd_classify title target_tb cme no_offer
     = Ok ("other", "no recommended offer")%string) /\
  ((exists r, hdd_classify title target_tb cme no_offer = Ok ("accessory", r)%string)
   <-> (no_offer = false /\
        exists w, In w HDD_ACCESSORY_WORDS /\ contains_word title w)) /\
  ((exists r, hdd_classify title target_tb cme no_offer = Ok ("nas_device", r)%string)
   <-> (no_offer = false /\
        ~ (exists w, In w HDD_ACCESSORY_WORDS /\ contains_word title w) /\
        (exists w, In w HDD_NAS_DEVICE_WORDS /\ contains_word title w) /\
        ~ (exists w, In w ["NAS向け"; "NAS用"; "NAS向けHDD"; "NAS 用"]%string
                     /\ contains_word title w))).
Proof.
  intros t tt cme nro.
  assert (Ha : search _HDD_ACCESSORY_RE t = true <->
               exists w, In w HDD_ACCESSORY_WORDS /\ contains_word t w)
    by (apply search_words; discriminate).
  assert (Hn : search _HDD_NAS_RE t = true <->
               exists w, In w HDD_NAS_DEVICE_WORDS /\ contains_word t w)
    by (apply search_words; discriminate).
  assert (Hq : search (words ["NAS向け"; "NAS用"; "NAS向けHDD"; "NAS 用"]%string) t = true <->
               exists w, In w ["NAS向け"; "NAS用"; "NAS向けHDD"; "NAS 用"]%string
                         /\ contains_word t w)
    by (apply search_words; discriminate).
  assert (Hinv : forall c, (c = "accessory" \/ c = "nas_device")%string ->
            forall r, hdd_classify t tt cme nro = Ok (c, r) ->
            hdd_keyword_rules t nro = Some (c, r)).
  { intros c Hc r H. destruct (hdd_keyword_rules t nro) as [[c0 r0]|] eqn:K.
    - unfold hdd_classify in H. rewrite K in H. congruence.
    - exfalso. destruct (hdd_classify_passed t tt cme nro K) as [(r1 & E & _)|E];
        rewrite E in H.
      + inversion H; subst. destruct Hc; discriminate.
      + inversion H as [Hs']. pose proof (hdd_subtype_cases t) as Hs.
        rewrite Hs' in Hs. simpl in Hs.
        destruct Hc; subst;
          repeat (destruct Hs as [Hs|Hs]; try discriminate); auto. }
  split; [|split; split].
  - intros ->. reflexivity.
  - intros [r H]. apply Hinv in H; auto. apply hdd_keyword_rules_inv in H.
    destruct H as [(_ & H)|[(Hn0 & _ & H)|[(_ & H & _)|(_ & H)]]];
      try discriminate.
    split; auto. now apply Ha.
  - intros (-> & H). apply Ha in H. exists "accessory keyword"%string.
    unfold hdd_classify, hdd_keyword_rules. now rewrite H.
  - intros [r H]. apply Hinv in H; auto. apply hdd_keyword_rules_inv in H.
    destruct H as [(_ & H)|[(_ & H & _)|[(Hn0 & _ & H1 & H2 & H3)|(_ & H)]]];
      try discriminate.
    repeat split; auto.
    + intros Hc. apply Ha in Hc. congruence.
    + now apply Hn.
    + intros Hc. apply Hq in Hc. congruence.
  - intros (-> & Hna & Hnas & Hnq). apply Hn in Hnas.
    assert (Hf : search _HDD_ACCESSORY_RE t = false).
    { destruct (search _HDD_ACCESSORY_RE t) eqn:E; auto.
      exfalso. apply Hna. now apply Ha. }
    assert (Hg : search (words ["NAS向け"; "NAS用"; "NAS向けHDD"; "NAS 用"]%string) t = false).
    { destruct (search (words _) t) eqn:E; auto. exfalso. apply Hnq. now apply Hq. }
    exists "NAS device keyword"%string.
    unfold hdd_classify, hdd_keyword_rules. rewrite Hf, Hnas.
    change (alts [L "NAS向け"; L "NAS用"; L "NAS向けHDD"; L "NAS 用"]%string)
      with (words ["NAS向け"; "NAS用"; "NAS向けHDD"; "NAS 用"]%string).
    now rewrite Hg.
Qed.

Lemma hdd_keyword_precedence_witness :
  hdd_classify (lit "WD Red 4TB NAS HDD") None true true
    = Ok ("other", "no recommended offer")%string.
Proof.
  apply (proj1 (hdd_keyword_precedence (lit "WD Red 4TB NAS HDD") None true true)).
  reflexivity.
Defined.

(** ** Categories and the effect of the capacity check *)

(** X3. The categories are a fixed set per drive kind: [ssd_classify], when it
    returns, gives one of six categories and a non-empty reason;
    [hdd_classify] always returns, with one of five categories and a
    non-empty reason. *)
Theorem classifier_categories :
  (forall title target_gb target_tb cme c r,
     ssd_classify title target_gb target_tb cme = Ok (c, r) ->
     In c ["other"; "accessory"; "pc_device"; "drive_external";
           "drive_internal_nvme"; "drive_internal_sata"]%string /\
     r <> ""%string) /\
  (forall title target_tb cme no_offer,
     exists c r,
       hdd_classify title target_tb cme no_offer = Ok (c, r) /\
       In c ["other"; "accessory"; "nas_device"; "drive_external";
             "drive_internal"]%string /\
       r <> ""%string).
Proof.
  split.
  - intros t tg tt cme c r H. split; [|eapply ssd_classify_reason; eauto].
    destruct (ssd_keyword_rules t) as [[c0 r0]|] eqn:K.
    + assert (E : (c0, r0) = (c, r))
        by (unfold ssd_classify in H; rewrite K in H; congruence).
      inversion E; subst. apply ssd_keyword_rules_inv in K.
      destruct K as [(-> & _)|[(-> & _)| ->]]; simpl; auto.
    + destruct (ssd_classify_passed _ _ _ _ _ _ K H) as [[-> _]|E];
        [simpl; auto|].
      pose proof (ssd_subtype_drive t) as Hs. rewrite <- E in Hs. simpl in *.
      tauto.
  - intros t tt cme nro.
    destruct (hdd_classify_total t tt cme nro) as (c & r & H & Hr).
    exists c, r. repeat split; auto.
    destruct (hdd_keyword_rules t nro) as [[c0 r0]|] eqn:K.
    + assert (E : (c0, r0) = (c, r))
        by (unfold hdd_classify in H; rewrite K in H; congruence).
      inversion E; subst. apply hdd_keyword_rules_inv in K.
      destruct K as [(_ & ->)|[(_ & -> & _)|[(_ & -> & _)|(_ & ->)]]];
        simpl; auto.
    + destruct (hdd_classify_passed t tt cme nro K) as [(r1 & E & _)|E];
        rewrite E in H; inversion H as [Hs]; subst; [simpl; auto|].
      pose proof (hdd_subtype_cases t) as Hc. rewrite Hs in Hc. simpl in *.
      tauto.
Qed.

Lemma classifier_categories_witness :
  In "drive_internal_nvme"%string
     ["other"; "accessory"; "pc_device"; "drive_external";
      "drive_internal_nvme"; "drive_internal_sata"]%string /\
  "nvme/m.2 hints"%string <> ""%string.
Proof.
  apply (proj1 classifier_categories
           (lit "Samsung 970 EVO Plus 1TB NVMe M.2 SSD") None (Some (Fin 1 0)) true).
  vm_compute. reflexivity.
Defined.

(** X4. Disabling capacity matching, or knowing no target, makes the result
    independent of the targets; enabling it never changes a result except
    into [other] with one of the three capacity reasons. *)
Theorem capacity_check_only_downgrades :
  (forall title target_gb target_tb,
     ssd_classify title target_gb target_tb false
       = ssd_classify title None None true) /\
  (forall title target_gb target_tb c r,
     ssd_classify title target_gb target_tb true = Ok (c, r) ->
     ssd_classify title target_gb target_tb false = Ok (c, r) \/
     (c = "other"%string /\
      In r ["multi-capacity listing"; "no capacity"; "capacity mismatch"]%string)) /\
  (forall title target_tb no_offer,
     hdd_classify title target_tb false no_offer
       = hdd_classify title None true no_offer) /\
  (forall title target_tb no_offer c r,
     hdd_classify title target_tb true no_offer = Ok (c, r) ->
     hdd_classify title target_tb false no_offer = Ok (c, r) \/
     (c = "other"%string /\
      In r ["multi-capacity listing"; "no capacity"; "capacity mismatch"]%string)).
Proof.
  split; [|split; [|split]].
  - intros t tg tt. unfold ssd_classify.
    destruct (ssd_keyword_rules t); auto.
  - intros t tg tt c r. unfold ssd_classify.
    destruct (ssd_keyword_rules t) as [[c0 r0]|]; auto.
    destruct (extract_capacity_gb_tb t) as [[[[cg ct] gbs] tbs]|]; simpl;
      [|discriminate].
    destruct (negb (is_none tt) || negb (is_none tg)); simpl; auto.
    destruct (ssd_capacity_rule tg tt cg ct gbs tbs) as [[[c2 r2]|]|] eqn:R;
      simpl; [|auto|discriminate].
    intros H; inversion H; subst. right. eapply ssd_capacity_rule_other; eauto.
  - intros t tt nro. unfold hdd_classify.
    destruct (hdd_keyword_rules t nro); auto.
  - intros t tt nro c r. unfold hdd_classify.
    destruct (hdd_keyword_rules t nro) as [[c0 r0]|]; auto.
    destruct (_hdd_extract_capacity_tb t) as [[cap0 caps]|]; simpl; [|discriminate].
    destruct tt as [T|]; auto.
    destruct (hdd_capacity_rule T cap0 caps) as [[c2 r2]|] eqn:R; auto.
    intros H; inversion H; subst. right. eapply hdd_capacity_rule_other; eauto.
Qed.

Lemma capacity_check_only_downgrades_witness :
  ssd_classify (lit "SSD 900GB") None (Some (Fin 1 0)) false
    = Ok ("other", "capacity mismatch")%string \/
  ("other"%string = "other"%string /\
   In "capacity mismatch"%string
      ["multi-capacity listing"; "no capacity"; "capacity mismatch"]%string).
Proof.
  apply (proj1 (proj2 capacity_check_only_downgrades)
           (lit "SSD 900GB") None (Some (Fin 1 0))).
  vm_compute. reflexivity.
Defined.

(** X5. [ssd_classify] can raise only through a TB number in the title or
    through a target: for a title in which [TB_RE] finds nothing, with
    capacity matching disabled or no target known, it returns. *)
Theorem ssd_classify_returns_without_tb : forall title target_gb target_tb cme,
  finditer_group1 TB_RE_group TB_RE_rest title = [] ->
  cme = false \/ (target_gb = None /\ target_tb = None) ->
  exists c r, ssd_classify title target_gb target_tb cme = Ok (c, r).
Proof.
  intros t tg tt cme Htb Hoff. unfold ssd_classify.
  destruct (ssd_keyword_rules t) as [[c r]|]; eauto.
  unfold extract_capacity_gb_tb. rewrite Htb. simpl.
  destruct (ssd_subtype t) as [c r].
  destruct Hoff as [->|[-> ->]]; simpl; [eauto|].
  destruct cme; simpl; eauto.
Qed.

Lemma ssd_classify_returns_without_tb_witness :
  exists c r, ssd_classify (lit "SSD 512GB SATA") (Some 512) None false = Ok (c, r).
Proof.
  apply ssd_classify_returns_without_tb; [vm_compute; reflexivity | now left].
Defined.

(** ** The numbers that [TB_RE] and [GB_RE] capture *)

Lemma firstn_app_length {A} (p s : list A) :
  firstn (List.length (p ++ s) - List.length s) (p ++ s) = p.
Proof.
  rewrite length_app, Nat.add_sub.
  rewrite firstn_app, Nat.sub_diag, firstn_all. simpl. apply app_nil_r.
Qed.

Lemma match_group_sound g rest prev s grp n :
  match_group g rest prev s = Some (grp, n) ->
  exists p2 rest', s = (grp ++ p2 ++ rest')%list /\ den g prev grp (p2 ++ rest').
Proof.
  unfold match_group. intros H. apply rmatch_sound in H.
  destruct H as (p1 & s1 & -> & D1 & H). apply rmatch_sound in H.
  destruct H as (p2 & rest' & -> & D2 & H). inversion H; subst.
  rewrite firstn_app_length. eauto.
Qed.

Lemma finditer_from_sound g rest : forall s prev skip grp,
  In grp (finditer_from g rest prev s skip) ->
  exists prev' rest', den g prev' grp rest'.
Proof.
  induction s as [|c s IH]; intros prev skip grp; simpl.
  - destruct skip; [|intros []].
    destruct (match_group g rest prev []) as [[g0 n]|] eqn:M; [|intros []].
    intros [<-|[]]. apply match_group_sound in M.
    destruct M as (p2 & rest' & _ & D). eauto.
  - destruct skip; [|apply IH].
    destruct (match_group g rest prev (c :: s)) as [[g0 n]|] eqn:M; [|apply IH].
    intros [<-|Hin]; [|eapply IH; eauto].
    apply match_group_sound in M. destruct M as (p2 & rest' & _ & D). eauto.
Qed.

Lemma search_group1_finditer g rest : forall s prev,
  search_group1_from g rest prev s = hd_error (finditer_from g rest prev s 0).
Proof.
  induction s as [|c s IH]; intros prev; simpl.
  - now destruct (match_group g rest prev []) as [[g0 n]|].
  - destruct (match_group g rest prev (c :: s)) as [[g0 n]|]; auto.
Qed.

Lemma digit_value_range c : 0 <= digit_value c <= 9.
Proof.
  unfold digit_value. destruct (find _ _); [|lia].
  pose proof (Z.mod_pos_bound (c - fst p) 10). lia.
Qed.

Lemma digits_value_spec s : forall acc,
  Forall (fun c => is_digit c = true) s ->
  exists v, digits_value acc s = Some (acc * 10 ^ Z.of_nat (List.length s) + v) /\
            0 <= v < 10 ^ Z.of_nat (List.length s).
Proof.
  induction s as [|c s IH]; intros acc Hall.
  - exists 0. simpl. split; [f_equal; lia | lia].
  - inversion Hall as [|? ? Hc Hs]; subst.
    destruct (IH (10 * acc + digit_value c) Hs) as (v & E & Hv).
    cbn [digits_value]. rewrite Hc, E.
    pose proof (digit_value_range c).
    exists (digit_value c * 10 ^ Z.of_nat (List.length s) + v).
    replace (Z.of_nat (List.length (c :: s))) with (Z.of_nat (List.length s) + 1)
      by (simpl List.length; lia).
    rewrite Z.pow_add_r by lia. split; [f_equal; lia | nia].
Qed.

Lemma py_int_of_str_digits s :
  s <> [] -> Forall (fun c => is_digit c = true) s ->
  exists n, py_int_of_str s = Ok n /\ 0 <= n < 10 ^ Z.of_nat (List.length s).
Proof.
  intros Hne Hall. destruct (digits_value_spec s 0 Hall) as (v & E & Hv).
  exists v. split; auto. unfold py_int_of_str.
  destruct s as [|c s]; [congruence|]. rewrite E. now rewrite Z.mul_0_l.
Qed.

Lemma split_at_dot_digits d s :
  Forall (fun c => is_digit c = true) d ->
  split_at_dot (d ++ 0x2E :: s) = (d, Some s).
Proof.
  induction d as [|c d IH]; intros Hall; simpl; auto.
  inversion Hall as [|? ? Hc Hd]; subst.
  destruct (Z.eqb_spec c 46) as [->|_]; [discriminate Hc|].
  now rewrite IH.
Qed.

Lemma split_at_dot_no_dot d :
  Forall (fun c => is_digit c = true) d -> split_at_dot d = (d, None).
Proof.
  induction d as [|c d IH]; intros Hall; simpl; auto.
  inversion Hall as [|? ? Hc Hd]; subst.
  destruct (Z.eqb_spec c 46) as [->|_]; [discriminate Hc|].
  now rewrite IH.
Qed.

Lemma fold_case_dot c : fold_case c = 0x2E -> c = 0x2E.
Proof.
  unfold fold_case.
  repeat match goal with
         | |- context [if ?b then _ else _] => destruct b eqn:?
         end; try lia; try discriminate.
Qed.

Lemma rnd_nonnegative n d : 0 <= n -> 0 < d -> nonnegative (rnd n d).
Proof.
  intros Hn Hd. unfold rnd. destruct (Z.eqb_spec n 0); [simpl; lia|].
  rewrite Z.abs_eq by lia. rewrite Z.sgn_pos by lia.
  assert (Hm : 0 <= rnd_significand n d (rnd_exponent n d)).
  { unfold rnd_significand. destruct (Z.ltb_spec (rnd_exponent n d) 0).
    - apply rhe_nonneg; auto.
      assert (0 <= 2 ^ (- rnd_exponent n d)) by (apply Z.pow_nonneg; lia). nia.
    - apply rhe_nonneg; [lia|].
      assert (0 < 2 ^ rnd_exponent n d) by (apply Z.pow_pos_nonneg; lia). nia. }
  destruct (_ =? 2 ^ 53).
  - change (2 ^ 52 =? 0) with false. cbv iota beta.
    destruct (971 <? _); simpl; [lia | lia].
  - destruct (_ =? 0); [simpl; lia|].
    destruct (971 <? _); simpl; [lia|].
    destruct (rnd_significand n d (rnd_exponent n d)); simpl; lia.
Qed.

(** Whatever [TB_RE] captures is a numeral that [float] reads, as a
    non-negative number. *)
Lemma tb_group_numeral prev grp rest :
  den TB_RE_group prev grp rest ->
  exists x, py_float_of_str grp = Ok x /\ nonnegative x.
Proof.
  unfold TB_RE_group. intros D. apply den_seq_inv in D.
  destruct D as (d1 & o & -> & D1 & D2).
  apply den_rep_inv in D1. destruct D1 as (H1 & L1 & _).
  assert (N1 : d1 <> []) by (destruct d1; [simpl in L1; lia | discriminate]).
  destruct (py_int_of_str_digits d1 N1 H1) as (n & En & Hn).
  apply den_opt_inv in D2. destruct D2 as [D2| ->].
  - apply den_seq_inv in D2. destruct D2 as (dot & d2 & -> & Dd & D2).
    change (L ".") with (RSeq (RAtom (AChar 0x2E)) REps) in Dd.
    apply den_seq_inv in Dd. destruct Dd as (a & e & -> & Da & De).
    apply den_atom_inv in Da. destruct Da as (c & -> & Hc).
    apply den_eps_inv in De. subst e. simpl in Hc.
    apply Z.eqb_eq in Hc. change (fold_case 46) with 46 in Hc.
    apply fold_case_dot in Hc. subst c.
    apply den_rep_inv in D2. destruct D2 as (H2 & L2 & _).
    assert (N2 : d2 <> []) by (destruct d2; [simpl in L2; lia | discriminate]).
    destruct (py_int_of_str_digits d2 N2 H2) as (f & Ef & Hf).
    unfold py_float_of_str. simpl app. rewrite split_at_dot_digits by auto.
    rewrite En, Ef. simpl. eexists. split; [reflexivity|].
    apply rnd_nonnegative; [|apply Z.pow_pos_nonneg; lia].
    assert (0 <= 10 ^ Z.of_nat (List.length d2)) by (apply Z.pow_nonneg; lia).
    nia.
  - rewrite app_nil_r. unfold py_float_of_str.
    rewrite split_at_dot_no_dot by auto. rewrite En. simpl.
    eexists. split; [reflexivity|]. apply rnd_nonnegative; lia.
Qed.

(** Whatever [GB_RE] captures is a numeral of two to five digits. *)
Lemma gb_group_numeral prev grp rest :
  den GB_RE_group prev grp rest ->
  exists n, py_int_of_str grp = Ok n /\ 0 <= n <= 99999.
Proof.
  unfold GB_RE_group. intros D. apply den_rep_inv in D.
  destruct D as (H & Llo & Lhi). specialize (Lhi 5%nat eq_refl).
  assert (N : grp <> []) by (destruct grp; [simpl in Llo; lia | discriminate]).
  destruct (py_int_of_str_digits grp N H) as (n & En & Hn).
  exists n. split; auto.
  assert (10 ^ Z.of_nat (List.length grp) <= 10 ^ 5)
    by (apply Z.pow_le_mono_r; lia).
  lia.
Qed.

Lemma collect_all {A} (conv : str -> result A) (P : A -> Prop) groups :
  (forall g, In g groups -> exists x, conv g = Ok x /\ P x) ->
  List.length (collect conv groups) = List.length groups /\
  Forall P (collect conv groups) /\
  hd_error (collect conv groups) =
  match hd_error groups with
  | Some g => match conv g with Ok x => Some x | Raise _ => None end
  | None => None
  end.
Proof.
  unfold collect.
  assert (G : forall groups acc,
            (forall g, In g groups -> exists x, conv g = Ok x /\ P x) ->
            exists xs, fold_left (fun xs g => match conv g with
                                              | Ok x => (xs ++ [x])%list
                                              | Raise _ => xs
                                              end) groups acc = (acc ++ xs)%list /\
                       List.length xs = List.length groups /\ Forall P xs /\
                       hd_error xs = match hd_error groups with
                                     | Some g => match conv g with
                                                 | Ok x => Some x
                                                 | Raise _ => None
                                                 end
                                     | None => None
                                     end).
  { clear groups. induction groups as [|g gs IH]; intros acc Hc; simpl.
    - exists []. rewrite app_nil_r. auto.
    - destruct (Hc g (or_introl eq_refl)) as (x & Ex & Px). rewrite Ex.
      destruct (IH (acc ++ [x])%list (fun g' Hg' => Hc g' (or_intror Hg')))
        as (xs & E & Hl & Hf & _).
      exists (x :: xs). rewrite E, <- app_assoc. simpl. repeat split; auto. }
  intros Hc. destruct (G groups [] Hc) as (xs & E & Hl & Hf & Hh).
  rewrite E. simpl. auto.
Qed.

Lemma tb_groups_convert t :
  forall g, In g (finditer_group1 TB_RE_group TB_RE_rest t) ->
  exists x, py_float_of_str g = Ok x /\ nonnegative x.
Proof.
  intros g Hin. apply finditer_from_sound in Hin.
  destruct Hin as (prev & rest & D). eapply tb_group_numeral; eauto.
Qed.

Lemma gb_groups_convert t :
  forall g, In g (finditer_group1 GB_RE_group GB_RE_rest t) ->
  exists n, py_int_of_str g = Ok n /\ 0 <= n <= 99999.
Proof.
  intros g Hin. apply finditer_from_sound in Hin.
  destruct Hin as (prev & rest & D). eapply gb_group_numeral; eauto.
Qed.

(** X6. No number that the patterns find is lost: the [except] clauses around
    [float()] and [int()] never fire, so there are as many TB values as
    matches of [TB_RE] and as many GB values as matches of [GB_RE]; every GB
    value lies between 0 and 99999 and every TB value is non-negative. *)
Theorem extraction_keeps_every_match : forall title cap_gb cap_tb gb_list tb_list,
  extract_capacity_gb_tb title = Ok (cap_gb, cap_tb, gb_list, tb_list) ->
  List.length tb_list
    = List.length (finditer_group1 TB_RE_group TB_RE_rest title) /\
  List.length gb_list
    = List.length (finditer_group1 GB_RE_group GB_RE_rest title) /\
  Forall (fun g => 0 <= g <= 99999) gb_list /\
  Forall nonnegative tb_list.
Proof.
  intros t cg ct gbs tbs H.
  destruct (collect_all py_float_of_str nonnegative _ (tb_groups_convert t))
    as (L1 & F1 & _).
  destruct (collect_all py_int_of_str (fun g => 0 <= g <= 99999) _
              (gb_groups_convert t)) as (L2 & F2 & _).
  unfold extract_capacity_gb_tb in H.
  destruct (collect py_float_of_str _) as [|x xs] eqn:Et.
  - inversion H; subst. repeat split; assumption.
  - destruct (py_round _); inversion H; subst. repeat split; assumption.
Qed.

Lemma extraction_keeps_every_match_witness :
  List.length [Fin 4503599627370496 (-52); Fin 4503599627370496 (-51)]
    = List.length (finditer_group1 TB_RE_group TB_RE_rest
                     (lit "SSD 1TB / 2TB / 500GB")) /\
  List.length [500]
    = List.length (finditer_group1 GB_RE_group GB_RE_rest
                     (lit "SSD 1TB / 2TB / 500GB")) /\
  Forall (fun g => 0 <= g <= 99999) [500] /\
  Forall nonnegative [Fin 4503599627370496 (-52); Fin 4503599627370496 (-51)].
Proof.
  apply (extraction_keeps_every_match (lit "SSD 1TB / 2TB / 500GB")
           (Some 1024) (Some (Fin 4503599627370496 (-52)))).
  vm_compute. reflexivity.
Defined.

Lemma hd_error_In {A} (l : list A) x : hd_error l = Some x -> In x l.
Proof. destruct l; simpl; [discriminate|]. intros [= ->]. now left. Qed.

(** X7. The target of a query is the first TB number in it and, when there is
    none, the first GB number: the same numbers, in the same order, that
    [extract_capacity_gb_tb] collects from a title. *)
Theorem guess_target_is_first_number : forall ktext,
  guess_target_capacity_from_query ktext =
  match collect py_float_of_str (finditer_group1 TB_RE_group TB_RE_rest ktext) with
  | x :: _ => (None, Some x)
  | [] =>
      (hd_error (collect py_int_of_str
                   (finditer_group1 GB_RE_group GB_RE_rest ktext)), None)
  end.
Proof.
  intros ktext. destruct ktext as [|c k]; [vm_compute; reflexivity|].
  unfold guess_target_capacity_from_query, search_group1.
  rewrite !search_group1_finditer. fold (finditer_group1 TB_RE_group TB_RE_rest (c :: k)).
  fold (finditer_group1 GB_RE_group GB_RE_rest (c :: k)).
  set (t := c :: k).
  destruct (collect_all py_float_of_str nonnegative _ (tb_groups_convert t))
    as (_ & _ & Ht).
  destruct (collect_all py_int_of_str (fun g => 0 <= g <= 99999) _
              (gb_groups_convert t)) as (_ & _ & Hg).
  assert (G : match hd_error (finditer_group1 GB_RE_group GB_RE_rest t) with
              | Some g => match py_int_of_str g with
                          | Ok n => (Some n, @None float64)
                          | Raise _ => (None, None)
                          end
              | None => (None, None)
              end
              = (hd_error (collect py_int_of_str
                             (finditer_group1 GB_RE_group GB_RE_rest t)), None)).
  { rewrite Hg. destruct (hd_error (finditer_group1 GB_RE_group GB_RE_rest t)); auto.
    destruct (py_int_of_str s); auto. }
  rewrite G. clear G Hg.
  destruct (hd_error (finditer_group1 TB_RE_group TB_RE_rest t)) as [g|] eqn:Hd.
  - destruct (tb_groups_convert t g (hd_error_In _ _ Hd)) as (x & Ex & _).
    rewrite Ex in *. destruct (collect py_float_of_str _); simpl in Ht; congruence.
  - destruct (collect py_float_of_str _); simpl in Ht; congruence.
Qed.

(** ** More on de-duplication *)

Lemma existsb_eqb_In k (ks : list string) :
  existsb (String.eqb k) ks = true <-> In k ks.
Proof.
  rewrite existsb_exists. split.
  - intros (x & Hin & E). apply String.eqb_eq in E. now subst.
  - intros Hin. exists k. split; auto. apply String.eqb_refl.
Qed.

Lemma dedupe_step_keys d r :
  PyDict.keys (dedupe_step d r) =
  if existsb (String.eqb (asin r)) (PyDict.keys d) then PyDict.keys d
  else (PyDict.keys d ++ [asin r])%list.
Proof.
  unfold dedupe_step.
  destruct (PyDict.get (asin r) d) as [a|] eqn:G.
  - assert (Hin : In (asin r) (PyDict.keys d)).
    { destruct (in_dec string_dec (asin r) (PyDict.keys d)) as [?|Hn]; auto.
      apply get_None_keys in Hn. congruence. }
    apply existsb_eqb_In in Hin. rewrite Hin.
    destruct (replaces a r); auto. rewrite keys_set, G. reflexivity.
  - rewrite keys_set, G. apply get_None_keys in G.
    destruct (existsb _ _) eqn:E; auto. apply existsb_eqb_In in E. contradiction.
Qed.

Lemma dedupe_fold_keys rows : forall d,
  PyDict.keys (fold_left dedupe_step rows d) =
  fold_left (fun seen k => if existsb (String.eqb k) seen then seen
                           else (seen ++ [k])%list) (map asin rows) (PyDict.keys d).
Proof.
  induction rows as [|r rows IH]; intros d; simpl; auto.
  rewrite IH, dedupe_step_keys. reflexivity.
Qed.

Lemma wf_values_keys (d : PyDict.t row) :
  (forall k v, In (k, v) d -> asin v = k) ->
  map asin (PyDict.values d) = PyDict.keys d.
Proof.
  induction d as [|[k v] d IH]; simpl; auto.
  intros H. f_equal; [apply H; now left|]. apply IH. intros; apply H; now right.
Qed.

Lemma best_wf_nil : best_wf [].
Proof. split; [constructor | intros ? ? []]. Qed.

Lemma dedupe_asins rows :
  map asin (_dedupe_by_asin rows) = PyDict.keys (fold_left dedupe_step rows []).
Proof.
  unfold _dedupe_by_asin. apply wf_values_keys.
  apply (dedupe_fold_wf rows [] best_wf_nil).
Qed.

Lemma dedupe_NoDup rows : NoDup (map asin (_dedupe_by_asin rows)).
Proof.
  rewrite dedupe_asins. apply (dedupe_fold_wf rows [] best_wf_nil).
Qed.

Lemma dedupe_subset rows r : In r (_dedupe_by_asin rows) -> In r rows.
Proof. intros H. apply dedupe_In in H. now apply pick_In in H. Qed.

Lemma set_absent {V} k (v : V) d :
  PyDict.get k d = None -> PyDict.set k v d = (d ++ [(k, v)])%list.
Proof.
  induction d as [|[k' v'] d IH]; simpl; auto.
  destruct (String.eqb k k'); [discriminate|]. intros H. now rewrite IH.
Qed.

Lemma dedupe_fold_distinct rows : forall d,
  NoDup (PyDict.keys d ++ map asin rows) ->
  fold_left dedupe_step rows d = (d ++ map (fun r => (asin r, r)) rows)%list.
Proof.
  induction rows as [|r rows IH]; intros d Hnd; simpl.
  - now rewrite app_nil_r.
  - assert (G : PyDict.get (asin r) d = None).
    { apply get_None_keys. intros Hin. simpl in Hnd.
      apply NoDup_remove_2 in Hnd. apply Hnd. apply in_or_app. now left. }
    unfold dedupe_step at 2. rewrite G, (set_absent _ _ _ G), IH.
    + now rewrite <- app_assoc.
    + unfold PyDict.keys. rewrite map_app. simpl. rewrite <- app_assoc. exact Hnd.
Qed.

Lemma dedupe_distinct rows :
  NoDup (map asin rows) -> _dedupe_by_asin rows = rows.
Proof.
  intros H. unfold _dedupe_by_asin. rewrite dedupe_fold_distinct by exact H.
  simpl. unfold PyDict.values. rewrite map_map. simpl. apply map_id.
Qed.

(** X8. The output lists every identifier once, in the order in which the
    identifiers first occur in the input; every output row is an input
    row. *)
Theorem dedupe_first_appearance_order : forall rows,
  map asin (_dedupe_by_asin rows) = first_occurrences (map asin rows) /\
  NoDup (map asin (_dedupe_by_asin rows)) /\
  (forall r, In r (_dedupe_by_asin rows) -> In r rows).
Proof.
  intros rows. split; [|split].
  - rewrite dedupe_asins. apply (dedupe_fold_keys rows []).
  - apply dedupe_NoDup.
  - apply dedupe_subset.
Qed.

Lemma dedupe_first_appearance_order_witness : In ex_5000 [ex_unpriced; ex_5000].
Proof.
  apply (proj2 (proj2 (dedupe_first_appearance_order [ex_unpriced; ex_5000]))).
  vm_compute. now left.
Defined.

(** X9. Rows whose identifiers are pairwise distinct pass unchanged, so that
    de-duplicating twice is the same as de-duplicating once. *)
Theorem dedupe_idempotent :
  (forall rows, NoDup (map asin rows) -> _dedupe_by_asin rows = rows) /\
  (forall rows, _dedupe_by_asin (_dedupe_by_asin rows) = _dedupe_by_asin rows).
Proof.
  split; [exact dedupe_distinct|].
  intros rows. apply dedupe_distinct, dedupe_NoDup.
Qed.

Lemma dedupe_idempotent_witness :
  _dedupe_by_asin ex_priced_set = ex_priced_set.
Proof.
  apply (proj1 dedupe_idempotent).
  repeat constructor; simpl; intuition discriminate.
Defined.

(** ** The post-processing pipeline *)

Lemma NoDup_map_filter {A B} (f : A -> B) (p : A -> bool) l :
  NoDup (map f l) -> NoDup (map f (filter p l)).
Proof.
  induction l as [|x l IH]; simpl; auto.
  intros H. inversion H as [|? ? Hn Hl]; subst.
  destruct (p x); simpl; auto. constructor; auto.
  intros Hin. apply Hn. apply in_map_iff in Hin.
  destruct Hin as (y & E & Hy). apply filter_In in Hy.
  apply in_map_iff. exists y. tauto.
Qed.

Lemma outlier_filter_cases raw lo hi rows out :
  outlier_filter raw lo hi rows = Ok out ->
  out = rows \/ exists tl th, out = filter (within_thresholds tl th) rows.
Proof.
  unfold outlier_filter. destruct raw; [intros [= <-]; auto|].
  destruct (known_prices rows); [intros [= <-]; auto|].
  destruct (calc_median _); simpl; [|discriminate].
  destruct (int_mul_float _ lo); simpl; [|discriminate].
  destruct (int_mul_float _ hi); simpl; [|discriminate].
  intros [= <-]. eauto.
Qed.

(** X10. What reaches the CSV file: rows of the input with pairwise distinct
    identifiers; outside raw mode they all have a category [drive_*], and a
    retained row without a price is never removed by the outlier filter; in
    raw mode nothing but the de-duplication is applied. *)
Theorem postprocess_rows : forall raw lo hi rows out,
  postprocess raw lo hi rows = Ok out ->
  NoDup (map asin out) /\
  (forall r, In r out ->
     In r rows /\ (raw = false -> is_drive_category (category r) = true)) /\
  (forall r, In r (_dedupe_by_asin rows) -> price_yen r = None ->
     is_drive_category (category r) = true -> In r out) /\
  (raw = true -> out = _dedupe_by_asin rows).
Proof.
  intros raw lo hi rows out H. unfold postprocess in H.
  assert (Hc : forall r, In r (category_filter raw (_dedupe_by_asin rows)) <->
                 In r (_dedupe_by_asin rows) /\
                 (raw || is_drive_category (category r) = true)).
  { intros r. unfold category_filter. apply filter_In. }
  assert (Hn : NoDup (map asin (category_filter raw (_dedupe_by_asin rows)))).
  { apply NoDup_map_filter, dedupe_NoDup. }
  assert (Hraw : raw = true -> out = _dedupe_by_asin rows).
  { intros ->. unfold outlier_filter, category_filter in H. simpl in H.
    inversion H. clear. induction (_dedupe_by_asin rows); simpl; congruence. }
  apply outlier_filter_cases in H.
  destruct H as [->|(tl & th & ->)]; (split; [|split; [|split]]); auto.
  - intros r Hin. apply Hc in Hin. destruct Hin as [Hin Hd].
    split; [now apply dedupe_subset|]. intros ->. exact Hd.
  - intros r Hin Hp Hd. apply Hc. split; auto. rewrite Hd. apply orb_true_r.
  - now apply NoDup_map_filter.
  - intros r Hin. apply filter_In in Hin. destruct Hin as [Hin _].
    apply Hc in Hin. destruct Hin as [Hin Hd].
    split; [now apply dedupe_subset|]. intros ->. exact Hd.
  - intros r Hin Hp Hd. apply filter_In. split.
    + apply Hc. split; auto. rewrite Hd. apply orb_true_r.
    + unfold within_thresholds. now rewrite Hp.
Qed.

Lemma postprocess_rows_witness :
  NoDup (map asin (firstn 4 ex_priced_set)) /\
  (forall r, In r (firstn 4 ex_priced_set) ->
     In r ex_priced_set /\ (false = false -> is_drive_category (category r) = true)) /\
  (forall r, In r (_dedupe_by_asin ex_priced_set) -> price_yen r = None ->
     is_drive_category (category r) = true -> In r (firstn 4 ex_priced_set)) /\
  (false = true -> firstn 4 ex_priced_set = _dedupe_by_asin ex_priced_set).
Proof.
  apply (postprocess_rows false PRICE_LOWER_LIMIT_RATIO PRICE_UPPER_LIMIT_RATIO).
  vm_compute. reflexivity.
Defined.

(** ** Sorting, the median and the order of the rows *)

Lemma insert_sorted_comm x y l :
  insert_sorted x (insert_sorted y l) = insert_sorted y (insert_sorted x l).
Proof.
  induction l as [|z l IH]; simpl.
  - destruct (Z.leb_spec x y), (Z.leb_spec y x); auto; try lia.
    assert (x = y) by lia. now subst.
  - destruct (Z.leb_spec x z), (Z.leb_spec y z); simpl;
      destruct (Z.leb_spec x y), (Z.leb_spec y x); simpl;
      repeat match goal with
             | |- context [?a <=? ?b] => destruct (Z.leb_spec a b); try lia
             end; auto; try lia.
    + assert (x = y) by lia. now subst.
    + now rewrite IH.
    + now rewrite IH.
    + now rewrite IH.
Qed.

Lemma sorted_perm l l' : Permutation l l' -> sorted l = sorted l'.
Proof.
  induction 1; simpl; auto.
  - now f_equal.
  - apply insert_sorted_comm.
  - congruence.
Qed.

Lemma insert_sorted_perm x l : Permutation (x :: l) (insert_sorted x l).
Proof.
  induction l as [|y l IH]; simpl; auto.
  destruct (x <=? y); auto.
  rewrite perm_swap. now constructor.
Qed.

Lemma sorted_is_perm l : Permutation l (sorted l).
Proof.
  induction l as [|x l IH]; simpl; auto.
  rewrite <- insert_sorted_perm. now constructor.
Qed.

Lemma known_prices_perm rows rows' :
  Permutation rows rows' -> Permutation (known_prices rows) (known_prices rows').
Proof.
  induction 1; simpl; auto.
  - destruct (price_yen x); auto.
  - destruct (price_yen x), (price_yen y); auto. apply perm_swap.
  - etransitivity; eauto.
Qed.

Lemma filter_perm {A} (f : A -> bool) l l' :
  Permutation l l' -> Permutation (filter f l) (filter f l').
Proof.
  induction 1; simpl; auto.
  - destruct (f x); auto.
  - destruct (f x), (f y); auto. apply perm_swap.
  - etransitivity; eauto.
Qed.

Lemma calc_median_perm values values' :
  Permutation values values' -> calc_median values = calc_median values'.
Proof.
  intros HP. unfold calc_median, statistics_median.
  rewrite (sorted_perm _ _ HP).
  destruct values as [|v vs], values' as [|w ws]; auto; exfalso.
  all: first [apply Permutation_nil in HP; discriminate
             | symmetry in HP; apply Permutation_nil in HP; discriminate].
Qed.

(** X11. The median and the outlier filter do not depend on the order of the
    rows: a rearranged input gives the same median, and the same rows are
    retained (or the same exception is raised). *)
Theorem outlier_filter_order_independent : forall raw lo hi rows rows',
  Permutation rows rows' ->
  calc_median (known_prices rows) = calc_median (known_prices rows') /\
  match outlier_filter raw lo hi rows, outlier_filter raw lo hi rows' with
  | Ok out, Ok out' => Permutation out out'
  | Raise e, Raise e' => e = e'
  | _, _ => False
  end.
Proof.
  intros raw lo hi rows rows' HP.
  pose proof (known_prices_perm _ _ HP) as HK.
  pose proof (calc_median_perm _ _ HK) as HM. split; auto.
  unfold outlier_filter. destruct raw; auto.
  destruct (known_prices rows) as [|v vs] eqn:E1,
           (known_prices rows') as [|w ws] eqn:E2; auto;
    try solve [exfalso; first [apply Permutation_nil in HK; discriminate
                              | symmetry in HK; apply Permutation_nil in HK;
                                discriminate]].
  - rewrite HM. destruct (calc_median (w :: ws)) as [med|e]; simpl; auto.
    destruct (int_mul_float med lo) as [tl|e]; simpl; auto.
    destruct (int_mul_float med hi) as [th|e]; simpl; auto.
    now apply filter_perm.
Qed.

Lemma outlier_filter_order_independent_witness :
  calc_median (known_prices ex_priced_set)
    = calc_median (known_prices (rev ex_priced_set)) /\
  match outlier_filter false PRICE_LOWER_LIMIT_RATIO PRICE_UPPER_LIMIT_RATIO
          ex_priced_set,
        outlier_filter false PRICE_LOWER_LIMIT_RATIO PRICE_UPPER_LIMIT_RATIO
          (rev ex_priced_set) with
  | Ok out, Ok out' => Permutation out out'
  | Raise e, Raise e' => e = e'
  | _, _ => False
  end.
Proof.
  apply outlier_filter_order_independent. apply Permutation_rev.
Defined.

(** ** The median and the statistics lie between the extremes *)

Lemma py_min_spec ps : forall p,
  In (py_min p ps) (p :: ps) /\ forall q, In q (p :: ps) -> py_min p ps <= q.
Proof.
  unfold py_min. induction ps as [|x ps IH]; intros p; simpl.
  - split; auto. intros q [<-|[]]. lia.
  - destruct (IH (Z.min p x)) as [Hin Hle]. split.
    + destruct Hin as [H|H]; [|auto].
      rewrite <- H. destruct (Z.min_spec p x) as [[_ ->]|[_ ->]]; auto.
    + intros q [E|[E|Hq]].
      * specialize (Hle (Z.min p x) (or_introl eq_refl)). lia.
      * specialize (Hle (Z.min p x) (or_introl eq_refl)). lia.
      * apply Hle. now right.
Qed.

Lemma py_max_spec ps : forall p,
  In (py_max p ps) (p :: ps) /\ forall q, In q (p :: ps) -> q <= py_max p ps.
Proof.
  unfold py_max. induction ps as [|x ps IH]; intros p; simpl.
  - split; auto. intros q [<-|[]]. lia.
  - destruct (IH (Z.max p x)) as [Hin Hle]. split.
    + destruct Hin as [H|H]; [|auto].
      rewrite <- H. destruct (Z.max_spec p x) as [[_ ->]|[_ ->]]; auto.
    + intros q [E|[E|Hq]].
      * specialize (Hle (Z.max p x) (or_introl eq_refl)). lia.
      * specialize (Hle (Z.max p x) (or_introl eq_refl)). lia.
      * apply Hle. now right.
Qed.

Lemma sum_acc ps : forall a, fold_left Z.add ps a = a + sum ps.
Proof.
  unfold sum. induction ps as [|x ps IH]; intros a; cbn [fold_left]; [lia|].
  rewrite IH, (IH (0 + x)). lia.
Qed.

Lemma sum_bounds lo hi ps :
  (forall q, In q ps -> lo <= q <= hi) ->
  lo * Z.of_nat (List.length ps) <= sum ps <= hi * Z.of_nat (List.length ps).
Proof.
  induction ps as [|x ps IH]; intros H.
  - unfold sum. simpl. lia.
  - unfold sum. cbn [fold_left]. rewrite sum_acc.
    specialize (IH (fun q Hq => H q (or_intror Hq))).
    specialize (H x (or_introl eq_refl)).
    replace (Z.of_nat (List.length (x :: ps))) with (Z.of_nat (List.length ps) + 1)
      by (simpl List.length; lia).
    lia.
Qed.

Lemma rhe_between lo hi s n :
  0 < n -> lo * n <= s <= hi * n -> lo <= round_half_even s n <= hi.
Proof.
  intros Hn Hs. unfold round_half_even.
  pose proof (Z.div_mod s n ltac:(lia)) as Hd.
  pose proof (Z.mod_pos_bound s n Hn) as Hm.
  assert (Hq1 : lo <= s / n) by (apply Z.div_le_lower_bound; lia).
  assert (Hq2 : s / n <= hi) by (apply Z.div_le_upper_bound; lia).
  assert (Hq3 : s / n = hi -> s mod n = 0) by nia.
  destruct (Z.compare_spec (2 * (s mod n)) n) as [E|E|E];
    [destruct (Z.even _)| |]; try lia;
    (destruct (Z.eq_dec (s / n) hi) as [Eq|]; [specialize (Hq3 Eq)|]; lia).
Qed.

(** X12. For a non-empty list of prices whose sum is non-negative and below
    [2^52], the reported minimum and maximum are prices of the list that
    bound all of them, and the reported average lies between the two. *)
Theorem stats_summary_bounds : forall prices,
  prices <> [] ->
  0 <= sum prices < 2 ^ 52 ->
  exists mn avg mx,
    stats_summary prices = Ok (Some (mn, avg, mx)) /\
    In mn prices /\ In mx prices /\
    (forall p, In p prices -> mn <= p <= mx) /\
    mn <= avg <= mx.
Proof.
  intros prices Hne Hs. destruct prices as [|p ps]; [congruence|].
  unfold stats_summary. rewrite truediv_round by (simpl List.length; lia).
  destruct (py_min_spec ps p) as [Imn Hmn].
  destruct (py_max_spec ps p) as [Imx Hmx].
  cbn [bind]. eexists _, _, _. split; [reflexivity|].
  split; [exact Imn|]. split; [exact Imx|]. split.
  - intros q Hq. split; auto.
  - apply rhe_between; [simpl List.length; lia|].
    apply sum_bounds. intros q Hq. split; auto.
Qed.

Lemma stats_summary_bounds_witness :
  exists mn avg mx,
    stats_summary [1080; 1000; 9000] = Ok (Some (mn, avg, mx)) /\
    In mn [1080; 1000; 9000] /\ In mx [1080; 1000; 9000] /\
    (forall p, In p [1080; 1000; 9000] -> mn <= p <= mx) /\
    mn <= avg <= mx.
Proof.
  apply stats_summary_bounds; [discriminate | cbv [sum fold_left]; lia].
Defined.

(** X13. For prices between 0 and [2^51], the median that [calc_median] returns
    lies between the smallest and the largest of them; for an odd number of
    prices it is one of them. *)
Theorem calc_median_bounds : forall values lo hi,
  values <> [] ->
  0 <= lo -> hi < 2 ^ 51 ->
  (forall p, In p values -> lo <= p <= hi) ->
  exists med, calc_median values = Ok med /\ lo <= med <= hi /\
    (Nat.odd (List.length values) = true -> In med values).
Proof.
  intros values lo hi Hne Hlo Hhi Hb.
  assert (Hall : Forall (fun p => 0 <= p < 2 ^ 51) values).
  { apply Forall_forall. intros p Hp. specialize (Hb p Hp). lia. }
  rewrite calc_median_rounded by assumption.
  eexists. split; [reflexivity|]. unfold median_rounded.
  pose proof (sorted_is_perm values) as HP.
  assert (Hlen : List.length (sorted values) = List.length values)
    by (symmetry; now apply Permutation_length).
  assert (Hpos : (0 < List.length values)%nat)
    by (destruct values; [congruence | simpl; lia]).
  assert (Hnth : forall i, (i < List.length values)%nat ->
                   In (nth i (sorted values) 0) values).
  { intros i Hi. apply sorted_In, nth_In. lia. }
  rewrite Hlen.
  assert (Hhalf : (List.length values / 2 < List.length values)%nat)
    by (apply Nat.div_lt; lia).
  destruct (Nat.odd (List.length values)) eqn:Eo.
  - split; [apply Hb, Hnth; lia | intros _; apply Hnth; lia].
  - split; [|discriminate].
    pose proof (Hb _ (Hnth (List.length values / 2 - 1)%nat ltac:(lia))) as H1.
    pose proof (Hb _ (Hnth (List.length values / 2)%nat Hhalf)) as H2.
    apply rhe_between; lia.
Qed.

Lemma calc_median_bounds_witness :
  exists med, calc_median [1000; 1050; 1100; 1080; 9000] = Ok med /\
    1000 <= med <= 9000 /\
    (Nat.odd (List.length [1000; 1050; 1100; 1080; 9000]) = true ->
     In med [1000; 1050; 1100; 1080; 9000]).
Proof.
  apply calc_median_bounds; try lia; [discriminate|].
  simpl. intros p H. lia.
Defined.

(** ** Retrieval with an arbitrary schedule *)

(** X14. The retry policy for any schedule of waits.  With an empty schedule no
    request is made and [TypeError] is raised.  Otherwise the run ends at
    some attempt [n] within the schedule: the sleeps and requests performed
    are those of the first [n] waits (no sleep for a zero wait), every
    earlier attempt failed retryably, and attempt [n] either succeeded (its
    text is returned), failed with a non-retryable HTTP error (raised at
    once), or was the last of the schedule and its failure is raised. *)
Theorem fetch_html_any_schedule : forall world sleep_retry,
  (sleep_retry = [] -> fetch_html world sleep_retry = ([], Raise TypeError)) /\
  (sleep_retry <> [] ->
   exists n,
     (1 <= n <= List.length sleep_retry)%nat /\
     fst (fetch_html world sleep_retry)
       = schedule_events 1 (firstn n sleep_retry) /\
     (forall i, (1 <= i < n)%nat -> is_retryable (world i)) /\
     match judge (world n) with
     | Success body => snd (fetch_html world sleep_retry) = Ok body
     | Fatal f => snd (fetch_html world sleep_retry) = Raise f
     | Retryable f =>
         n = List.length sleep_retry /\
         snd (fetch_html world sleep_retry) = Raise f
     end).
Proof.
  intros world sched. split; [intros ->; reflexivity|]. intros Hne.
  destruct (fetch_loop_spec world sched 1%nat None [] Hne) as (n & Hn & Hf & Hr & Hl).
  exists n. unfold fetch_html. split; auto. split; [exact Hf|]. split.
  - intros i Hi. replace i with (1 + (i - 1))%nat by lia. apply Hr. lia.
  - replace (1 + n - 1)%nat with n in Hl by lia. exact Hl.
Qed.

Lemma fetch_html_any_schedule_witness :
  fetch_html (fun _ => GetRaises "ConnectionError") [] = ([], Raise TypeError) /\
  exists n,
    (1 <= n <= List.length [0; 3])%nat /\
    fst (fetch_html (fun _ => GetRaises "ConnectionError") [0; 3])
      = schedule_events 1 (firstn n [0; 3]) /\
    (forall i, (1 <= i < n)%nat ->
       is_retryable ((fun _ => GetRaises "ConnectionError") i)) /\
    match judge ((fun _ => GetRaises "ConnectionError") n) with
    | Success body =>
        snd (fetch_html (fun _ => GetRaises "ConnectionError") [0; 3]) = Ok body
    | Fatal f =>
        snd (fetch_html (fun _ => GetRaises "ConnectionError") [0; 3]) = Raise f
    | Retryable f =>
        n = List.length [0; 3] /\
        snd (fetch_html (fun _ => GetRaises "ConnectionError") [0; 3]) = Raise f
    end.
Proof.
  split.
  - apply (proj1 (fetch_html_any_schedule (fun _ => GetRaises "ConnectionError") [])).
    reflexivity.
  - apply (proj2 (fetch_html_any_schedule (fun _ => GetRaises "ConnectionError")
                    [0; 3])).
    discriminate.
Defined.

(** ** The SSD category and the interface and form columns *)

Lemma search_alts rs t :
  rs <> [] ->
  (search (alts rs) t = true <-> exists r, In r rs /\ search r t = true).
Proof.
  intros Hne. rewrite search_iff. unfold occurs. split.
  - intros (l & p & rest & E & D). apply den_alts in D; auto.
    destruct D as (r & Hin & D). exists r. split; auto.
    apply search_iff. exists l, p, rest. auto.
  - intros (r & Hin & S). apply search_iff in S.
    destruct S as (l & p & rest & E & D). exists l, p, rest. split; auto.
    apply den_alts; eauto.
Qed.

Lemma first_match_found table t name :
  first_match table t = name -> name <> ""%string ->
  exists rex, In (name, rex) table /\ search rex t = true.
Proof.
  induction table as [|[n rex] table IH]; simpl; [congruence|].
  destruct (search rex t) eqn:S.
  - intros -> _. eauto.
  - intros E Hn. destruct (IH E Hn) as (rex' & Hin & S'). eauto.
Qed.

Ltac pick_alternative :=
  match goal with
  | H : In _ [] |- _ => destruct H
  | H : In _ (_ :: _) |- _ =>
      destruct H as [H|H]; [inversion H; subst; clear H|]
  end.

(** X15. The columns of an SSD row agree: a listing classified as an internal
    drive has neither a USB nor a Thunderbolt interface and is not of
    portable form; one classified as an internal SATA drive has neither an
    NVMe interface nor the M.2 form. *)
Theorem ssd_category_agrees_with_columns :
  forall title target_gb target_tb cme c r,
  ssd_classify title target_gb target_tb cme = Ok (c, r) ->
  (c = "drive_internal_nvme"%string \/ c = "drive_internal_sata"%string ->
   ssd_extract_iface title <> "USB"%string /\
   ssd_extract_iface title <> "Thunderbolt"%string /\
   ssd_extract_form title <> "Portable"%string) /\
  (c = "drive_internal_sata"%string ->
   ssd_extract_iface title <> "NVMe"%string /\
   ssd_extract_form title <> "M.2"%string).
Proof.
  intros t tg tt cme c r H.
  assert (Hsub : (c = "drive_internal_nvme"%string \/ c = "drive_internal_sata"%string) ->
                 (c, r) = ssd_subtype t).
  { intros Hc. destruct (ssd_keyword_rules t) as [[c' r']|] eqn:K.
    - unfold ssd_classify in H. rewrite K in H. inversion H; subst c' r'.
      apply ssd_keyword_rules_inv in K.
      destruct K as [(-> & _)|[(-> & _)| ->]]; destruct Hc; discriminate.
    - destruct (ssd_classify_passed _ _ _ _ _ _ K H) as [(-> & _)|E]; auto.
      destruct Hc; discriminate. }
  assert (Hext : search (alts [L "外付け"; L "ポータブル"; L "Portable"; L "External"]) t
                 = false -> ssd_extract_form t <> "Portable"%string).
  { intros S E. apply first_match_found in E; [|discriminate].
    destruct E as (rex & Hin & Sr). unfold _SSD_FORM_HINTS in Hin.
    repeat pick_alternative.
    change (search (alts [L "ポータブル"; L "外付け"; L "Portable"; L "External"]) t
            = true) in Sr.
    apply search_alts in Sr; [|discriminate].
    destruct Sr as (a & Ha & Sa).
    assert (St : search (alts [L "外付け"; L "ポータブル"; L "Portable"; L "External"]) t
                 = true).
    { apply search_alts; [discriminate|]. exists a. split; auto.
      simpl in Ha. simpl. tauto. }
    congruence. }
  assert (Hnv : search (alts [L "NVMe"; L "PCIe"; L "M.2";
                  (L "Gen" +> \s* +> RAtom (ASet [(0x33, 0x34)%Z]))%re]) t = false ->
                ssd_extract_iface t <> "NVMe"%string).
  { intros S E. apply first_match_found in E; [|discriminate].
    destruct E as (rex & Hin & Sr). unfold _SSD_IFACE_HINTS in Hin.
    repeat pick_alternative.
    change (search (alts [L "NVMe"; L "PCIe";
                          (L "Gen" +> \s* +> RAtom (ASet [(0x33, 0x34)%Z]))%re;
                          L "M.2"]) t = true) in Sr.
    apply search_alts in Sr; [|discriminate].
    destruct Sr as (a & Ha & Sa).
    assert (St : search (alts [L "NVMe"; L "PCIe"; L "M.2";
                  (L "Gen" +> \s* +> RAtom (ASet [(0x33, 0x34)%Z]))%re]) t = true).
    { apply search_alts; [discriminate|]. exists a. split; auto.
      simpl in Ha. simpl. tauto. }
    congruence. }
  split.
  - intros Hc. specialize (Hsub Hc). unfold ssd_subtype in Hsub.
    destruct (search (alts [L "外付け"; L "ポータブル"; L "Portable"; L "External"]) t)
      eqn:S1; simpl in Hsub.
    { inversion Hsub; subst. destruct Hc; discriminate. }
    destruct (String.eqb (ssd_extract_iface t) "USB") eqn:S2; simpl in Hsub.
    { inversion Hsub; subst. destruct Hc; discriminate. }
    destruct (String.eqb (ssd_extract_iface t) "Thunderbolt") eqn:S3; simpl in Hsub.
    { inversion Hsub; subst. destruct Hc; discriminate. }
    apply String.eqb_neq in S2, S3. auto.
  - intros Hc. specialize (Hsub (or_intror Hc)). subst c. unfold ssd_subtype in Hsub.
    destruct (_ || _ || _); [inversion Hsub|].
    destruct (search (alts [L "NVMe"; L "PCIe"; L "M.2";
                (L "Gen" +> \s* +> RAtom (ASet [(0x33, 0x34)%Z]))%re]) t) eqn:S1;
      simpl in Hsub; [inversion Hsub|].
    destruct (String.eqb (ssd_extract_form t) "M.2") eqn:S2; simpl in Hsub;
      [inversion Hsub|].
    apply String.eqb_neq in S2. auto.
Qed.

Lemma ssd_category_agrees_with_columns_witness :
  ("drive_internal_nvme"%string = "drive_internal_nvme"%string \/
   "drive_internal_nvme"%string = "drive_internal_sata"%string ->
   ssd_extract_iface (lit "Samsung 970 EVO Plus 1TB NVMe M.2 SSD") <> "USB"%string /\
   ssd_extract_iface (lit "Samsung 970 EVO Plus 1TB NVMe M.2 SSD")
     <> "Thunderbolt"%string /\
   ssd_extract_form (lit "Samsung 970 EVO Plus 1TB NVMe M.2 SSD")
     <> "Portable"%string) /\
  ("drive_internal_nvme"%string = "drive_internal_sata"%string ->
   ssd_extract_iface (lit "Samsung 970 EVO Plus 1TB NVMe M.2 SSD") <> "NVMe"%string /\
   ssd_extract_form (lit "Samsung 970 EVO Plus 1TB NVMe M.2 SSD") <> "M.2"%string).
Proof.
  apply (ssd_category_agrees_with_columns
           (lit "Samsung 970 EVO Plus 1TB NVMe M.2 SSD") None (Some (Fin 1 0)) true
           "drive_internal_nvme"%string "nvme/m.2 hints"%string).
  vm_compute. reflexivity.
Defined.

(** ** The capacity of a gauge label *)

Lemma search_group1_sound g rest t grp :
  search_group1 g rest t = Some grp -> exists prev rest', den g prev grp rest'.
Proof.
  unfold search_group1. rewrite search_group1_finditer. intros H.
  apply hd_error_In in H. eapply finditer_from_sound; eauto.
Qed.

Lemma fdiv_1024_nonnegative x :
  nonnegative x -> exists q, fdiv x (Fin 1024 0) = Ok q /\ nonnegative q.
Proof.
  destruct x as [m e|s|]; [| |intros []].
  - intros Hm. cbv beta iota delta [fdiv nonnegative] in *.
    eexists. split; [reflexivity|].
    change (Z.sgn 1024) with 1. change (Z.abs 1024) with 1024.
    apply rnd_nonnegative.
    + apply Z.mul_nonneg_nonneg; [|apply Z.pow_nonneg]; lia.
    + apply Z.mul_pos_pos; [|apply Z.pow_pos_nonneg]; lia.
  - simpl. intros ->. eexists. split; reflexivity.
Qed.

(** X16. [_parse_cap_tb] always returns, and what it returns is zero or positive
    (never a NaN); for a label in which the scraper finds a TB target, it
    returns that target. *)
Theorem parse_cap_tb_agrees_with_target : forall label,
  (exists x, _parse_cap_tb label = Ok x /\ nonnegative x) /\
  (forall x, guess_target_capacity_from_query label = (None, Some x) ->
     _parse_cap_tb label = Ok x).
Proof.
  intros label. split.
  - unfold _parse_cap_tb.
    assert (Hn : exists x,
              match finditer_group1 TB_RE_group REps label with
              | n0 :: _ =>
                  match py_float_of_str n0 with
                  | Ok val => Ok val
                  | Raise ValueError => Ok (Fin 0 0)
                  | Raise e => Raise e
                  end
              | [] => Ok (Fin 0 0)
              end = Ok x /\ nonnegative x).
    { destruct (finditer_group1 TB_RE_group REps label) as [|n0 ns] eqn:E.
      - exists (Fin 0 0). split; [reflexivity | simpl; lia].
      - assert (Hin : In n0 (finditer_group1 TB_RE_group REps label))
          by (rewrite E; now left).
        apply finditer_from_sound in Hin. destruct Hin as (prev & rest & D).
        destruct (tb_group_numeral _ _ _ D) as (x & -> & Hx). eauto. }
    set (from_nums := match finditer_group1 TB_RE_group REps label with
                      | [] => _ | _ => _ end) in *.
    assert (Hg : exists x,
              match search_group1 TB_RE_group GB_RE_rest label with
              | Some g =>
                  except_ValueError (x <- py_float_of_str g ;; fdiv x (Fin 1024 0))
                    from_nums
              | None => from_nums
              end = Ok x /\ nonnegative x).
    { destruct (search_group1 TB_RE_group GB_RE_rest label) as [g|] eqn:E; auto.
      apply search_group1_sound in E. destruct E as (prev & rest & D).
      destruct (tb_group_numeral _ _ _ D) as (x & -> & Hx). cbn [bind].
      destruct (fdiv_1024_nonnegative x Hx) as (q & -> & Hq). simpl. eauto. }
    destruct (search_group1 TB_RE_group TB_RE_rest label) as [g|] eqn:E; auto.
    apply search_group1_sound in E. destruct E as (prev & rest & D).
    destruct (tb_group_numeral _ _ _ D) as (x & -> & Hx). simpl. eauto.
  - intros x. unfold guess_target_capacity_from_query, _parse_cap_tb.
    destruct label as [|c l]; [discriminate|].
    destruct (search_group1 TB_RE_group TB_RE_rest (c :: l)) as [g|] eqn:E.
    + destruct (py_float_of_str g) as [y|e]; [intros [= ->]; reflexivity|].
      destruct (search_group1 GB_RE_group GB_RE_rest (c :: l)) as [g2|];
        [destruct (py_int_of_str g2)|]; discriminate.
    + destruct (search_group1 GB_RE_group GB_RE_rest (c :: l)) as [g2|];
        [destruct (py_int_of_str g2)|]; discriminate.
Qed.

Lemma parse_cap_tb_agrees_with_target_witness :
  _parse_cap_tb (lit "SSD 2TB") = Ok (Fin 4503599627370496 (-51)).
Proof.
  apply (proj2 (parse_cap_tb_agrees_with_target (lit "SSD 2TB"))).
  vm_compute. reflexivity.
Defined.

(** ** The order of floats and the capacities of an HDD title *)

Lemma compare_scale a b p : 0 < p -> (a * p ?= b * p) = (a ?= b).
Proof.
  intros Hp. destruct (Z.compare_spec a b) as [E|E|E].
  - subst. apply Z.compare_refl.
  - apply Z.compare_lt_iff. nia.
  - apply Z.compare_gt_iff. nia.
Qed.

Lemma fin_compare_scale m1 e1 m2 e2 e :
  e <= e1 -> e <= e2 ->
  (m1 * 2 ^ (e1 - e) ?= m2 * 2 ^ (e2 - e))
  = (m1 * 2 ^ (e1 - Z.min e1 e2) ?= m2 * 2 ^ (e2 - Z.min e1 e2)).
Proof.
  intros H1 H2.
  replace (e1 - e) with ((e1 - Z.min e1 e2) + (Z.min e1 e2 - e)) by lia.
  replace (e2 - e) with ((e2 - Z.min e1 e2) + (Z.min e1 e2 - e)) by lia.
  rewrite !Z.pow_add_r by lia. rewrite !Z.mul_assoc.
  apply compare_scale. apply Z.pow_pos_nonneg; lia.
Qed.

Lemma fcompare_antisym x y c :
  fcompare x y = Some c -> fcompare y x = Some (CompOpp c).
Proof.
  destruct x as [m1 e1|s1|], y as [m2 e2|s2|]; simpl; try discriminate.
  - intros [= <-]. rewrite (Z.min_comm e2 e1). now rewrite Z.compare_antisym.
  - destruct s2; intros [= <-]; reflexivity.
  - destruct s1; intros [= <-]; reflexivity.
  - destruct s1, s2; intros [= <-]; reflexivity.
Qed.

Lemma fcompare_total x y :
  x <> NaN -> y <> NaN -> exists c, fcompare x y = Some c.
Proof.
  destruct x, y; simpl; try congruence; eauto.
Qed.

Lemma fcompare_fin m1 e1 m2 e2 e :
  e <= e1 -> e <= e2 ->
  fcompare (Fin m1 e1) (Fin m2 e2) = Some (m1 * 2 ^ (e1 - e) ?= m2 * 2 ^ (e2 - e)).
Proof. intros H1 H2. simpl. now rewrite (fin_compare_scale m1 e1 m2 e2 e H1 H2). Qed.

(** [x < y] or [x == y], then [y < z], give [x < z]. *)
Lemma fcompare_le_lt_trans x y z c :
  fcompare x y = Some c -> c <> Gt -> fcompare y z = Some Lt ->
  fcompare x z = Some Lt.
Proof.
  destruct x as [m1 e1|s1|], y as [m2 e2|s2|], z as [m3 e3|s3|];
    try discriminate;
    try solve [simpl; repeat match goal with |- context [if ?b then _ else _] =>
                               destruct b end;
               intros; congruence].
  - set (e := Z.min e1 (Z.min e2 e3)).
    rewrite (fcompare_fin m1 e1 m2 e2 e), (fcompare_fin m2 e2 m3 e3 e),
            (fcompare_fin m1 e1 m3 e3 e) by lia.
    intros [= <-] Hc [= H23]. f_equal.
    rewrite Z.compare_lt_iff in *.
    destruct (m1 * 2 ^ (e1 - e) ?= m2 * 2 ^ (e2 - e)) eqn:E12; [| |congruence].
    + rewrite Z.compare_eq_iff in E12. clearbody e. lia.
    + rewrite Z.compare_lt_iff in E12. clearbody e. lia.
Qed.

Lemma flt_trans x y z : flt x y = true -> flt y z = true -> flt x z = true.
Proof.
  unfold flt. destruct (fcompare x y) as [[]|] eqn:E1; try discriminate.
  destruct (fcompare y z) as [[]|] eqn:E2; try discriminate. intros _ _.
  now rewrite (fcompare_le_lt_trans x y z Lt E1 ltac:(discriminate) E2).
Qed.

Lemma feqb_flt_trans x y z : feqb x y = true -> flt y z = true -> flt x z = true.
Proof.
  unfold flt, feqb. destruct (fcompare x y) as [[]|] eqn:E1; try discriminate.
  destruct (fcompare y z) as [[]|] eqn:E2; try discriminate. intros _ _.
  now rewrite (fcompare_le_lt_trans x y z Eq E1 ltac:(discriminate) E2).
Qed.

Lemma flt_irrefl x : flt x x = false.
Proof.
  unfold flt. destruct (fcompare x x) as [c|] eqn:E; auto.
  pose proof (fcompare_antisym _ _ _ E) as E'. rewrite E in E'.
  destruct c; auto; discriminate.
Qed.

Lemma flt_asym x y : flt x y = true -> flt y x = false.
Proof.
  intros H. destruct (flt y x) eqn:E; auto.
  pose proof (flt_trans _ _ _ H E) as F. now rewrite flt_irrefl in F.
Qed.

Lemma feqb_refl x : x <> NaN -> feqb x x = true.
Proof.
  intros Hx. unfold feqb. destruct (fcompare_total x x Hx Hx) as (c & E).
  rewrite E. pose proof (fcompare_antisym _ _ _ E) as E'. rewrite E in E'.
  destruct c; auto; discriminate.
Qed.

Lemma flt_trichotomy x y :
  x <> NaN -> y <> NaN -> feqb x y = false -> flt x y = false -> flt y x = true.
Proof.
  intros Hx Hy. unfold feqb, flt.
  destruct (fcompare_total x y Hx Hy) as (c & E). rewrite E.
  rewrite (fcompare_antisym _ _ _ E). destruct c; auto; discriminate.
Qed.

Lemma nonnegative_not_NaN x : nonnegative x -> x <> NaN.
Proof. destruct x; simpl; auto; discriminate. Qed.

Lemma insert_uniq_spec x : forall l,
  x <> NaN -> Forall (fun y => y <> NaN) l ->
  ascending l ->
  ascending (insert_uniq x l) /\
  (forall y, In y (insert_uniq x l) -> y = x \/ In y l) /\
  (forall y, In y l -> In y (insert_uniq x l)) /\
  (exists y, In y (insert_uniq x l) /\ feqb x y = true).
Proof.
  intros l Hx. induction l as [|y l IH]; intros Hl Hs.
  - simpl. split; [auto|]. split; [|split].
    + intros y [<-|[]]. now left.
    + intros y [].
    + exists x. split; [now left | now apply feqb_refl].
  - inversion Hl as [|? ? Hy Hl']; subst. destruct Hs as [Hall Hs'].
    cbn [insert_uniq]. destruct (feqb x y) eqn:Eeq.
    + split; [simpl; auto|]. split; [auto|]. split; [auto|].
      exists y. split; [now left | auto].
    + destruct (flt x y) eqn:Elt.
      * split; [|split; [|split]].
        -- simpl. split; [|split; auto]. constructor; auto.
           rewrite Forall_forall in *. intros z Hz. eapply flt_trans; eauto.
        -- intros z [<-|Hz]; auto.
        -- intros z Hz. now right.
        -- exists x. split; [now left | now apply feqb_refl].
      * destruct (IH Hl' Hs') as (S1 & I1 & I2 & (w & Hw & Ew)).
        pose proof (flt_trichotomy x y Hx Hy Eeq Elt) as Hyx.
        split; [|split; [|split]].
        -- simpl. split; auto. rewrite Forall_forall in *.
           intros z Hz. destruct (I1 z Hz) as [->|Hz']; auto.
        -- intros z [<-|Hz]; [right; now left|].
           destruct (I1 z Hz); auto. right. now right.
        -- intros z [<-|Hz]; [now left | right; auto].
        -- exists w. split; [now right | auto].
Qed.

Lemma sorted_set_spec xs : forall acc,
  Forall (fun y => y <> NaN) xs -> Forall (fun y => y <> NaN) acc ->
  ascending acc ->
  let out := fold_left (fun acc x => insert_uniq x acc) xs acc in
  ascending out /\
  (forall y, In y out -> In y xs \/ In y acc) /\
  (forall y, In y acc -> In y out) /\
  (forall x, In x xs -> exists y, In y out /\ feqb x y = true).
Proof.
  induction xs as [|x xs IH]; intros acc Hxs Hacc Hs; cbn [fold_left].
  - split; [auto|]. split; [auto|]. split; [auto|]. intros x [].
  - inversion Hxs as [|? ? Hx Hxs']; subst.
    destruct (insert_uniq_spec x acc Hx Hacc Hs) as (S1 & I1 & I2 & (w & Hw & Ew)).
    assert (Hacc' : Forall (fun y => y <> NaN) (insert_uniq x acc)).
    { apply Forall_forall. intros y Hy. destruct (I1 y Hy) as [->|Hy']; auto.
      rewrite Forall_forall in Hacc. auto. }
    destruct (IH (insert_uniq x acc) Hxs' Hacc' S1) as (S2 & J1 & J2 & J3).
    split; [exact S2|]. split; [|split].
    + intros y Hy. destruct (J1 y Hy) as [?|Hy']; [left; now right|].
      destruct (I1 y Hy') as [->|?]; [left; now left | now right].
    + intros y Hy. auto.
    + intros y [<-|Hy]; auto. exists w. split; auto.
Qed.

Lemma digits_float grp :
  grp <> [] -> Forall (fun c => is_digit c = true) grp ->
  exists x, py_float_of_str grp = Ok x /\ nonnegative x.
Proof.
  intros N H. destruct (py_int_of_str_digits grp N H) as (n & En & Hn).
  unfold py_float_of_str. rewrite split_at_dot_no_dot by auto. rewrite En. simpl.
  eexists. split; [reflexivity|]. apply rnd_nonnegative; lia.
Qed.

Lemma gb_groups_float t :
  forall g, In g (finditer_group1 GB_RE_group GB_RE_rest t) ->
  exists x, py_float_of_str g = Ok x /\ nonnegative x.
Proof.
  intros g Hin. apply finditer_from_sound in Hin.
  destruct Hin as (prev & rest & D). unfold GB_RE_group in D.
  apply den_rep_inv in D. destruct D as (H & Llo & _).
  apply digits_float; auto. destruct g; [simpl in Llo; lia | discriminate].
Qed.

Lemma insert_uniq_not_nil x l : insert_uniq x l <> [].
Proof.
  destruct l as [|y l]; simpl; [discriminate|].
  destruct (feqb x y); [discriminate|]. destruct (flt x y); discriminate.
Qed.

Lemma sorted_set_nil xs : sorted_set xs = [] <-> xs = [].
Proof.
  split; [|intros ->; reflexivity]. unfold sorted_set.
  destruct xs as [|x xs]; auto. simpl.
  assert (G : forall xs acc, acc <> [] ->
                fold_left (fun acc x => insert_uniq x acc) xs acc <> []).
  { clear. induction xs as [|x xs IH]; simpl; auto.
    intros acc _. apply IH, insert_uniq_not_nil. }
  intros H. exfalso. apply (G xs [x]); [discriminate | exact H].
Qed.

Lemma length_nil {A} (l : list A) : List.length l = 0%nat <-> l = [].
Proof. destruct l; simpl; split; congruence. Qed.

(** X17. Unlike the SSD side, which takes the first TB number of a title, the
    HDD side takes the smallest: when the title has TB numbers,
    [_hdd_extract_capacity_tb] returns them without duplicates in strictly
    ascending order, and the capacity is the first of that list, a number of
    the title that none of them is below.  It returns no capacity exactly
    when the title has neither a TB nor a GB number. *)
Theorem hdd_capacity_is_smallest : forall title,
  (finditer_group1 TB_RE_group TB_RE_rest title <> [] ->
   exists cap0 caps,
     _hdd_extract_capacity_tb title = Ok (Some cap0, caps) /\
     hd_error caps = Some cap0 /\
     ascending caps /\
     In cap0 (collect py_float_of_str (finditer_group1 TB_RE_group TB_RE_rest title)) /\
     (forall x,
        In x (collect py_float_of_str (finditer_group1 TB_RE_group TB_RE_rest title)) ->
        flt x cap0 = false /\ exists y, In y caps /\ feqb x y = true)) /\
  (_hdd_extract_capacity_tb title = Ok (None, []) <->
   finditer_group1 TB_RE_group TB_RE_rest title = [] /\
   finditer_group1 GB_RE_group GB_RE_rest title = []).
Proof.
  intros t.
  destruct (collect_all py_float_of_str nonnegative _ (tb_groups_convert t))
    as (Lt & Ft & _).
  destruct (collect_all py_float_of_str nonnegative _ (gb_groups_float t))
    as (Lg & Fg & _).
  set (tbs := collect py_float_of_str (finditer_group1 TB_RE_group TB_RE_rest t)) in *.
  set (gbs := collect py_float_of_str (finditer_group1 GB_RE_group GB_RE_rest t)) in *.
  assert (Nt : Forall (fun y => y <> NaN) tbs).
  { eapply Forall_impl; [|exact Ft]. apply nonnegative_not_NaN. }
  destruct (sorted_set_spec tbs [] Nt (Forall_nil _) I)
    as (S & I1 & _ & I3).
  fold (sorted_set tbs) in S, I1, I3.
  split.
  - intros Hne. unfold _hdd_extract_capacity_tb. fold tbs.
    destruct (sorted_set tbs) as [|u0 us] eqn:Es.
    { exfalso. apply (proj1 (sorted_set_nil _)) in Es. apply Hne. apply length_nil.
      rewrite <- Lt, Es. reflexivity. }
    exists u0, (u0 :: us). split; [reflexivity|]. split; [reflexivity|].
    split; [exact S|]. split.
    + destruct (I1 u0 (or_introl eq_refl)) as [?|[]]; auto.
    + intros x Hx. destruct (I3 x Hx) as (y & Hy & Ey). split; [|eauto].
      destruct (flt x u0) eqn:E; auto. exfalso.
      destruct S as [Hall _]. rewrite Forall_forall in Hall.
      destruct Hy as [<-|Hy].
      * unfold feqb, flt in *. destruct (fcompare x u0) as [[]|]; discriminate.
      * specialize (Hall y Hy).
        pose proof (flt_trans _ _ _ E Hall) as Hxy.
        unfold feqb, flt in *. destruct (fcompare x y) as [[]|]; discriminate.
  - unfold _hdd_extract_capacity_tb. fold tbs gbs. split.
    + destruct (sorted_set tbs) as [|u0 us] eqn:Es; [|discriminate].
      destruct (sorted_set gbs) as [|g0 gs] eqn:Eg.
      * intros _. apply (proj1 (sorted_set_nil _)) in Es.
        apply (proj1 (sorted_set_nil _)) in Eg. split; apply length_nil.
        -- now rewrite <- Lt, Es.
        -- now rewrite <- Lg, Eg.
      * unfold bind. destruct (fdiv g0 (Fin 1024 0)); [|discriminate].
        destruct (div_each_1024 (g0 :: gs)); discriminate.
    + intros [Et Eg].
      assert (tbs = []) as -> by (apply length_nil; now rewrite Lt, Et).
      assert (gbs = []) as -> by (apply length_nil; now rewrite Lg, Eg).
      reflexivity.
Qed.

Lemma hdd_capacity_is_smallest_witness :
  exists cap0 caps,
    _hdd_extract_capacity_tb (lit "HDD 8TB / 4TB / 8TB") = Ok (Some cap0, caps) /\
    hd_error caps = Some cap0 /\
    ascending caps /\
    In cap0 (collect py_float_of_str
               (finditer_group1 TB_RE_group TB_RE_rest (lit "HDD 8TB / 4TB / 8TB"))) /\
    (forall x,
       In x (collect py_float_of_str
               (finditer_group1 TB_RE_group TB_RE_rest (lit "HDD 8TB / 4TB / 8TB"))) ->
       flt x cap0 = false /\ exists y, In y caps /\ feqb x y = true).
Proof.
  apply (proj1 (hdd_capacity_is_smallest (lit "HDD 8TB / 4TB / 8TB"))).
  vm_compute. discriminate.
Defined.

(** ** The summary report *)

Lemma str_eqb_eq a : forall b, str_eqb a b = true <-> a = b.
Proof.
  induction a as [|x a IH]; intros [|y b]; simpl; split; try congruence; auto.
  - rewrite andb_true_iff, Z.eqb_eq, IH. intros [-> ->]. reflexivity.
  - intros [= -> ->]. rewrite Z.eqb_refl. simpl. now apply IH.
Qed.

Lemma str_eqb_refl a : str_eqb a a = true.
Proof. now apply str_eqb_eq. Qed.

Lemma str_eqb_neq a b : str_eqb a b = false <-> a <> b.
Proof.
  split.
  - intros H E. apply str_eqb_eq in E. congruence.
  - intros H. destruct (str_eqb a b) eqn:E; auto. apply str_eqb_eq in E. contradiction.
Qed.

Lemma str_eqb_sym_aux a b : str_eqb a b = str_eqb b a.
Proof.
  destruct (str_eqb a b) eqn:E1, (str_eqb b a) eqn:E2; auto.
  - apply str_eqb_eq in E1. subst. now rewrite str_eqb_refl in E2.
  - apply str_eqb_eq in E2. subst. now rewrite str_eqb_refl in E1.
Qed.

Lemma str_leb_total a : forall b, str_leb a b = false -> str_leb b a = true.
Proof.
  induction a as [|x a IH]; intros [|y b]; simpl; auto; try discriminate.
  destruct (Z.ltb_spec x y), (Z.ltb_spec y x); auto; try discriminate; lia.
Qed.

Lemma str_leb_trans a : forall b c,
  str_leb a b = true -> str_leb b c = true -> str_leb a c = true.
Proof.
  induction a as [|x a IH]; intros [|y b] [|z c]; simpl; auto; try discriminate.
  destruct (Z.ltb_spec x y), (Z.ltb_spec y x), (Z.ltb_spec y z), (Z.ltb_spec z y),
           (Z.ltb_spec x z), (Z.ltb_spec z x);
    auto; try discriminate; try lia.
  apply IH.
Qed.

(** *** The groups *)

Lemma groups_get_append l label p g :
  groups_get l (groups_append label p g) =
  if str_eqb l label then
    Some (match groups_get l g with Some ps => ps ++ [p] | None => [p] end)%list
  else groups_get l g.
Proof.
  induction g as [|[k ps] g IH]; simpl.
  - destruct (str_eqb l label); reflexivity.
  - destruct (str_eqb label k) eqn:E1.
    + apply str_eqb_eq in E1. subst k. simpl.
      destruct (str_eqb l label); reflexivity.
    + simpl. destruct (str_eqb l k) eqn:E2.
      * apply str_eqb_eq in E2. subst k.
        destruct (str_eqb l label) eqn:E3; auto.
        apply str_eqb_eq in E3. subst. rewrite str_eqb_refl in E1. discriminate.
      * exact IH.
Qed.

Lemma keys_append label p g :
  map fst (groups_append label p g) =
  match groups_get label g with
  | Some _ => map fst g
  | None => (map fst g ++ [label])%list
  end.
Proof.
  induction g as [|[k ps] g IH]; simpl; auto.
  destruct (str_eqb label k); simpl; auto.
  rewrite IH. now destruct (groups_get label g).
Qed.

Lemma groups_get_None l g : groups_get l g = None <-> ~ In l (map fst g).
Proof.
  induction g as [|[k ps] g IH]; simpl; [tauto|].
  destruct (str_eqb l k) eqn:E.
  - apply str_eqb_eq in E. subst. split; [discriminate | tauto].
  - apply str_eqb_neq in E. rewrite IH. split.
    + intros H [?|?]; [congruence | auto].
    + intros H ?. apply H. now right.
Qed.

Lemma total_append label p g :
  total_count (groups_append label p g) = S (total_count g).
Proof.
  unfold total_count. induction g as [|[k ps] g IH]; simpl; auto.
  destruct (str_eqb label k); simpl.
  - rewrite length_app. simpl. lia.
  - rewrite IH. lia.
Qed.

(** What the loop over the rows builds: distinct labels, no empty group,
    every group holding the prices of its rows. *)
Lemma groups_built field rows : forall g,
  NoDup (map fst g) ->
  (forall l ps, groups_get l g = Some ps -> ps <> []) ->
  let g' := fold_left (group_step field) rows g in
  NoDup (map fst g') /\
  (forall l ps, groups_get l g' = Some ps -> ps <> []) /\
  total_count g' = (total_count g + List.length (known_prices rows))%nat /\
  (forall l,
     groups_get l g' =
     match groups_get l g, group_prices field l rows with
     | None, [] => None
     | None, ps => Some ps
     | Some ps0, ps => Some (ps0 ++ ps)%list
     end).
Proof.
  induction rows as [|r rows IH]; intros g Hn He; cbn [fold_left].
  - split; [auto|]. split; [auto|]. split; [simpl; lia|].
    intros l. unfold group_prices. simpl.
    destruct (groups_get l g); [now rewrite app_nil_r | reflexivity].
  - assert (Hstep : group_step field g r =
                    match price_yen r with
                    | Some p => groups_append (group_label (field r)) p g
                    | None => g
                    end) by reflexivity.
    rewrite Hstep. clear Hstep. unfold group_prices. cbn [filter known_prices].
    destruct (price_yen r) as [p|] eqn:Ep.
    + set (label := group_label (field r)).
      assert (Hn' : NoDup (map fst (groups_append label p g))).
      { rewrite keys_append. destruct (groups_get label g) eqn:G; auto.
        apply groups_get_None in G.
        apply (Permutation_NoDup (l := label :: map fst g)).
        - apply Permutation_cons_append.
        - now constructor. }
      assert (He' : forall l ps, groups_get l (groups_append label p g) = Some ps ->
                               ps <> []).
      { intros l ps. rewrite groups_get_append.
        destruct (str_eqb l label); [|apply He].
        intros [= <-]. destruct (groups_get l g); [|discriminate].
        intros E. apply app_eq_nil in E. destruct E; discriminate. }
      destruct (IH _ Hn' He') as (I1 & I2 & I3 & I4).
      split; [exact I1|]. split; [exact I2|]. split.
      * rewrite I3, total_append. simpl. lia.
      * intros l. rewrite I4, groups_get_append. fold (group_prices field l rows).
        rewrite (str_eqb_sym_aux label l).
        destruct (str_eqb l label) eqn:E; cbn [known_prices]; rewrite ?Ep.
        -- destruct (groups_get l g); [now rewrite <- app_assoc | reflexivity].
        -- reflexivity.
    + destruct (IH _ Hn He) as (I1 & I2 & I3 & I4).
      split; [exact I1|]. split; [exact I2|]. split; [exact I3|].
      intros l. rewrite I4. fold (group_prices field l rows).
      destruct (str_eqb (group_label (field r)) l); cbn [known_prices];
        rewrite ?Ep; reflexivity.
Qed.
(** *** The sorted labels *)

Lemma insert_label_perm l ls : Permutation (l :: ls) (insert_label l ls).
Proof.
  induction ls as [|m ms IH]; simpl; auto.
  destruct (str_leb l m); auto.
  rewrite perm_swap. now constructor.
Qed.

Lemma sorted_labels_perm ls : Permutation ls (sorted_labels ls).
Proof.
  induction ls as [|l ls IH]; simpl; auto.
  rewrite <- insert_label_perm. now constructor.
Qed.

Lemma insert_label_ascending l ls :
  labels_ascending ls -> ~ In l ls -> labels_ascending (insert_label l ls).
Proof.
  induction ls as [|m ms IH]; intros Ha Hn.
  - simpl. auto.
  - destruct Ha as [Hm Ha]. cbn [insert_label].
    destruct (str_leb l m) eqn:E.
    + split; [|split; auto]. constructor.
      * split; auto. intros ->. apply Hn. now left.
      * rewrite Forall_forall in *. intros x Hx. destruct (Hm x Hx) as [Hmx _].
        split; [eapply str_leb_trans; eauto|].
        intros ->. apply Hn. now right.
    + split.
      * rewrite Forall_forall in *. intros x Hx.
        apply (Permutation_in _ (Permutation_sym (insert_label_perm l ms))) in Hx.
        destruct Hx as [<-|Hx]; [|auto].
        split; [now apply str_leb_total|]. intros ->. apply Hn. now left.
      * apply IH; auto. intros H. apply Hn. now right.
Qed.

Lemma sorted_labels_ascending ls : NoDup ls -> labels_ascending (sorted_labels ls).
Proof.
  induction 1 as [|l ls Hn Hd IH]; simpl; auto.
  apply insert_label_ascending; auto.
  intros H. apply Hn. eapply Permutation_in; [|exact H].
  symmetry. apply sorted_labels_perm.
Qed.

(** *** The printing loop *)

Lemma stats_summary_some ps : ps <> [] -> stats_summary ps <> Ok None.
Proof.
  destruct ps as [|p ps]; [congruence|]. intros _. unfold stats_summary, bind.
  destruct (int_truediv _ _); [|discriminate].
  destruct (py_round _); discriminate.
Qed.

Lemma print_groups_spec g :
  (forall l ps, groups_get l g = Some ps -> ps <> []) ->
  forall labels out lines,
    print_groups g labels out = (lines, Ok tt) ->
    exists new,
      lines = (out ++ new)%list /\
      map (fun ln : group_line => fst (fst ln)) new = labels /\
      map (fun ln : group_line => snd ln) new
        = map (fun l => match groups_get l g with
                        | Some ps => List.length ps
                        | None => 0%nat
                        end) labels /\
      (forall label sm n, In (label, sm, n) new ->
         exists ps, groups_get label g = Some ps /\ n = List.length ps /\
                    stats_summary ps = Ok (Some sm)).
Proof.
  intros He. induction labels as [|l labels IH]; intros out lines; cbn [print_groups].
  - intros [= <-]. exists []. rewrite app_nil_r. repeat split; auto. intros ? ? ? [].
  - destruct (groups_get l g) as [ps|] eqn:G; [|discriminate].
    destruct (stats_summary ps) as [[sm|]|e] eqn:S; [| |discriminate].
    + intros H. destruct (IH _ _ H) as (new & -> & L1 & L2 & L3).
      exists ((l, sm, List.length ps) :: new). rewrite <- app_assoc.
      split; [reflexivity|]. split; [simpl; now rewrite L1|].
      split; [simpl; now rewrite L2, G|].
      intros label sm' n [[= <- <- <-]|Hin]; eauto.
    + exfalso. apply (stats_summary_some ps); eauto.
Qed.

Lemma list_sum_perm l l' : Permutation l l' -> list_sum l = list_sum l'.
Proof. induction 1; simpl; lia. Qed.

Lemma sum_over_keys g :
  NoDup (map fst g) ->
  list_sum (map (fun l => match groups_get l g with
                          | Some ps => List.length ps
                          | None => 0%nat
                          end) (map fst g)) = total_count g.
Proof.
  unfold total_count. induction g as [|[k ps] g IH]; simpl; auto.
  intros Hn. inversion Hn as [|? ? Hk Hn']; subst.
  rewrite str_eqb_refl. f_equal. rewrite <- (IH Hn'). f_equal.
  apply map_ext_in. intros l Hl.
  destruct (str_eqb l k) eqn:E; auto.
  apply str_eqb_eq in E. subst. contradiction.
Qed.

Lemma known_missing_length rows :
  (List.length (known_prices rows) + price_missing rows)%nat = List.length rows.
Proof.
  unfold price_missing. induction rows as [|r rows IH]; simpl; auto.
  destruct (price_yen r); simpl; lia.
Qed.

(** X18. The report is consistent.  The prices counted on the [ALL] line and the
    rows counted as missing a price make up the retained rows.  When
    [_print_group] returns, its lines come in strictly ascending order of
    their labels; every line has a count of at least one, which is the
    number of priced rows of that label, and shows the statistics of their
    prices; every priced row is counted on the line of its label; and the
    counts of the lines add up to the count of the [ALL] line. *)
Theorem report_counts_add_up : forall field filtered lines,
  _print_group field filtered = (lines, Ok tt) ->
  (List.length (known_prices filtered) + price_missing filtered)%nat
    = List.length filtered /\
  list_sum (map (fun ln : group_line => snd ln) lines)
    = List.length (known_prices filtered) /\
  labels_ascending (map (fun ln : group_line => fst (fst ln)) lines) /\
  (forall label sm n, In (label, sm, n) lines ->
     (1 <= n)%nat /\ n = List.length (group_prices field label filtered) /\
     stats_summary (group_prices field label filtered) = Ok (Some sm)) /\
  (forall r p, In r filtered -> price_yen r = Some p ->
     In (group_label (field r)) (map (fun ln : group_line => fst (fst ln)) lines)).
Proof.
  intros field rows lines H. unfold _print_group in H.
  destruct (groups_built field rows [] (NoDup_nil _) ltac:(discriminate))
    as (Hn & He & Ht & Hg).
  set (g := fold_left (group_step field) rows []) in *.
  destruct (print_groups_spec g He _ _ _ H) as (new & -> & L1 & L2 & L3).
  simpl app. pose proof (sorted_labels_perm (map fst g)) as HP.
  assert (Hget : forall l ps, groups_get l g = Some ps ->
                   ps = group_prices field l rows).
  { intros l ps. rewrite Hg. simpl.
    destruct (group_prices field l rows); [discriminate | now intros [= <-]]. }
  split; [apply known_missing_length|]. split; [|split; [|split]].
  - rewrite L2, <- (list_sum_perm _ _ (Permutation_map _ HP)), sum_over_keys by auto.
    rewrite Ht. reflexivity.
  - rewrite L1. now apply sorted_labels_ascending.
  - intros label sm n Hin. destruct (L3 _ _ _ Hin) as (ps & G & -> & S).
    pose proof (He _ _ G) as Hne. rewrite <- (Hget _ _ G).
    split; [destruct ps; [congruence | simpl; lia]|]. auto.
  - intros r p Hin Hp. rewrite L1. eapply Permutation_in; [exact HP|].
    destruct (in_dec (list_eq_dec Z.eq_dec) (group_label (field r)) (map fst g))
      as [?|Hno]; auto.
    exfalso. apply groups_get_None in Hno. rewrite Hg in Hno. simpl in Hno.
    assert (Hp' : In p (group_prices field (group_label (field r)) rows)).
    { unfold group_prices. clear - Hin Hp.
      induction rows as [|r0 rows IH]; [destruct Hin|]. simpl.
      destruct Hin as [->|Hin].
      - rewrite str_eqb_refl. simpl. rewrite Hp. now left.
      - destruct (str_eqb _ _); simpl; [destruct (price_yen r0); [right|]|]; auto. }
    destruct (group_prices field (group_label (field r)) rows);
      [destruct Hp' | discriminate].
Qed.

Lemma report_counts_add_up_witness :
  (List.length (known_prices [ex_5000; ex_organic; ex_unpriced])
   + price_missing [ex_5000; ex_organic; ex_unpriced])%nat
    = List.length [ex_5000; ex_organic; ex_unpriced] /\
  list_sum (map (fun ln : group_line => snd ln)
              [(lit "Crucial", (5000, 5000, 5000), 1%nat);
               (lit "Samsung", (19800, 19800, 19800), 1%nat)])
    = List.length (known_prices [ex_5000; ex_organic; ex_unpriced]) /\
  labels_ascending
    (map (fun ln : group_line => fst (fst ln))
       [(lit "Crucial", (5000, 5000, 5000), 1%nat);
        (lit "Samsung", (19800, 19800, 19800), 1%nat)]) /\
  (forall label sm n,
     In (label, sm, n) [(lit "Crucial", (5000, 5000, 5000), 1%nat);
                        (lit "Samsung", (19800, 19800, 19800), 1%nat)] ->
     (1 <= n)%nat /\
     n = List.length (group_prices brand_guess label
                        [ex_5000; ex_organic; ex_unpriced]) /\
     stats_summary (group_prices brand_guess label
                      [ex_5000; ex_organic; ex_unpriced]) = Ok (Some sm)) /\
  (forall r p, In r [ex_5000; ex_organic; ex_unpriced] -> price_yen r = Some p ->
     In (group_label (brand_guess r))
        (map (fun ln : group_line => fst (fst ln))
           [(lit "Crucial", (5000, 5000, 5000), 1%nat);
            (lit "Samsung", (19800, 19800, 19800), 1%nat)])).
Proof.
  apply (report_counts_add_up brand_guess [ex_5000; ex_organic; ex_unpriced]).
  vm_compute. reflexivity.
Defined.

(** ** Item blocks *)

Lemma strip_prefix_spec p : forall s s1,
  strip_prefix p s = Some s1 <-> s = (p ++ s1)%list.
Proof.
  induction p as [|x p IH]; intros s s1; simpl.
  - split; [intros [= ->]; reflexivity | intros ->; reflexivity].
  - destruct s as [|y s]; [split; discriminate|].
    destruct (Z.eqb_spec x y) as [->|Hne].
    + rewrite IH. split; [intros ->; reflexivity | intros [= ->]; reflexivity].
    + split; [discriminate | intros [= -> _]; congruence].
Qed.

Lemma match_asin_spec s g :
  match_asin s = Some g <->
  asin_shaped g /\ exists tail, s = (asin_attribute g ++ tail)%list.
Proof.
  unfold match_asin, asin_shaped, asin_attribute. split.
  - destruct (strip_prefix ASIN_PREFIX s) as [s1|] eqn:E; [|discriminate].
    apply strip_prefix_spec in E. subst s.
    destruct (skipn 10 s1) as [|c tl] eqn:Es; [discriminate|].
    destruct (_ && _ && _) eqn:B; [|discriminate]. intros [= <-].
    apply andb_true_iff in B. destruct B as [B Hc].
    apply andb_true_iff in B. destruct B as [Hl Hf].
    apply Nat.eqb_eq in Hl. apply Z.eqb_eq in Hc. subst c.
    split; [auto|]. exists tl.
    rewrite <- (firstn_skipn 10 s1) at 1. rewrite Es.
    now rewrite <- !app_assoc.
  - intros ((Hl & Hf) & tail & ->).
    rewrite <- !app_assoc.
    match goal with
    | |- context [strip_prefix ?p ?s] =>
        assert (E : strip_prefix p s = Some (g ++ [34] ++ tail)%list)
          by (now apply strip_prefix_spec);
        rewrite E; clear E
    end.
    rewrite firstn_app, skipn_app, Hl, Nat.sub_diag, firstn_all2, skipn_all2 by lia.
    simpl. rewrite app_nil_r, Hl, Hf. reflexivity.
Qed.

Lemma asin_attribute_length g : asin_shaped g -> List.length (asin_attribute g) = 22%nat.
Proof.
  intros [Hl _]. unfold asin_attribute. rewrite !length_app, Hl. reflexivity.
Qed.

Lemma skipn_S {A} (l : list A) n x l' : skipn n l = x :: l' -> skipn (S n) l = l'.
Proof.
  revert l. induction n as [|n IH]; intros l; simpl.
  - intros ->. reflexivity.
  - destruct l as [|y l]; [discriminate|]. simpl in IH. apply IH.
Qed.

Lemma skipn_nil_ge {A} (l : list A) n m : skipn n l = [] -> (n <= m)%nat -> skipn m l = [].
Proof.
  intros H Hm. apply skipn_all2. 
  assert (List.length (skipn n l) = 0%nat) by now rewrite H.
  rewrite length_skipn in *. lia.
Qed.

(** What [finditer] lists are matches, at positions at least 22 apart. *)
Lemma asin_finditer_sound html : forall s pos skip,
  skipn pos html = s ->
  Forall (fun e => (pos + skip <= fst e)%nat /\
                   match_asin (skipn (fst e) html) = Some (snd e))
         (asin_finditer s pos skip) /\
  spaced (asin_finditer s pos skip).
Proof.
  induction s as [|c s IH]; intros pos skip Hs; simpl; [auto|].
  pose proof (skipn_S _ _ _ _ Hs) as Hs'.
  destruct skip as [|n].
  - destruct (match_asin (c :: s)) as [g|] eqn:M.
    + destruct (IH (S pos) 21%nat Hs') as [F Sp].
      split.
      * constructor; [simpl; rewrite Hs; split; [lia | auto]|].
        eapply Forall_impl; [|exact F]. intros e [? ?]. split; [lia | auto].
      * simpl. split; auto.
        destruct (asin_finditer s (S pos) 21) as [|[next g'] rest]; auto.
        inversion F as [|? ? [Hn _] _]; subst. simpl in Hn. lia.
    + destruct (IH (S pos) 0%nat Hs') as [F Sp]. split; auto.
      eapply Forall_impl; [|exact F]. intros e [? ?]. split; [lia | auto].
  - destruct (IH (S pos) n Hs') as [F Sp]. split; auto.
    eapply Forall_impl; [|exact F]. intros e [? ?]. split; [lia | auto].
Qed.
Lemma asin_char_not_d c : is_asin_char c = true -> c <> 100.
Proof. unfold is_asin_char. intros H ->. discriminate H. Qed.

Lemma match_asin_head c s g : match_asin (c :: s) = Some g -> c = 100.
Proof.
  unfold match_asin.
  change ASIN_PREFIX with [100; 97; 116; 97; 45; 97; 115; 105; 110; 61; 34].
  cbn [strip_prefix]. destruct (Z.eqb_spec 100 c); [auto | discriminate].
Qed.

Lemma match_asin_nil : match_asin [] = None.
Proof. reflexivity. Qed.

(** A match does not overlap another: none of the 21 positions after the
    start of a match holds the letter with which the pattern starts. *)
Lemma match_asin_no_overlap s g k :
  match_asin s = Some g -> (1 <= k <= 21)%nat -> match_asin (skipn k s) = None.
Proof.
  intros M Hk. apply match_asin_spec in M. destruct M as ((Hl & Hf) & tail & ->).
  assert (H : exists c rest, skipn k (asin_attribute g ++ tail)%list = c :: rest /\
                             c <> 100).
  { unfold asin_attribute.
    change ASIN_PREFIX with [100; 97; 116; 97; 45; 97; 115; 105; 110; 61; 34].
    do 10 (destruct g as [|? g]; [discriminate Hl|]).
    destruct g; [|discriminate Hl].
    cbn [forallb] in Hf.
    repeat match type of Hf with
           | (_ && _) = true => apply andb_true_iff in Hf;
                                let H := fresh "Hc" in destruct Hf as [H Hf]
           end.
    do 22 (destruct k as [|k];
           [first [lia
                  | cbn [skipn app]; eexists _, _;
                    split; [reflexivity
                           | first [discriminate | now apply asin_char_not_d]]]|]).
    lia. }
  destruct H as (c & rest & -> & Hc).
  destruct (match_asin (c :: rest)) eqn:M; auto.
  apply match_asin_head in M. contradiction.
Qed.

(** And every match is listed. *)
Lemma asin_finditer_complete html : forall s pos skip,
  skipn pos html = s ->
  (forall k, (k < skip)%nat -> match_asin (skipn (pos + k) html) = None) ->
  forall i g, (pos <= i)%nat -> match_asin (skipn i html) = Some g ->
    In (i, g) (asin_finditer s pos skip).
Proof.
  induction s as [|c s IH]; intros pos skip Hs Hskip i g Hi M.
  - rewrite (skipn_nil_ge _ _ _ Hs Hi), match_asin_nil in M. discriminate.
  - pose proof (skipn_S _ _ _ _ Hs) as Hs'. cbn [asin_finditer].
    destruct skip as [|n].
    + destruct (Nat.eq_dec i pos) as [->|Hne].
      * rewrite Hs in M. rewrite M. now left.
      * assert (Hi' : (S pos <= i)%nat) by lia.
        destruct (match_asin (c :: s)) as [g0|] eqn:M0.
        -- right. apply (IH (S pos) 21%nat Hs'); auto.
           intros k Hk. replace (S pos + k)%nat with (S k + pos)%nat by lia.
           rewrite <- skipn_skipn, Hs.
           apply (match_asin_no_overlap _ g0); [exact M0 | lia].
        -- apply (IH (S pos) 0%nat Hs'); auto. intros k Hk. lia.
    + destruct (Nat.eq_dec i pos) as [->|Hne].
      * specialize (Hskip 0%nat ltac:(lia)). rewrite Nat.add_0_r in Hskip. congruence.
      * apply (IH (S pos) n Hs'); [|lia|exact M].
        intros k Hk. replace (S pos + k)%nat with (pos + S k)%nat by lia.
        apply Hskip. lia.
Qed.

Lemma block_text html p g end_ :
  match_asin (skipn p html) = Some g ->
  (p + 22 <= end_)%nat ->
  exists tail, firstn (end_ - p) (skipn p html) = (asin_attribute g ++ tail)%list.
Proof.
  intros M He. apply match_asin_spec in M. destruct M as (Hg & tail & ->).
  exists (firstn (end_ - p - 22) tail).
  rewrite firstn_app, (asin_attribute_length g Hg).
  rewrite firstn_all2 by (rewrite (asin_attribute_length g Hg); lia).
  reflexivity.
Qed.

Lemma match_asin_room html p g :
  match_asin (skipn p html) = Some g -> (p + 22 <= List.length html)%nat.
Proof.
  intros M. apply match_asin_spec in M. destruct M as (Hg & tail & E).
  assert (L : List.length (skipn p html) = List.length (asin_attribute g ++ tail)%list)
    by now rewrite E.
  rewrite length_skipn, length_app, (asin_attribute_length g Hg) in L. lia.
Qed.

Lemma blocks_from_spec html : forall pos,
  Forall (fun e => match_asin (skipn (fst e) html) = Some (snd e)) pos ->
  spaced pos ->
  (forall a b, In (a, b) (blocks_from html pos) ->
     asin_shaped a /\ a <> lit "0000000000" /\
     exists tail, b = (asin_attribute a ++ tail)%list) /\
  (forall p g, In (p, g) pos -> g <> lit "0000000000" ->
     exists tail, In (g, (asin_attribute g ++ tail)%list) (blocks_from html pos)).
Proof.
  induction pos as [|[p g] rest IH]; intros F Sp.
  - split; [intros ? ? [] | intros ? ? []].
  - inversion F as [|? ? M F']; subst. destruct Sp as [Hnext Sp]. simpl in M.
    destruct (IH F' Sp) as [IH1 IH2].
    pose proof (proj1 (match_asin_spec _ _) M) as (Hg & _).
    assert (He : (p + 22 <= match rest with
                            | (next, _) :: _ => next
                            | [] => List.length html
                            end)%nat).
    { destruct rest as [|[next g'] rest']; [eapply match_asin_room; eauto | exact Hnext]. }
    destruct (block_text html p g _ M He) as (tail & Et).
    assert (Hne : str_eqb g [] = false).
    { apply str_eqb_neq. intros ->. destruct Hg as [Hl _]. discriminate Hl. }
    cbn [blocks_from]. rewrite Hne. cbn [negb andb].
    destruct (str_eqb g (lit "0000000000")) eqn:Ez; cbn [negb].
    + apply str_eqb_eq in Ez. split; [exact IH1|].
      intros p' g' [[= <- <-]|Hin] Hz; [contradiction | eauto].
    + apply str_eqb_neq in Ez. split.
      * intros a b [[= <- <-]|Hin]; [|eauto]. repeat split; try apply Hg; eauto.
      * intros p' g' [[= <- <-]|Hin] Hz.
        -- exists tail. left. now rewrite Et.
        -- destruct (IH2 _ _ Hin Hz) as (tl & Htl). exists tl. now right.
Qed.

(** X19. The blocks of a page.  Every block is headed by an identifier of ten
    characters, capitals or digits, other than ten zeros, and its text
    starts with the attribute that holds this identifier; conversely every
    such attribute in the page heads a block. *)
Theorem split_item_blocks_spec : forall html,
  (forall a b, In (a, b) (split_item_blocks html) ->
     asin_shaped a /\ a <> lit "0000000000" /\
     exists tail, b = (asin_attribute a ++ tail)%list) /\
  (forall l a r,
     html = (l ++ asin_attribute a ++ r)%list ->
     asin_shaped a -> a <> lit "0000000000" ->
     exists tail, In (a, (asin_attribute a ++ tail)%list) (split_item_blocks html)).
Proof.
  intros html. unfold split_item_blocks.
  destruct (asin_finditer_sound html html 0%nat 0%nat eq_refl) as [F Sp].
  assert (F' : Forall (fun e => match_asin (skipn (fst e) html) = Some (snd e))
                 (asin_finditer html 0 0)).
  { eapply Forall_impl; [|exact F]. intros e [_ ?]. auto. }
  destruct (blocks_from_spec html _ F' Sp) as [B1 B2]. split; [exact B1|].
  intros l a r E Ha Hz. apply (B2 (List.length l)); auto.
  apply (asin_finditer_complete html html 0%nat 0%nat eq_refl); [lia | lia |].
  apply match_asin_spec. split; auto. exists r.
  rewrite E, skipn_app, skipn_all, Nat.sub_diag. simpl. now rewrite <- app_assoc.
Qed.

Lemma split_item_blocks_spec_witness :
  exists tail,
    In (lit "B0C1234567", (asin_attribute (lit "B0C1234567") ++ tail)%list)
       (split_item_blocks
          (lit "<div " ++ asin_attribute (lit "B0C1234567") ++ lit ">Crucial SSD</div>")).
Proof.
  apply (proj2 (split_item_blocks_spec _) (lit "<div ") (lit "B0C1234567")
           (lit ">Crucial SSD</div>")).
  - reflexivity.
  - split; reflexivity.
  - discriminate.
Defined.

(** ** Page markers *)

(** X20. A page counts as blocked exactly when it contains one of the six
    phrases, and an item as sponsored exactly when its block contains one of
    the two words, in any letter case. *)
Theorem page_markers : forall text,
  (is_blocked text = true <->
   exists w, In w BLOCK_PATTERNS /\ contains_word text w) /\
  (extract_sponsored text = 1 <->
   exists w, In w SPONSORED_WORDS /\ contains_word text w) /\
  (extract_sponsored text = 0 \/ extract_sponsored text = 1).
Proof.
  intros t. unfold is_blocked, extract_sponsored, BLOCK_RE, SPONSORED_RE.
  split; [apply search_words; discriminate|].
  rewrite <- (search_words SPONSORED_WORDS t) by discriminate.
  destruct (search (words SPONSORED_WORDS) t); split; auto; split; auto; discriminate.
Qed.

(** ** Prices and hit counts *)

Lemma match_group_mid_sound before group after prev s grp :
  match_group_mid before group after prev s = Some grp ->
  exists p0 p2 rest prev', s = (p0 ++ grp ++ p2 ++ rest)%list /\
                           den group prev' grp (p2 ++ rest).
Proof.
  unfold match_group_mid. intros H. apply rmatch_sound in H.
  destruct H as (p0 & s0 & -> & _ & H). apply rmatch_sound in H.
  destruct H as (p1 & s1 & -> & D1 & H). apply rmatch_sound in H.
  destruct H as (p2 & rest & -> & _ & H). inversion H; subst.
  rewrite firstn_app_length. eauto 10.
Qed.

Lemma search_group_mid_sound before group after : forall s prev grp,
  search_group_mid_from before group after prev s = Some grp ->
  occurs_in grp s /\ exists prev' rest, den group prev' grp rest.
Proof.
  induction s as [|c s IH]; intros prev grp; simpl.
  - destruct (match_group_mid before group after prev []) eqn:M; [|discriminate].
    intros [= ->]. apply match_group_mid_sound in M.
    destruct M as (p0 & p2 & rest & prev' & E & D).
    split; [exists p0, (p2 ++ rest)%list; exact E | eauto].
  - destruct (match_group_mid before group after prev (c :: s)) eqn:M.
    + intros [= ->]. apply match_group_mid_sound in M.
      destruct M as (p0 & p2 & rest & prev' & E & D).
      split; [exists p0, (p2 ++ rest)%list; exact E | eauto].
    + intros H. destruct (IH _ _ H) as ((l & r & ->) & D).
      split; auto. exists (c :: l), r. reflexivity.
Qed.

Lemma search_group1_occurs g rest : forall s prev grp,
  search_group1_from g rest prev s = Some grp ->
  occurs_in grp s /\ exists prev' rest', den g prev' grp rest'.
Proof.
  induction s as [|c s IH]; intros prev grp; simpl.
  - destruct (match_group g rest prev []) as [[g0 n]|] eqn:M; [|discriminate].
    intros [= ->]. apply match_group_sound in M.
    destruct M as (p2 & rest' & E & D).
    split; [exists [], (p2 ++ rest')%list; exact E | eauto].
  - destruct (match_group g rest prev (c :: s)) as [[g0 n]|] eqn:M.
    + intros [= ->]. apply match_group_sound in M.
      destruct M as (p2 & rest' & E & D).
      split; [exists [], (p2 ++ rest')%list; exact E | eauto].
    + intros H. destruct (IH _ _ H) as ((l & r & ->) & D).
      split; auto. exists (c :: l), r. reflexivity.
Qed.

Lemma letters_not_digit_or_comma x :
  0x41 <= x <= 0x7A ->
  in_ranges x (decimal_ranges ++ [(0x2C, 0x2C)]) = false.
Proof.
  intros Hx. unfold in_ranges, decimal_ranges. cbn [app existsb fst snd].
  repeat match goal with
         | |- (_ || _) = false => apply orb_false_iff; split
         | |- (?a <=? ?b) && (?c <=? ?d) = false =>
             apply andb_false_iff;
             first [left; apply Z.leb_gt; lia | right; apply Z.leb_gt; lia]
         end.
  reflexivity.
Qed.

Lemma digit_or_comma_match c :
  atom_match digit_or_comma c = true -> is_digit c = true \/ c = 0x2C.
Proof.
  unfold atom_match, digit_or_comma.
  assert (H : in_ranges c (decimal_ranges ++ [(0x2C, 0x2C)]) = true ->
              is_digit c = true \/ c = 0x2C).
  { unfold in_ranges, is_digit, in_ranges. rewrite existsb_app, orb_true_iff.
    intros [?|E]; auto. right. simpl in E. rewrite orb_false_r in E.
    apply andb_true_iff in E. destruct E as [E1 E2].
    apply Z.leb_le in E1, E2. lia. }
  assert (Hf : fold_case c = c \/ 0x61 <= fold_case c <= 0x7A).
  { unfold fold_case.
    repeat match goal with
           | |- context [if ?b then _ else _] => destruct b eqn:?
           end; auto; right; try lia;
    match goal with
    | E : (_ && _) = true |- _ =>
        apply andb_true_iff in E; destruct E as [E1 E2];
        apply Z.leb_le in E1, E2; lia
    end. }
  intros E. apply orb_true_iff in E. destruct E as [E|E].
  - apply orb_true_iff in E. destruct E as [E|E]; auto.
    destruct Hf as [Hf|Hf]; [rewrite Hf in E; auto|].
    rewrite letters_not_digit_or_comma in E by lia. discriminate.
  - destruct Hf as [Hf|Hf].
    + rewrite Hf in E. unfold ascii_upper in E.
      destruct ((0x61 <=? c) && (c <=? 0x7A)) eqn:B; auto.
      apply andb_true_iff in B. destruct B as [B1 B2]. apply Z.leb_le in B1, B2.
      rewrite letters_not_digit_or_comma in E by lia. discriminate.
    + unfold ascii_upper in E.
      destruct ((0x61 <=? fold_case c) && (fold_case c <=? 0x7A));
        rewrite letters_not_digit_or_comma in E by lia; discriminate.
Qed.

Lemma remove_commas_digits g :
  Forall (fun c => is_digit c = true \/ c = 0x2C) g ->
  Forall (fun c => is_digit c = true) (remove_commas g).
Proof.
  unfold remove_commas. induction 1 as [|c g Hc Hg IH]; simpl; auto.
  destruct (Z.eqb_spec c 0x2C); simpl; auto.
  constructor; auto. destruct Hc; [auto | contradiction].
Qed.

Lemma int_of_group_numeral max m n group :
  int_of_group max m = Some n ->
  (forall g, m = Some g ->
     exists prev rest, den group prev g rest) ->
  (forall g prev rest, den group prev g rest ->
     g <> [] /\ Forall (fun c => is_digit c = true \/ c = 0x2C) g) ->
  0 <= n /\ exists g, m = Some g /\ numeral_with_commas g n.
Proof.
  unfold int_of_group. destruct m as [g|]; [|discriminate]. intros H Hd Hs.
  destruct (Hd g eq_refl) as (prev & rest & D).
  destruct (Hs _ _ _ D) as [Hne Hall].
  pose proof (remove_commas_digits g Hall) as Hdig.
  unfold py_int_of_digits in H. destruct (_ && _ && _); [discriminate|].
  destruct (py_int_of_str (remove_commas g)) as [k|] eqn:E; [|discriminate].
  inversion H; subst k.
  assert (Hr : remove_commas g <> []).
  { intros Er. rewrite Er in E. discriminate E. }
  destruct (py_int_of_str_digits _ Hr Hdig) as (n' & En & Hn).
  rewrite E in En. inversion En; subst n'.
  split; [lia|]. exists g. split; auto. split; [auto|]. split; [auto|].
  unfold py_int_of_str in E. destruct (remove_commas g) as [|c0 l0]; [congruence|].
  destruct (digits_value 0 (c0 :: l0)); [congruence | discriminate].
Qed.

Lemma run_of_digit_or_comma lo g prev rest :
  (1 <= lo)%nat -> den (RRep digit_or_comma lo None) prev g rest ->
  g <> [] /\ Forall (fun c => is_digit c = true \/ c = 0x2C) g.
Proof.
  intros Hlo D. apply den_rep_inv in D. destruct D as (H & L & _). split.
  - destruct g; [simpl in L; lia | discriminate].
  - eapply Forall_impl; [|exact H]. apply digit_or_comma_match.
Qed.

(** X21. A price or a hit count that is found is never negative, and it is
    spelled, with or without commas, somewhere in the text: it is the value
    of the digits of a run of digits and commas that occurs there. *)
Theorem price_is_spelled_in_block : forall max_str_digits text n,
  (extract_price_yen max_str_digits text = Some n ->
   0 <= n /\ exists g, occurs_in g text /\ numeral_with_commas g n) /\
  (parse_hit_count max_str_digits text = Some n ->
   0 <= n /\ exists g, occurs_in g text /\ numeral_with_commas g n).
Proof.
  intros max t n. split.
  - unfold extract_price_yen, search_group_mid.
    destruct (int_of_group max (search_group_mid_from PRICE_WHOLE_RE_before _ _ None t))
      as [k|] eqn:E1.
    + intros [= ->].
      destruct (int_of_group_numeral _ _ _ PRICE_WHOLE_RE_group E1) as (Hn & g & Eg & Ng).
      * intros g Eg. apply search_group_mid_sound in Eg. apply Eg.
      * intros g prev rest. apply run_of_digit_or_comma. lia.
      * split; auto. exists g. split; auto.
        apply search_group_mid_sound in Eg. apply Eg.
    + intros E2.
      destruct (int_of_group_numeral _ _ _ YEN_RE_group E2) as (Hn & g & Eg & Ng).
      * intros g Eg. apply search_group_mid_sound in Eg. apply Eg.
      * intros g prev rest. apply run_of_digit_or_comma. lia.
      * split; auto. exists g. split; auto.
        apply search_group_mid_sound in Eg. apply Eg.
  - unfold parse_hit_count, search_group1. intros E.
    destruct (int_of_group_numeral _ _ _ HIT_COUNT_group E) as (Hn & g & Eg & Ng).
    + intros g Eg. apply search_group1_occurs in Eg. apply Eg.
    + intros g prev rest D. unfold HIT_COUNT_group in D.
      apply den_seq_inv in D. destruct D as (p1 & p2 & -> & D1 & D2).
      apply den_atom_inv in D1. destruct D1 as (c & -> & Hc). simpl in Hc.
      apply den_rep_inv in D2. destruct D2 as (H2 & _ & _).
      split; [discriminate|]. constructor; [now left|].
      eapply Forall_impl; [|exact H2]. apply digit_or_comma_match.
    + split; auto. exists g. split; auto.
      apply search_group1_occurs in Eg. apply Eg.
Qed.

Lemma price_is_spelled_in_block_witness :
  0 <= 12800 /\
  exists g,
    occurs_in g (lit "<span class=" ++ [0x22] ++ lit "a-price-whole" ++ [0x22]
                 ++ lit ">12,800<span>") /\
    numeral_with_commas g 12800.
Proof.
  apply (proj1 (price_is_spelled_in_block 4300
                  (lit "<span class=" ++ [0x22] ++ lit "a-price-whole" ++ [0x22]
                   ++ lit ">12,800<span>") 12800)).
  vm_compute. reflexivity.
Defined.

(** ** The HDD category and the interface and form factor columns *)

Lemma den_wordb_inv prev p rest : den RWordB prev p rest -> p = [].
Proof. intros D. now inversion D. Qed.

Lemma occurs_L w t : occurs (L w) t <-> contains_word t w.
Proof.
  unfold occurs, contains_word. split.
  - intros (l & p & rest & E & D). apply den_L in D. eauto.
  - intros (l & p & rest & E & S). exists l, p, rest. split; auto. now apply den_L.
Qed.

(** A word between word boundaries is in particular there. *)
Lemma search_bounded_word w t :
  search (\b +> L w +> \b)%re t = true -> search (L w) t = true.
Proof.
  rewrite !search_iff. intros (l & p & rest & E & D).
  apply den_seq_inv in D. destruct D as (p1 & p2 & -> & D1 & D2).
  apply den_wordb_inv in D1. subst p1.
  apply den_seq_inv in D2. destruct D2 as (q1 & q2 & -> & D2 & D3).
  apply den_wordb_inv in D3. subst q2.
  apply occurs_L. exists l, q1, rest. split.
  - rewrite E. simpl. now rewrite app_nil_r.
  - now apply den_L in D2.
Qed.

(** So is a word that starts a longer pattern. *)
Lemma search_word_then w r t :
  search (L w +> r)%re t = true -> search (L w) t = true.
Proof.
  rewrite !search_iff. intros (l & p & rest & E & D).
  apply den_seq_inv in D. destruct D as (p1 & p2 & -> & D1 & D2).
  apply occurs_L. exists l, p1, (p2 ++ rest)%list. split.
  - rewrite E. now rewrite <- app_assoc.
  - now apply den_L in D1.
Qed.

(** X22. The columns of an HDD row agree: a listing classified as an external
    drive has no form factor and its interface is not SATA. *)
Theorem hdd_external_has_no_internal_marks :
  forall title target_tb cme no_offer r,
  hdd_classify title target_tb cme no_offer = Ok ("drive_external", r)%string ->
  hdd_extract_form_factor title = None /\
  hdd_extract_iface title <> "SATA"%string.
Proof.
  intros t tt cme nro r H.
  assert (Hint : search (alts [L "内蔵"; L "3.5"; L "2.5"; L "SATA"; L "SAS"]) t = false).
  { destruct (hdd_keyword_rules t nro) as [[c' r']|] eqn:K.
    - unfold hdd_classify in H. rewrite K in H. inversion H; subst c' r'.
      apply hdd_keyword_rules_inv in K.
      destruct K as [(_ & K)|[(_ & K & _)|[(_ & K & _)|(_ & K)]]]; discriminate K.
    - destruct (hdd_classify_passed t tt cme nro K) as [(r' & E & _)|E];
        rewrite E in H; [discriminate H|].
      unfold hdd_subtype in H.
      destruct (search (alts [L "内蔵"; L "3.5"; L "2.5"; L "SATA"; L "SAS"]) t);
        auto.
      exfalso. rewrite andb_false_r in H.
      repeat match type of H with
             | context [if ?b then _ else _] => destruct b
             end; discriminate H. }
  assert (Hno : forall w, In w ["3.5"; "2.5"; "SATA"]%string -> search (L w) t = false).
  { intros w Hw. destruct (search (L w) t) eqn:S; auto.
    assert (St : search (alts [L "内蔵"; L "3.5"; L "2.5"; L "SATA"; L "SAS"]) t = true).
    { apply search_alts; [discriminate|]. exists (L w). split; auto.
      simpl in Hw. simpl. intuition (subst; auto). }
    congruence. }
  split.
  - unfold hdd_extract_form_factor.
    destruct (search _FF35_RE t) eqn:S35.
    { apply search_word_then in S35. rewrite Hno in S35; [discriminate | simpl; auto]. }
    destruct (search _FF25_RE t) eqn:S25; auto.
    apply search_word_then in S25. rewrite Hno in S25; [discriminate | simpl; auto].
  - intros E. apply first_match_found in E; [|discriminate].
    destruct E as (rex & Hin & Sr). unfold _HDD_IFACE_HINTS in Hin.
    destruct Hin as [Hin|[Hin|[Hin|[Hin|[]]]]]; inversion Hin; subst rex.
    apply search_bounded_word in Sr. rewrite Hno in Sr; [discriminate | simpl; auto].
Qed.

Lemma hdd_external_has_no_internal_marks_witness :
  hdd_extract_form_factor (lit "BUFFALO 外付け HDD 4TB USB3.2") = None /\
  hdd_extract_iface (lit "BUFFALO 外付け HDD 4TB USB3.2") <> "SATA"%string.
Proof.
  apply (hdd_external_has_no_internal_marks (lit "BUFFALO 外付け HDD 4TB USB3.2")
           None true false "external HDD-like"%string).
  vm_compute. reflexivity.
Defined.

(** ** The median splits the prices in halves *)

Lemma insert_sorted_ascending x l :
  (forall i j, (i <= j < List.length l)%nat -> nth i l 0 <= nth j l 0) ->
  forall i j, (i <= j < List.length (insert_sorted x l))%nat ->
    nth i (insert_sorted x l) 0 <= nth j (insert_sorted x l) 0.
Proof.
  induction l as [|y l IH]; intros Hl i j Hij.
  - simpl in *. assert (i = 0%nat) by lia. assert (j = 0%nat) by lia. subst. lia.
  - assert (Hl' : forall i j, (i <= j < List.length l)%nat -> nth i l 0 <= nth j l 0).
    { intros a b Hab. apply (Hl (S a) (S b)). simpl. lia. }
    assert (Hy : forall k, (k < List.length l)%nat -> y <= nth k l 0).
    { intros k Hk. apply (Hl 0%nat (S k)). simpl. lia. }
    simpl in *. destruct (Z.leb_spec x y).
    + destruct i as [|i], j as [|j]; simpl in *; try lia.
      * destruct j as [|j]; [lia|]. specialize (Hy j ltac:(lia)). lia.
      * apply (Hl i j). lia.
    + specialize (IH Hl').
      assert (Hx : forall k, (k < List.length (insert_sorted x l))%nat ->
                     y <= nth k (insert_sorted x l) 0).
      { intros k Hk.
        assert (Hin : In (nth k (insert_sorted x l) 0) (insert_sorted x l))
          by (apply nth_In; lia).
        apply insert_sorted_In in Hin. destruct Hin as [->|Hin]; [lia|].
        apply (In_nth _ _ 0) in Hin. destruct Hin as (n & Hn & <-). now apply Hy. }
      destruct i as [|i], j as [|j]; simpl in *; try lia.
      * apply Hx. lia.
      * apply IH. lia.
Qed.

Lemma sorted_ascending l :
  forall i j, (i <= j < List.length (sorted l))%nat ->
    nth i (sorted l) 0 <= nth j (sorted l) 0.
Proof.
  induction l as [|x l IH]; simpl.
  - intros i j H. simpl in H. lia.
  - apply insert_sorted_ascending. exact IH.
Qed.

Lemma count_up_to data : forall i v,
  (forall i j, (i <= j < List.length data)%nat -> nth i data 0 <= nth j data 0) ->
  (i < List.length data)%nat -> nth i data 0 <= v ->
  (i + 1 <= List.length (filter (fun p => (p <=? v)%Z) data))%nat.
Proof.
  induction data as [|a d IH]; intros i v Ha Hi Hv; [simpl in Hi; lia|].
  assert (Ha' : forall i j, (i <= j < List.length d)%nat -> nth i d 0 <= nth j d 0).
  { intros x y Hxy. apply (Ha (S x) (S y)). simpl. lia. }
  assert (H0 : a <= v).
  { pose proof (Ha 0%nat i ltac:(lia)) as Hai.
    change (nth 0 (a :: d) 0) with a in Hai. lia. }
  cbn [filter]. destruct (Z.leb_spec a v) as [_|Hc]; [|lia]. cbn [List.length].
  destruct i as [|i]; [lia|].
  change (nth (S i) (a :: d) 0) with (nth i d 0) in Hv.
  cbn [List.length] in Hi. specialize (IH i v Ha' ltac:(lia) Hv). lia.
Qed.

Lemma count_from data : forall i v,
  (forall i j, (i <= j < List.length data)%nat -> nth i data 0 <= nth j data 0) ->
  (i < List.length data)%nat -> v <= nth i data 0 ->
  (List.length data - i <= List.length (filter (fun p => (v <=? p)%Z) data))%nat.
Proof.
  induction data as [|a d IH]; intros i v Ha Hi Hv; [simpl in Hi; lia|].
  assert (Ha' : forall i j, (i <= j < List.length d)%nat -> nth i d 0 <= nth j d 0).
  { intros x y Hxy. apply (Ha (S x) (S y)). simpl. lia. }
  destruct i as [|i].
  - change (nth 0 (a :: d) 0) with a in Hv.
    cbn [filter]. destruct (Z.leb_spec v a) as [_|Hc]; [|lia].
    cbn [List.length]. destruct d as [|b d]; [simpl; lia|].
    assert (Hb : v <= nth 0 (b :: d) 0).
    { pose proof (Ha 0%nat 1%nat ltac:(simpl; lia)) as Hab.
      change (nth 0 (a :: b :: d) 0) with a in Hab.
      change (nth 1 (a :: b :: d) 0) with b in Hab.
      change (nth 0 (b :: d) 0) with b. lia. }
    specialize (IH 0%nat v Ha' ltac:(simpl; lia) Hb). lia.
  - change (nth (S i) (a :: d) 0) with (nth i d 0) in Hv.
    cbn [List.length] in Hi. specialize (IH i v Ha' ltac:(lia) Hv).
    cbn [filter]. destruct (v <=? a); cbn [List.length]; lia.
Qed.

Lemma filter_length_perm {A} (f : A -> bool) l l' :
  Permutation l l' -> List.length (filter f l) = List.length (filter f l').
Proof. intros H. apply Permutation_length. now apply filter_perm. Qed.

(** X23. For prices between 0 and [2^51], at least half of the prices are at
    most the median that [calc_median] returns, and at least half are at
    least that median. *)
Theorem calc_median_splits_in_halves : forall values,
  values <> [] ->
  Forall (fun p => 0 <= p < 2 ^ 51) values ->
  exists med,
    calc_median values = Ok med /\
    (List.length values <= 2 * List.length (filter (fun p => (p <=? med)%Z) values))%nat /\
    (List.length values <= 2 * List.length (filter (fun p => (med <=? p)%Z) values))%nat.
Proof.
  intros values Hne Hall. rewrite calc_median_rounded by assumption.
  eexists. split; [reflexivity|]. unfold median_rounded.
  pose proof (sorted_is_perm values) as HP.
  pose proof (sorted_ascending values) as Hasc.
  rewrite !(filter_length_perm _ _ _ HP).
  rewrite (Permutation_length HP).
  set (data := sorted values) in *.
  assert (Hpos : (0 < List.length data)%nat).
  { rewrite <- (Permutation_length HP). destruct values; [congruence | simpl; lia]. }
  clearbody data. clear HP Hne Hall.
  set (n := List.length data) in *.
  pose proof (Nat.div_mod n 2 ltac:(lia)) as Hdiv.
  pose proof (Nat.mod_upper_bound n 2 ltac:(lia)) as Hmod.
  destruct (Nat.odd n) eqn:Eo.
  - assert (Hm : (n mod 2 = 1)%nat).
    { rewrite <- Nat.bit0_mod, Nat.bit0_odd, Eo. reflexivity. }
    pose proof (count_up_to data (n / 2) (nth (n / 2) data 0) Hasc ltac:(lia)
                  ltac:(lia)) as H1.
    pose proof (count_from data (n / 2) (nth (n / 2) data 0) Hasc ltac:(lia)
                  ltac:(lia)) as H2.
    fold n in H1, H2. lia.
  - assert (Hm : (n mod 2 = 0)%nat).
    { rewrite <- Nat.bit0_mod, Nat.bit0_odd, Eo. reflexivity. }
    assert (Hxy : nth (n / 2 - 1) data 0 <= nth (n / 2) data 0)
      by (apply Hasc; lia).
    pose proof (rhe_between (nth (n / 2 - 1) data 0) (nth (n / 2) data 0)
                  (nth (n / 2 - 1) data 0 + nth (n / 2) data 0) 2
                  ltac:(lia) ltac:(lia)) as Hr.
    pose proof (count_up_to data (n / 2 - 1) _ Hasc ltac:(lia) (proj1 Hr)) as H1.
    pose proof (count_from data (n / 2) _ Hasc ltac:(lia) (proj2 Hr)) as H2.
    fold n in H1, H2. lia.
Qed.

Lemma calc_median_splits_in_halves_witness :
  exists med,
    calc_median [3; 10; 11; 12] = Ok med /\
    (List.length [3; 10; 11; 12]%Z
     <= 2 * List.length (filter (fun p => (p <=? med)%Z) [3; 10; 11; 12]%Z))%nat /\
    (List.length [3; 10; 11; 12]%Z
     <= 2 * List.length (filter (fun p => (med <=? p)%Z) [3; 10; 11; 12]%Z))%nat.
Proof.
  apply calc_median_splits_in_halves; [discriminate | repeat constructor; lia].
Defined.

(** ** Titles that cannot overflow *)

Lemma binade_upper a d :
  0 < a -> 0 < d ->
  (0 <= binade a d + 1 -> a < d * 2 ^ (binade a d + 1)) /\
  (binade a d + 1 < 0 -> a * 2 ^ (- (binade a d + 1)) < d).
Proof.
  intros Ha Hd. unfold binade, below_pow2.
  destruct (Z.log2_spec a Ha) as [La1 La2].
  destruct (Z.log2_spec d Hd) as [Ld1 Ld2].
  pose proof (Z.log2_nonneg a) as Na. pose proof (Z.log2_nonneg d) as Nd.
  unfold Z.succ in *.
  set (la := Z.log2 a) in *. set (ld := Z.log2 d) in *. clearbody la ld.
  assert (G : (0 <= la - ld + 1 -> a < d * 2 ^ (la - ld + 1)) /\
              (la - ld + 1 < 0 -> a * 2 ^ (- (la - ld + 1)) < d)).
  { split; intros Hk.
    - assert (2 ^ (la + 1) = 2 ^ ld * 2 ^ (la - ld + 1))
        by (rewrite <- Z.pow_add_r by lia; f_equal; lia).
      assert (0 < 2 ^ (la - ld + 1)) by (apply Z.pow_pos_nonneg; lia).
      nia.
    - assert (2 ^ ld = 2 ^ (la + 1) * 2 ^ (- (la - ld + 1)))
        by (rewrite <- Z.pow_add_r by lia; f_equal; lia).
      assert (0 < 2 ^ (- (la - ld + 1))) by (apply Z.pow_pos_nonneg; lia).
      nia. }
  destruct (la - ld <? 0) eqn:K0.
  - apply Z.ltb_lt in K0.
    destruct (a * 2 ^ (- (la - ld)) <? d) eqn:B.
    + apply Z.ltb_lt in B. replace (la - ld - 1 + 1) with (la - ld) by lia.
      split; [lia | intros _; exact B].
    + exact G.
  - apply Z.ltb_ge in K0.
    destruct (a <? d * 2 ^ (la - ld)) eqn:B.
    + apply Z.ltb_lt in B. replace (la - ld - 1 + 1) with (la - ld) by lia.
      split; [intros _; exact B | lia].
    + exact G.
Qed.

Lemma pow2_split x y : 0 <= x -> 0 <= y -> 2 ^ (x + y) = 2 ^ x * 2 ^ y.
Proof. intros. now apply Z.pow_add_r. Qed.

(** A quotient below [2^K], for [K] up to 1023, rounds to a finite double
    of at most 53 bits. *)
Lemma rnd_finite n d K :
  0 < d -> Z.abs n < d * 2 ^ K -> 0 <= K <= 1023 ->
  exists m e, rnd n d = Fin m e /\ Z.abs m <= 2 ^ 53 /\ e <= Z.max (K - 52) 0.
Proof.
  intros Hd Hn HK. unfold rnd.
  destruct (Z.eqb_spec n 0) as [->|Hne].
  { exists 0, 0. split; [reflexivity|]. split; simpl; lia. }
  set (a := Z.abs n) in *. assert (Ha : 0 < a) by (unfold a; lia).
  destruct (binade_lower a d Ha Hd) as [Hl1 Hl2].
  destruct (binade_upper a d Ha Hd) as [Hu1 Hu2].
  assert (Hb : binade a d < K).
  { destruct (Z.lt_ge_cases (binade a d) 0) as [?|Hp]; [lia|].
    specialize (Hl1 Hp).
    destruct (Z.lt_ge_cases (binade a d) K) as [?|Hge]; auto.
    assert (2 ^ K <= 2 ^ binade a d) by (apply Z.pow_le_mono_r; lia).
    nia. }
  unfold rnd_exponent.
  set (b := binade a d) in *. clearbody b.
  set (e := Z.max (b - 52) (-1074)).
  assert (He : b - 52 <= e /\ -1074 <= e /\ e <= Z.max (K - 53) (-1074))
    by (unfold e; lia).
  assert (Hm : 0 <= rnd_significand a d e <= 2 ^ 53).
  { unfold rnd_significand. destruct (Z.ltb_spec e 0) as [Hneg|Hpos].
    - assert (P : 0 < 2 ^ (- e)) by (apply Z.pow_pos_nonneg; lia).
      assert (Hx : a * 2 ^ (- e) <= 2 ^ 53 * d).
      { destruct (Z.lt_ge_cases (b + 1) 0) as [Hb1|Hb1].
        - specialize (Hu2 Hb1).
          assert (2 ^ (- e) <= 2 ^ (52 - b)) by (apply Z.pow_le_mono_r; lia).
          assert (2 ^ (52 - b) = 2 ^ (- (b + 1)) * 2 ^ 53)
            by (rewrite <- pow2_split by lia; f_equal; lia).
          assert (0 < 2 ^ (- (b + 1))) by (apply Z.pow_pos_nonneg; lia).
          nia.
        - specialize (Hu1 Hb1).
          assert (2 ^ (b + 1) * 2 ^ (- e) = 2 ^ (b + 1 - e))
            by (rewrite <- pow2_split by lia; f_equal; lia).
          assert (2 ^ (b + 1 - e) <= 2 ^ 53) by (apply Z.pow_le_mono_r; lia).
          nia. }
      apply rhe_between; [lia|]. nia.
    - assert (P : 0 < 2 ^ e) by (apply Z.pow_pos_nonneg; lia).
      assert (Hb1 : 0 <= b + 1) by lia. specialize (Hu1 Hb1).
      assert (2 ^ (b + 1) <= 2 ^ (e + 53)) by (apply Z.pow_le_mono_r; lia).
      assert (2 ^ (e + 53) = 2 ^ e * 2 ^ 53) by (apply pow2_split; lia).
      apply rhe_between; [nia|]. nia. }
  set (m := rnd_significand a d e) in *. clearbody m.
  destruct (Z.eqb_spec m (2 ^ 53)) as [->|Hm53].
  - change (2 ^ 52 =? 0) with false. cbv iota beta.
    destruct (Z.ltb_spec 971 (e + 1)); [lia|].
    eexists _, _. split; [reflexivity|]. split; [|lia].
    destruct (Z.sgn_spec n) as [[_ ->]|[[_ ->]|[_ ->]]]; simpl; lia.
  - destruct (Z.eqb_spec m 0).
    + exists 0, 0. split; [reflexivity|]. split; simpl; lia.
    + destruct (Z.ltb_spec 971 e); [lia|].
      eexists _, _. split; [reflexivity|]. split; [|lia].
      destruct (Z.sgn_spec n) as [[_ ->]|[[_ ->]|[_ ->]]]; lia.
Qed.

Lemma fmul_1024_finite m e :
  Z.abs m <= 2 ^ 53 -> e <= 948 ->
  exists m' e', fmul (Fin m e) (Fin 1024 0) = Fin m' e'.
Proof.
  intros Hm He. unfold fmul, rnd_dyadic. rewrite Z.add_0_r.
  destruct (Z.ltb_spec e 0) as [Hneg|Hpos].
  - destruct (rnd_finite (m * 1024) (2 ^ (- e)) 1023) as (m' & e' & -> & _); eauto.
    + apply Z.pow_pos_nonneg; lia.
    + assert (1 <= 2 ^ (- e)) by (apply (Z.pow_le_mono_r 2 0); lia).
      assert (2 ^ 63 <= 2 ^ 1023) by (apply Z.pow_le_mono_r; lia).
      change (2 ^ 63) with (2 ^ 53 * 1024) in *. rewrite Z.abs_mul. 
      change (Z.abs 1024) with 1024. nia.
    + lia.
  - destruct (rnd_finite (m * 1024 * 2 ^ e) 1 1023) as (m' & e' & -> & _); eauto;
      try lia.
    assert (P : 0 < 2 ^ e) by (apply Z.pow_pos_nonneg; lia).
    assert (2 ^ e <= 2 ^ 948) by (apply Z.pow_le_mono_r; lia).
    assert (2 ^ 53 * 1024 * 2 ^ 948 < 2 ^ 1023) by (vm_compute; reflexivity).
    rewrite !Z.abs_mul. change (Z.abs 1024) with 1024.
    rewrite (Z.abs_eq (2 ^ e)) by lia. nia.
Qed.

Lemma finditer_from_length g rest : forall s prev skip grp,
  In grp (finditer_from g rest prev s skip) ->
  (List.length grp <= List.length s)%nat.
Proof.
  assert (M : forall prev s grp n, match_group g rest prev s = Some (grp, n) ->
                (List.length grp <= List.length s)%nat).
  { intros prev s grp n H. apply match_group_sound in H.
    destruct H as (p2 & rest' & -> & _). rewrite length_app. lia. }
  induction s as [|c s IH]; intros prev skip grp; simpl.
  - destruct skip; [|intros []].
    destruct (match_group g rest prev []) as [[g0 n]|] eqn:E; [|intros []].
    intros [<-|[]]. apply (M _ _ _ _ E).
  - destruct skip; [|intros H; apply IH in H; lia].
    destruct (match_group g rest prev (c :: s)) as [[g0 n]|] eqn:E.
    + intros [<-|H]; [apply (M _ _ _ _ E) | apply IH in H; lia].
    + intros H. apply IH in H. lia.
Qed.

(** The float of a TB numeral of at most 300 characters is finite, and so
    is 1024 times it. *)
Lemma tb_group_small prev grp rest :
  den TB_RE_group prev grp rest -> (List.length grp <= 300)%nat ->
  exists m e, py_float_of_str grp = Ok (Fin m e) /\ Z.abs m <= 2 ^ 53 /\ e <= 948.
Proof.
  unfold TB_RE_group. intros D Hlen. apply den_seq_inv in D.
  destruct D as (d1 & o & -> & D1 & D2).
  apply den_rep_inv in D1. destruct D1 as (H1 & L1 & _).
  assert (N1 : d1 <> []) by (destruct d1; [simpl in L1; lia | discriminate]).
  destruct (py_int_of_str_digits d1 N1 H1) as (n & En & Hn).
  rewrite length_app in Hlen.
  assert (B : 10 ^ Z.of_nat (List.length d1) <= 10 ^ 300)
    by (apply Z.pow_le_mono_r; lia).
  assert (B2 : 10 ^ 300 < 2 ^ 1000) by (vm_compute; reflexivity).
  apply den_opt_inv in D2. destruct D2 as [D2| ->].
  - apply den_seq_inv in D2. destruct D2 as (dot & d2 & -> & Dd & D2).
    change (L ".") with (RSeq (RAtom (AChar 0x2E)) REps) in Dd.
    apply den_seq_inv in Dd. destruct Dd as (a & e & -> & Da & De).
    apply den_atom_inv in Da. destruct Da as (c & -> & Hc).
    apply den_eps_inv in De. subst e. simpl in Hc.
    apply Z.eqb_eq in Hc. change (fold_case 46) with 46 in Hc.
    apply fold_case_dot in Hc. subst c.
    apply den_rep_inv in D2. destruct D2 as (H2 & L2 & _).
    assert (N2 : d2 <> []) by (destruct d2; [simpl in L2; lia | discriminate]).
    destruct (py_int_of_str_digits d2 N2 H2) as (f & Ef & Hf).
    unfold py_float_of_str. simpl app. rewrite split_at_dot_digits by auto.
    rewrite En, Ef. cbn [bind]. unfold float_of_decimal.
    set (k := Z.of_nat (List.length d2)) in *.
    assert (P : 0 < 10 ^ k) by (apply Z.pow_pos_nonneg; lia).
    destruct (rnd_finite (n * 10 ^ k + f) (10 ^ k) 1000) as (m & e & E & Hm & He);
      [lia | rewrite Z.abs_eq by nia; nia | lia |].
    exists m, e. rewrite E. split; [reflexivity|]. split; [exact Hm | lia].
  - rewrite app_nil_r. unfold py_float_of_str.
    rewrite split_at_dot_no_dot by auto. rewrite En. cbn [bind].
    unfold float_of_decimal. change (10 ^ 0) with 1.
    destruct (rnd_finite n 1 1000) as (m & e & E & Hm & He);
      [lia | rewrite Z.abs_eq by lia; lia | lia |].
    exists m, e. rewrite E. split; [reflexivity|]. split; [exact Hm | lia].
Qed.

Lemma collect_head {A} (conv : str -> result A) groups x xs :
  collect conv groups = x :: xs ->
  exists g, In g groups /\ conv g = Ok x.
Proof.
  unfold collect.
  assert (G : forall groups acc,
            fold_left (fun xs g => match conv g with
                                   | Ok x => (xs ++ [x])%list
                                   | Raise _ => xs
                                   end) groups acc = x :: xs ->
            (exists ys, acc = x :: ys) \/ exists g, In g groups /\ conv g = Ok x).
  { clear groups. induction groups as [|g gs IH]; intros acc H; simpl in H.
    - left. eauto.
    - apply IH in H. destruct H as [(ys & E)|(g' & Hin & E)].
      + destruct (conv g) as [y|] eqn:C; [|left; eauto].
        destruct acc as [|a acc]; simpl in E.
        * inversion E; subst. right. exists g. split; [now left | auto].
        * inversion E; subst. left. eauto.
      + right. exists g'. split; [now right | auto]. }
  intros H. destruct (G _ _ H) as [(ys & E)|?]; [discriminate | auto].
Qed.

(** X24. A title of at most 300 characters cannot overflow: for such a title
    [extract_capacity_gb_tb] returns, and so does [ssd_classify] when
    capacity matching is disabled or no target is known. *)
Theorem short_title_never_raises : forall title,
  (List.length title <= 300)%nat ->
  (exists r, extract_capacity_gb_tb title = Ok r) /\
  (forall target_gb target_tb cme,
     cme = false \/ (target_gb = None /\ target_tb = None) ->
     exists c r, ssd_classify title target_gb target_tb cme = Ok (c, r)).
Proof.
  intros t Hlen.
  assert (He : exists r, extract_capacity_gb_tb t = Ok r).
  { unfold extract_capacity_gb_tb.
    destruct (collect py_float_of_str (finditer_group1 TB_RE_group TB_RE_rest t))
      as [|x xs] eqn:Et; [eauto|].
    apply collect_head in Et. destruct Et as (g & Hin & Eg).
    pose proof (finditer_from_length _ _ _ _ _ _ Hin) as Hl.
    apply finditer_from_sound in Hin. destruct Hin as (prev & rest & D).
    destruct (tb_group_small _ _ _ D ltac:(lia)) as (m & e & E & Hm & Hexp).
    rewrite E in Eg. inversion Eg; subst x.
    destruct (fmul_1024_finite m e Hm Hexp) as (m' & e' & ->).
    simpl. eauto. }
  split; [exact He|].
  intros tg tt cme Hoff. unfold ssd_classify.
  destruct (ssd_keyword_rules t) as [[c r]|]; eauto.
  destruct He as ([[[cg ct] gbs] tbs] & ->). cbn [bind].
  destruct (ssd_subtype t) as [c r].
  destruct Hoff as [->|[-> ->]]; simpl; [eauto|].
  destruct cme; simpl; eauto.
Qed.

Lemma short_title_never_raises_witness :
  exists r, extract_capacity_gb_tb (lit "Crucial SSD 99999999999999999999TB") = Ok r.
Proof.
  apply (short_title_never_raises (lit "Crucial SSD 99999999999999999999TB")).
  simpl. lia.
Defined.

(* ================================================================== *)
(** * Part IV. Brand-only mode and the capacity rule

    Both are stated over what the patterns match and over the numbers of
    the title, with the lemmas of Part III.                              *)
(* ================================================================== *)

(** ** Brand-only mode *)

(** C7 as stated fails in the HDD pipeline: an accessory without a maker
    name stays an accessory. *)
Lemma brand_only_counterexample :
  ~ (forall title target_tb cme no_offer c r,
       hdd_item_category false true no_offer title target_tb cme = Ok (c, r) ->
       hdd_is_maker title = false ->
       c = "other"%string).
Proof.
  intros H.
  specialize (H (lit "XBOX HDD 2TB") (Some (Fin 2 0)) true false
                "accessory"%string "accessory keyword"%string).
  assert (Hc : "accessory"%string = "other"%string)
    by (apply H; vm_compute; reflexivity).
  discriminate Hc.
Qed.

Lemma prefix_app p : forall s,
  String.prefix p s = true <-> exists rest, s = (p ++ rest)%string.
Proof.
  induction p as [|a p IH]; intros s.
  - split; [intros _; exists s; reflexivity | intros _; now destruct s].
  - destruct s as [|b s].
    + split; [discriminate | intros (rest & E); discriminate E].
    + cbn [String.prefix]. destruct (Ascii.ascii_dec a b) as [->|Hne].
      * rewrite IH. split; intros (rest & E); exists rest.
        -- now rewrite E.
        -- now inversion E.
      * split; [discriminate|]. intros (rest & E). inversion E. congruence.
Qed.

Lemma is_drive_category_spec c :
  is_drive_category c = true <-> starts_with_drive c.
Proof. apply prefix_app. Qed.

Lemma some_pattern_found table t :
  existsb (fun d => search (snd d) t) table = true <-> matched_by_some table t.
Proof.
  rewrite existsb_exists. unfold matched_by_some. split.
  - intros ([name rex] & Hin & S). apply search_iff in S. eauto.
  - intros (name & rex & Hin & O). exists (name, rex). split; auto.
    now apply search_iff.
Qed.

Lemma no_pattern_found table t :
  existsb (fun d => search (snd d) t) table = false <-> matched_by_none table t.
Proof.
  split.
  - intros E name rex Hin O.
    assert (H : matched_by_some table t) by (exists name, rex; auto).
    apply some_pattern_found in H. congruence.
  - intros H. destruct (existsb _ table) eqn:E; auto.
    apply some_pattern_found in E. destruct E as (name & rex & Hin & O).
    exfalso. exact (H name rex Hin O).
Qed.

(** [first_match] answers the empty name exactly when no pattern of the
    table is found, provided no brand has the empty name. *)
Lemma first_match_empty table t :
  Forall (fun d => fst d <> ""%string) table ->
  (first_match table t = ""%string <->
   existsb (fun d => search (snd d) t) table = false).
Proof.
  induction 1 as [|[name rex] table Hn _ IH]; simpl; [tauto|].
  destruct (search rex t); simpl; [|exact IH].
  split; [intros E; now apply Hn in E | discriminate].
Qed.

Lemma ssd_brands_named : Forall (fun d => fst d <> ""%string) _SSD_BRANDS.
Proof. repeat constructor; discriminate. Qed.

Lemma ssd_guess_brand_empty t :
  ssd_guess_brand t = ""%string <-> matched_by_none _SSD_BRANDS t.
Proof.
  unfold ssd_guess_brand.
  rewrite (first_match_empty _ t ssd_brands_named). apply no_pattern_found.
Qed.

(** C7, amended. With brand-only mode enabled and raw mode off: in the SSD
    pipeline an item without the no-eligible-offer marker whose title is
    matched by no pattern of [_SSD_BRANDS] gets category [other], whatever
    [ssd_classify] assigned; in the HDD pipeline an item whose title is
    matched by no pattern of [_HDD_MAKERS] gets category [other] when
    [hdd_classify] assigned a category that starts with [drive_], and keeps
    the category and reason of [hdd_classify] otherwise.  In both pipelines
    an item whose title is matched by one of the patterns keeps the category
    and reason of the classifier. *)
Theorem brand_only_downgrade :
  (forall title target_gb target_tb cme caps c r,
     extract_capacity_gb_tb title = Ok caps ->
     ssd_classify title target_gb target_tb cme = Ok (c, r) ->
     (matched_by_none _SSD_BRANDS title ->
      ssd_item_category false true false title target_gb target_tb cme
        = Ok ("other", "brand-only: unknown brand")%string) /\
     (matched_by_some _SSD_BRANDS title ->
      ssd_item_category false true false title target_gb target_tb cme
        = Ok (c, r))) /\
  (forall title target_tb cme no_offer c r,
     hdd_classify title target_tb cme no_offer = Ok (c, r) ->
     (matched_by_none _HDD_MAKERS title -> starts_with_drive c ->
      hdd_item_category false true no_offer title target_tb cme
        = Ok ("other", "not drive maker")%string) /\
     (matched_by_none _HDD_MAKERS title -> ~ starts_with_drive c ->
      hdd_item_category false true no_offer title target_tb cme = Ok (c, r)) /\
     (matched_by_some _HDD_MAKERS title ->
      hdd_item_category false true no_offer title target_tb cme = Ok (c, r))).
Proof.
  split.
  - intros title tg tt cme caps c r He Hc. unfold ssd_item_category.
    rewrite He, Hc. cbn [bind andb]. split.
    + intros Hb. apply ssd_guess_brand_empty in Hb. rewrite Hb. reflexivity.
    + intros Hb. destruct (String.eqb (ssd_guess_brand title) "") eqn:E; auto.
      apply String.eqb_eq, ssd_guess_brand_empty in E.
      destruct Hb as (name & rex & Hin & O). exfalso. exact (E name rex Hin O).
  - intros title tt cme no_offer c r Hc. unfold hdd_item_category.
    rewrite Hc. cbn [bind andb].
    destruct (hdd_extract_total title) as (c0 & cl & ->). cbn [bind].
    split; [|split].
    + intros Hm Hd. apply no_pattern_found in Hm.
      apply is_drive_category_spec in Hd.
      unfold hdd_is_maker. rewrite Hm, Hd. reflexivity.
    + intros _ Hd. destruct (is_drive_category c) eqn:E; auto.
      apply is_drive_category_spec in E. contradiction.
    + intros Hm. apply some_pattern_found in Hm.
      unfold hdd_is_maker. rewrite Hm. now rewrite andb_false_r.
Qed.

Lemma brand_only_downgrade_witness :
  ssd_item_category false true false (lit "SSD 1TB NVMe") None (Some (Fin 1 0)) true
    = Ok ("other", "brand-only: unknown brand")%string /\
  hdd_item_category false true false (lit "HDD 2TB SATA") (Some (Fin 2 0)) true
    = Ok ("other", "not drive maker")%string /\
  hdd_item_category false true false (lit "USB HDD 2TB") (Some (Fin 2 0)) true
    = Ok ("other", "not drive maker")%string /\
  hdd_item_category false true false (lit "XBOX HDD 2TB") (Some (Fin 2 0)) true
    = Ok ("accessory", "accessory keyword")%string /\
  hdd_item_category false true false (lit "Seagate HDD 2TB SATA") (Some (Fin 2 0)) true
    = Ok ("drive_internal", "internal HDD-like")%string.
Proof.
  split; [|split; [|split; [|split]]].
  - refine (proj1 (proj1 brand_only_downgrade (lit "SSD 1TB NVMe") None
                     (Some (Fin 1 0)) true
                     (Some 1024, Some (Fin 4503599627370496 (-52)), [],
                      [Fin 4503599627370496 (-52)])
                     "drive_internal_nvme"%string "nvme/m.2 hints"%string _ _) _).
    + vm_compute; reflexivity.
    + vm_compute; reflexivity.
    + apply ssd_guess_brand_empty. vm_compute; reflexivity.
  - refine (proj1 (proj2 brand_only_downgrade (lit "HDD 2TB SATA") (Some (Fin 2 0))
                     true false "drive_internal"%string "internal HDD-like"%string
                     _) _ _).
    + vm_compute; reflexivity.
    + apply no_pattern_found. vm_compute; reflexivity.
    + exists "internal"%string. reflexivity.
  - refine (proj1 (proj2 brand_only_downgrade (lit "USB HDD 2TB") (Some (Fin 2 0))
                     true false "drive_external"%string "external HDD-like"%string
                     _) _ _).
    + vm_compute; reflexivity.
    + apply no_pattern_found. vm_compute; reflexivity.
    + exists "external"%string. reflexivity.
  - refine (proj1 (proj2 (proj2 brand_only_downgrade (lit "XBOX HDD 2TB")
                            (Some (Fin 2 0)) true false
                            "accessory"%string "accessory keyword"%string _)) _ _).
    + vm_compute; reflexivity.
    + apply no_pattern_found. vm_compute; reflexivity.
    + intros (rest & E). discriminate E.
  - refine (proj2 (proj2 (proj2 brand_only_downgrade (lit "Seagate HDD 2TB SATA")
                            (Some (Fin 2 0)) true false
                            "drive_internal"%string "internal HDD-like"%string _)) _).
    + vm_compute; reflexivity.
    + apply some_pattern_found. vm_compute; reflexivity.
Defined.

(** ** The capacity rule *)

Lemma ltb_negb_leb a b : (a <? b) = negb (b <=? a).
Proof. destruct (Z.ltb_spec a b), (Z.leb_spec b a); auto; lia. Qed.

(** C1 as stated fails.  A title with two distinct GB values is accepted
    for a TB target (the multi-capacity test looks at GB values only when
    the target is in GB), and the HDD classifier accepts a GB-only listing
    of 900 GB for a 1 TB target, more than 80 GB away from both 1024 and
    1000. *)
Lemma capacity_rule_counterexample :
  (extract_capacity_gb_tb (lit "SSD 1000GB 1024GB")
     = Ok (Some 1024, None, [1000; 1024], []) /\
   ssd_classify (lit "SSD 1000GB 1024GB") None (Some (Fin 1 0)) true
     = Ok ("drive_internal_sata", "generic ssd")%string) /\
  (finditer_group1 GB_RE_group GB_RE_rest (lit "HDD 900GB") = [lit "900"] /\
   finditer_group1 TB_RE_group TB_RE_rest (lit "HDD 900GB") = [] /\
   gb_within 900 1024 80 = false /\ gb_within 900 1000 80 = false /\
   hdd_classify (lit "HDD 900GB") (Some (Fin 1 0)) true false
     = Ok ("drive_internal", "internal HDD-like")%string).
Proof. vm_compute. repeat split; reflexivity. Qed.

Lemma ssd_classify_capacity t tg tt cg ct gbs tbs :
  ssd_keyword_rules t = None ->
  extract_capacity_gb_tb t = Ok (cg, ct, gbs, tbs) ->
  (tg <> None \/ tt <> None) ->
  ssd_classify t tg tt true =
  (early <- ssd_capacity_rule tg tt cg ct gbs tbs ;;
   match early with
   | Some verdict => Ok verdict
   | None => Ok (ssd_subtype t)
   end).
Proof.
  intros Hk He Ht. unfold ssd_classify. rewrite Hk, He. simpl.
  destruct tg, tt; simpl; auto; destruct Ht; congruence.
Qed.

Lemma div_each_1024_spec gs : forall qs,
  div_each_1024 gs = Ok qs -> each_divided_by_1024 gs qs.
Proof.
  induction gs as [|g gs IH]; cbn [div_each_1024]; intros qs H.
  - inversion H. constructor.
  - unfold bind in H.
    destruct (fdiv g (Fin 1024 0)) as [q|] eqn:Eq; [|discriminate].
    destruct (div_each_1024 gs) as [qs'|] eqn:Eqs; [|discriminate].
    inversion H; subst. constructor; auto. now apply IH.
Qed.

Lemma sorted_set_distinct xs :
  Forall nonnegative xs -> distinct_ascending xs (sorted_set xs).
Proof.
  intros F.
  assert (N : Forall (fun y => y <> NaN) xs).
  { eapply Forall_impl; [|exact F]. apply nonnegative_not_NaN. }
  destruct (sorted_set_spec xs [] N (Forall_nil _) I) as (S1 & I1 & _ & I3).
  split; [exact S1|]. split; [|exact I3].
  intros v Hv. destruct (I1 v Hv) as [?|[]]; auto.
Qed.

(** What [_hdd_extract_capacity_tb] returns: the TB values of the title,
    without repetition and in ascending order, when there are any, and
    otherwise the GB values, without repetition, in ascending order and
    divided by 1024; the capacity is the first, the smallest, of them. *)
Lemma hdd_capacities t :
  let tbs := collect py_float_of_str (finditer_group1 TB_RE_group TB_RE_rest t) in
  let gbs := collect py_float_of_str (finditer_group1 GB_RE_group GB_RE_rest t) in
  exists cap0 caps vals,
    _hdd_extract_capacity_tb t = Ok (cap0, caps) /\
    cap0 = hd_error caps /\
    (tbs <> [] -> distinct_ascending tbs vals /\ caps = vals) /\
    (tbs = [] -> distinct_ascending gbs vals /\ each_divided_by_1024 vals caps).
Proof.
  intros tbs gbs.
  destruct (collect_all py_float_of_str nonnegative _ (tb_groups_convert t))
    as (_ & Ft & _).
  destruct (collect_all py_float_of_str nonnegative _ (gb_groups_float t))
    as (_ & Fg & _).
  fold tbs in Ft. fold gbs in Fg.
  pose proof (sorted_set_distinct tbs Ft) as Dt.
  pose proof (sorted_set_distinct gbs Fg) as Dg.
  unfold _hdd_extract_capacity_tb. fold tbs gbs.
  destruct (sorted_set tbs) as [|u0 us] eqn:Es.
  - apply (proj1 (sorted_set_nil _)) in Es.
    destruct (sorted_set gbs) as [|g0 gs] eqn:Eg.
    + exists None, [], []. split; [reflexivity|]. split; [reflexivity|].
      split; [intros H; contradiction|]. intros _. split; [exact Dg | constructor].
    + destruct (div_each_1024_total (g0 :: gs)) as [qs Hqs].
      pose proof (div_each_1024_spec _ _ Hqs) as Hdiv.
      inversion Hdiv as [|g q gs' qs' Hq Hrest]; subst.
      rewrite Hq. cbn [bind]. rewrite Hqs. cbn [bind].
      exists (Some q), (q :: qs'), (g0 :: gs).
      split; [reflexivity|]. split; [reflexivity|].
      split; [intros H; contradiction|]. intros _. split; [exact Dg | exact Hdiv].
  - exists (Some u0), (u0 :: us), (u0 :: us).
    split; [reflexivity|]. split; [reflexivity|]. split.
    + intros _. split; [exact Dt | reflexivity].
    + intros E. rewrite E in Es. discriminate Es.
Qed.

(** C1, amended. With capacity matching enabled and a target known, for a
    title that the keyword rules let through:
    - for [ssd_classify] the capacities are the numbers that [TB_RE] and
      [GB_RE] find in the title, the TB capacity is the first TB value, and
      the GB capacity is the first TB value times 1024, rounded to an
      integer, or, when no TB value is stated, the largest GB value;
    - [ssd_classify] answers [other] when the title states more than one
      distinct TB value (compared after rounding to three decimals), or,
      for a GB target only, more than one distinct GB value;
    - otherwise it answers [other] when no capacity was extracted;
    - otherwise it accepts (goes on to the sub-type) exactly when: for a TB
      target and a TB-stated listing, the difference computed in double
      precision is not greater than 0.2; for a TB target and a GB-only
      listing, the GB value is within 80 of target x 1024 or of
      target x 1000, each rounded to an integer; for a GB target, the GB
      capacity is within [max(20, int(target * 0.10))] of the target;
    - for [hdd_classify] the capacities are, for every title, the TB values
      of the title without repetition and in ascending order when there are
      any, and otherwise its GB values without repetition, in ascending
      order and divided by 1024; the capacity compared is the first, the
      smallest, of them, and there is none when the title has neither;
    - [hdd_classify] answers [other] when more than one distinct capacity
      remains after rounding to three decimals, [other] when there is none,
      and otherwise accepts exactly when the difference of the capacity and
      the TB target, in double precision, is not greater than 0.2. *)
Theorem capacity_rule :
  (forall t cg ct gbs tbs,
     extract_capacity_gb_tb t = Ok (cg, ct, gbs, tbs) ->
     tbs = collect py_float_of_str (finditer_group1 TB_RE_group TB_RE_rest t) /\
     gbs = collect py_int_of_str (finditer_group1 GB_RE_group GB_RE_rest t) /\
     ct = hd_error tbs /\
     (tbs = [] -> cg = match gbs with [] => None | g :: gs => Some (py_max g gs) end) /\
     (forall x rest, tbs = x :: rest ->
        exists g, py_round (fmul x (Fin 1024 0)) = Ok g /\ cg = Some g)) /\
  (forall t tg tt cg ct gbs tbs,
     ssd_keyword_rules t = None ->
     extract_capacity_gb_tb t = Ok (cg, ct, gbs, tbs) ->
     (tg <> None \/ tt <> None) ->
     (several_tb tbs || (several_gb gbs && is_none tt) = true ->
      ssd_classify t tg tt true = Ok ("other", "multi-capacity listing")%string) /\
     (several_tb tbs || (several_gb gbs && is_none tt) = false ->
      (cg = None -> ct = None ->
       ssd_classify t tg tt true = Ok ("other", "no capacity")%string) /\
      (forall T c, tt = Some T -> ct = Some c ->
       ssd_classify t tg tt true =
       Ok (if tb_within c T then ssd_subtype t
           else ("other", "capacity mismatch")%string)) /\
      (forall T g a b, tt = Some T -> ct = None -> cg = Some g ->
       py_round (fmul T (Fin 1024 0)) = Ok a ->
       py_round (fmul T (Fin 1000 0)) = Ok b ->
       ssd_classify t tg tt true =
       Ok (if gb_within g a 80 || gb_within g b 80 then ssd_subtype t
           else ("other", "capacity mismatch")%string)) /\
      (forall G g tenth, tt = None -> tg = Some G -> cg = Some g ->
       (x <- int_mul_float G f0_10 ;; py_int x) = Ok tenth ->
       ssd_classify t tg tt true =
       Ok (if gb_within g G (Z.max 20 tenth) then ssd_subtype t
           else ("other", "capacity mismatch")%string)))) /\
  (forall t,
     exists cap0 caps vals,
       _hdd_extract_capacity_tb t = Ok (cap0, caps) /\
       cap0 = hd_error caps /\
       (collect py_float_of_str (finditer_group1 TB_RE_group TB_RE_rest t) <> [] ->
        distinct_ascending
          (collect py_float_of_str (finditer_group1 TB_RE_group TB_RE_rest t)) vals /\
        caps = vals) /\
       (collect py_float_of_str (finditer_group1 TB_RE_group TB_RE_rest t) = [] ->
        distinct_ascending
          (collect py_float_of_str (finditer_group1 GB_RE_group GB_RE_rest t)) vals /\
        each_divided_by_1024 vals caps)) /\
  (forall t T nro cap0 caps,
     hdd_keyword_rules t nro = None ->
     _hdd_extract_capacity_tb t = Ok (cap0, caps) ->
     hdd_classify t (Some T) true nro =
     Ok (if several_tb caps then ("other", "multi-capacity listing")%string
         else match cap0 with
              | None => ("other", "no capacity")%string
              | Some c => if tb_within c T then hdd_subtype t
                          else ("other", "capacity mismatch")%string
              end)).
Proof.
  split; [|split; [|split]].
  - intros t cg ct gbs tbs. unfold extract_capacity_gb_tb.
    destruct (collect py_float_of_str _) as [|tb tbs'] eqn:Etb.
    + intros H; inversion H; subst.
      split; [reflexivity|]. split; [reflexivity|]. split; [reflexivity|].
      split; [reflexivity|]. intros x rest E. discriminate E.
    + destruct (py_round (fmul tb (Fin 1024 0))) as [g|] eqn:Er;
        cbn [bind]; intros H; inversion H; subst.
      split; [reflexivity|]. split; [reflexivity|]. split; [reflexivity|].
      split; [intros E; discriminate E|].
      intros x rest E. inversion E; subst. exists g. auto.
  - intros t tg tt cg ct gbs tbs Hk He Ht.
    rewrite (ssd_classify_capacity _ _ _ _ _ _ _ Hk He Ht).
    unfold ssd_capacity_rule, several_tb, several_gb. split.
    + intros ->. reflexivity.
    + intros ->. repeat split.
      * intros -> ->. reflexivity.
      * intros T c -> ->. simpl. unfold tb_within.
        now destruct (fgt _ _).
      * intros T g a b -> -> -> Ha Hb. simpl. rewrite Ha. simpl.
        unfold gb_within. rewrite (ltb_negb_leb 80).
        destruct (Z.abs (g - a) <=? 80); simpl; auto.
        rewrite Hb. simpl. rewrite (ltb_negb_leb 80).
        now destruct (Z.abs (g - b) <=? 80).
      * intros G g tenth -> -> -> Hten. simpl.
        destruct ct; simpl; rewrite Hten; simpl; unfold gb_within;
          rewrite ltb_negb_leb; now destruct (Z.abs (g - G) <=? _).
  - intros t. exact (hdd_capacities t).
  - intros t T nro cap0 caps Hk He. unfold hdd_classify.
    rewrite Hk, He. simpl. unfold hdd_capacity_rule, several_tb, tb_within.
    destruct (_ <? _)%nat; auto.
    destruct cap0; auto. now destruct (fgt _ _).
Qed.

Lemma capacity_rule_witness :
  ssd_classify (lit "Samsung 970 EVO Plus 1TB NVMe M.2 SSD") None
               (Some (Fin 1 0)) true
    = Ok ("drive_internal_nvme", "nvme/m.2 hints")%string /\
  (exists g,
     py_round (fmul (Fin 4503599627370496 (-53)) (Fin 1024 0)) = Ok g /\
     Some 512 = Some g) /\
  hdd_classify (lit "HDD 900GB") (Some (Fin 1 0)) true false
    = Ok ("drive_internal", "internal HDD-like")%string.
Proof.
  split; [|split].
  - assert (Hk : ssd_keyword_rules (lit "Samsung 970 EVO Plus 1TB NVMe M.2 SSD")
                 = None) by (vm_compute; reflexivity).
    assert (He : extract_capacity_gb_tb (lit "Samsung 970 EVO Plus 1TB NVMe M.2 SSD")
                 = Ok (Some 1024, Some (Fin 4503599627370496 (-52)), [],
                       [Fin 4503599627370496 (-52)]))
      by (vm_compute; reflexivity).
    assert (Ht : @None Z <> None \/ Some (Fin 1 0) <> None)
      by (right; discriminate).
    destruct (proj1 (proj2 capacity_rule) _ _ _ _ _ _ _ Hk He Ht) as [_ H].
    destruct (H eq_refl) as (_ & H2 & _).
    rewrite (H2 (Fin 1 0) (Fin 4503599627370496 (-52)) eq_refl eq_refl).
    vm_compute. reflexivity.
  - assert (He : extract_capacity_gb_tb (lit "Crucial SSD 0.5TB 480GB")
                 = Ok (Some 512, Some (Fin 4503599627370496 (-53)), [480],
                       [Fin 4503599627370496 (-53)]))
      by (vm_compute; reflexivity).
    destruct (proj1 capacity_rule _ _ _ _ _ He) as (_ & _ & _ & _ & H).
    exact (H _ _ eq_refl).
  - assert (Hk : hdd_keyword_rules (lit "HDD 900GB") false = None)
      by (vm_compute; reflexivity).
    assert (He : _hdd_extract_capacity_tb (lit "HDD 900GB")
                 = Ok (Some (Fin 7916483719987200 (-53)),
                       [Fin 7916483719987200 (-53)]))
      by (vm_compute; reflexivity).
    rewrite (proj2 (proj2 (proj2 capacity_rule)) _ (Fin 1 0) _ _ _ Hk He).
    vm_compute. reflexivity.
Defined.

(** The capacities of three HDD titles: the smallest TB value of several,
    900 GB as a fraction of a TB, and none. *)
Lemma hdd_capacities_examples :
  _hdd_extract_capacity_tb (lit "WD Red 4TB (8TB / 4.0TB)")
    = Ok (Some (Fin 4503599627370496 (-50)),
          [Fin 4503599627370496 (-50); Fin 4503599627370496 (-49)]) /\
  _hdd_extract_capacity_tb (lit "HDD 900GB")
    = Ok (Some (Fin 7916483719987200 (-53)), [Fin 7916483719987200 (-53)]) /\
  fdiv (Fin 900 0) (Fin 1024 0) = Ok (Fin 7916483719987200 (-53)) /\
  _hdd_extract_capacity_tb (lit "HDD SATA") = Ok (None, []).
Proof. vm_compute. auto. Qed.
